(** * calendar-gap-time: availability calculator and resilient request layer

    A shallow embedding of [client/src/App.js] ([DateTimeUtils],
    [CalendarService], [groupedTimeSlots]),
    [client/src/services/apiService.js] ([ApiError], [ResponseCache],
    [ConcurrencyManager], [ApiServiceClass]),
    [client/src/config/constants.js] and the [PerformanceTracker] of
    [client/src/utils/logger.js], followed by the properties proved about
    them.

    Conventions of the embedding.
    - A valid dayjs object is its number of milliseconds on the local time
      line ([Z]); local days are blocks of [msPerDay] milliseconds (no
      daylight-saving shifts).  [option Z] is a dayjs object that may be
      [Invalid Date] ([None]); every comparison with [Invalid Date] is false
      and every difference with it is [NaN], as in dayjs.
    - A calendar date text ['YYYY-MM-DD'] is the number of its day ([Day]);
      two such texts are equal exactly when the days are.
    - A clock text is a real [string], read as [dayjs] reads the clock of
      [`${date}T${clock}`] ([Dayjs.clockMillis]).
    - A response body is an object, by the members that the code reads,
      or the JSON value [null].
    - A JavaScript exception is a value of [JsError] carried by [Throw]. *)

From Stdlib Require Import ZArith List Bool String Ascii Lia QArith Qminmax.
From Stdlib Require Import DecimalString Lqa.
From Stdlib Require Import Sorting.Sorted Lists.Finite.
From Equations Require Import Equations.
Import ListNotations.

Local Open Scope string_scope.
Local Open Scope list_scope.
Local Open Scope Z_scope.

(** ** config/constants.js *)

Module TIME_CONSTANTS.
Definition SLOT_DURATION_MINUTES : Z := 30.
Definition BUFFER_TIME_MINUTES : Z := 20.
Definition CORE_TIME_START_HOUR : Z := 10.
Definition CORE_TIME_END_HOUR : Z := 22.
Definition DEFAULT_PERIOD_DAYS : Z := 7.
Definition MIN_SLOT_DURATION : Z := 30.
Definition MAX_SLOT_DURATION : Z := 120.
End TIME_CONSTANTS.

Module API_CONSTANTS.
Definition MAX_RETRY_ATTEMPTS : nat := 3.
Definition INITIAL_RETRY_DELAY_MS : Z := 1000.
Definition MAX_RETRY_DELAY_MS : Z := 5000.
Definition EXPONENTIAL_BACKOFF_MULTIPLIER : Z := 2.
Definition REQUEST_TIMEOUT_MS : Z := 10000.
Definition RATE_LIMIT_DELAY_MS : Z := 60000.
Definition MAX_CONCURRENT_REQUESTS : nat := 3.
Definition QUOTA_EXCEEDED_DELAY_MS : Z := 300000.
Definition BATCH_SIZE : nat := 5.
End API_CONSTANTS.

Module ERROR_MESSAGES.
Definition AUTH_FAILED : string := "Google認証に失敗しました".
Definition CALENDAR_FETCH_FAILED : string :=
  "カレンダーデータの取得に失敗しました".
Definition NETWORK_ERROR : string := "ネットワークエラーが発生しました".
Definition TIMEOUT_ERROR : string := "リクエストがタイムアウトしました".
Definition RATE_LIMIT_EXCEEDED : string :=
  "API使用制限に達しました。しばらく待ってから再試行してください".
Definition QUOTA_EXCEEDED : string :=
  "API使用量上限に達しました。明日再試行してください".
End ERROR_MESSAGES.

(** ** Data *)

(** A calendar date text ['YYYY-MM-DD'], by the number of its day. *)
Definition Day := Z.

(** An ISO-8601 text ['YYYY-MM-DDThh:mm:ss+hh:mm'], by what the code reads
    from it: the date text before the ['T'] ([split('T')[0]]) and the
    instant that [dayjs] makes of the whole text. *)
Record DateTime := {
  datePart : Day;
  instant : Z
}.

(** [event.start] and [event.end]: [{ date }] for an all-day event,
    [{ dateTime }] for a timed one; a member that is absent is [None]. *)
Record EventTime := {
  date : option Day;
  dateTime : option DateTime
}.

Record CalendarEvent := {
  id : string;
  summary : string;
  start : option EventTime;
  end_ : option EventTime
}.

(** The [error] member of a response body: [{ message }]. *)
Record ErrorObject := { error_message : option string }.

(** A response body, by the members that the code reads: [error] and, for
    a list of events, [items]. *)
Record Json := {
  json_error : option ErrorObject;
  json_items : option (list CalendarEvent)
}.

(** The empty object [{}]. *)
Definition emptyJson : Json := {| json_error := None; json_items := None |}.

(** ** Exceptions *)

(** [class ApiError extends Error]; [status] is [null] ([None]) or a number.
    The [timestamp] field is written and never read. *)
Record ApiError := {
  message : string;
  status : option Z;
  response : option Json;
  isRateLimit : bool
}.

(** A thrown value: an [ApiError], or any other [Error] with its [name] and
    [message] ([TypeError], [AbortError], [SyntaxError], ...). *)
Inductive JsError :=
| ApiErr (e : ApiError)
| OtherErr (name msg : string).

Inductive Result (A : Type) :=
| Ok (a : A)
| Throw (e : JsError).
Arguments Ok {A} a.
Arguments Throw {A} e.

Definition bind {A B} (r : Result A) (k : A -> Result B) : Result B :=
  match r with
  | Ok a => k a
  | Throw e => Throw e
  end.

Notation "x <- r ;; k" := (bind r (fun x => k))
  (at level 61, r at next level, right associativity).

(** [xs.map(f)] where [f] may throw: the first exception leaves the map. *)
Fixpoint mapM {A B} (f : A -> Result B) (xs : list A) : Result (list B) :=
  match xs with
  | [] => Ok []
  | x :: xs' => y <- f x ;; ys <- mapM f xs' ;; Ok (y :: ys)
  end.

(** A value together with the equation that names it, for a loop whose
    termination depends on the test it has just made. *)
Definition inspect {A} (a : A) : {b : A | a = b} := exist _ a eq_refl.

(** ** JavaScript values *)

(** [hay.includes(needle)]. *)
Fixpoint includes (needle hay : string) : bool :=
  String.prefix needle hay ||
  match hay with
  | EmptyString => false
  | String _ hay' => includes needle hay'
  end.

(** A string that may be absent is truthy when it is there and not empty. *)
Definition truthy (s : option string) : bool :=
  match s with
  | Some t => negb (t =? "")%string
  | None => false
  end.

(** A number that may be [NaN]. *)
Inductive JsNumber :=
| NaN
| Num (z : Z).

Definition numAdd (a b : JsNumber) : JsNumber :=
  match a, b with
  | Num x, Num y => Num (x + y)
  | _, _ => NaN
  end.

Definition numMul (a b : JsNumber) : JsNumber :=
  match a, b with
  | Num x, Num y => Num (x * y)
  | _, _ => NaN
  end.

(** [`${n}`] for an integer [n]. *)
Definition decimal (n : Z) : string := NilZero.string_of_int (Z.to_int n).

(** [Math.ceil(n / d)] for integers [n] and [d > 0]. *)
Definition ceilDiv (n d : Z) : Z := - ((- n) / d).

(** [xs.slice(from, to)]. *)
Definition slice {A} (from to : nat) (xs : list A) : list A :=
  firstn (to - from) (skipn from xs).

(** ** services/apiService.js: ApiError *)

Definition isRateLimited (e : ApiError) : bool :=
  isRateLimit e
  || match status e with Some s => s =? 429 | None => false end
  || includes "rate limit" (message e)
  || includes "quota exceeded" (message e).

Definition isAuthError (e : ApiError) : bool :=
  match status e with
  | Some s => (s =? 401) || (s =? 403)
  | None => false
  end.

(** [null >= 500] is false. *)
Definition isTemporary (e : ApiError) : bool :=
  match status e with
  | Some s => (500 <=? s) || (s =? 429) || (s =? 408)
  | None => false
  end.

(** ** services/apiService.js: ApiServiceClass *)

Record Response := {
  resp_status : Z;
  resp_statusText : string;
  header_RateLimit_Remaining : option string;
  header_RateLimit_Reset : option string;
  header_Retry_After : option string;
  (** what [response.json()] settles to: [None] when it rejects (the body
      is not JSON), [Some None] for the JSON value [null], [Some (Some o)]
      for an object [o]; a number, a text or an array has none of the
      members that the code reads and is the object without them *)
  resp_json : option (option Json)
}.

(** [response.ok]. *)
Definition resp_ok (r : Response) : bool :=
  (200 <=? resp_status r) && (resp_status r <=? 299).

(** What [fetch(url, ...)] settles to. *)
Inductive FetchOutcome :=
| Rejected (e : JsError)
| Responded (r : Response).

(** What one attempt reads from outside: the clock at each [Date.now()],
    the outcome of [fetch], and [Math.random()]. *)
Record AttemptEnv := {
  now_check : Z;    (** [Date.now()] in the test of [checkRateLimit] *)
  now_wait : Z;     (** [Date.now()] in [waitTime] *)
  fetched : FetchOutcome;
  now_headers : Z;  (** [Date.now()] in [parseRateLimitHeaders] *)
  now_limited : Z;  (** [Date.now()] in [handleErrorResponse] *)
  random : Q
}.

(** The fields of the service that the request path reads and writes.
    [rateLimitResetTime] is [null] ([None]) or a number.  [requestCounts]
    is a [Map] in insertion order; the timer that empties a counter after
    an hour is left out. *)
Record ServiceState := {
  rateLimitResetTime : option JsNumber;
  requestCounts : list (string * nat)
}.

(** What a call does outside the service. *)
Inductive Effect :=
| HttpCall (url : string)
| Sleep (ms : Q)
| Submit (index : nat) (url : string).

Record Request := {
  url : string;
  options_headers : list (string * string)
}.

(** A slot of the array that [batchRequest] returns: the body, or
    [{ error }]. *)
Inductive BatchResult :=
| Body (data : Json)
| ErrorSlot (error : JsError).

Fixpoint Map_get (m : list (string * nat)) (k : string) : option nat :=
  match m with
  | [] => None
  | (k', v) :: m' => if (k' =? k)%string then Some v else Map_get m' k
  end.

Fixpoint Map_set (m : list (string * nat)) (k : string) (v : nat)
  : list (string * nat) :=
  match m with
  | [] => [(k, v)]
  | (k', v') :: m' =>
      if (k' =? k)%string then (k, v) :: m' else (k', v') :: Map_set m' k v
  end.

Module ApiService.

(** What [errorData.error] raises when [errorData] is [null]. *)
Definition TypeError_error : JsError :=
  OtherErr "TypeError" "Cannot read properties of null (reading 'error')".

Definition mkApiError (msg : string) (st : option Z) (resp : option Json)
    (rl : bool) : ApiError :=
  {| message := msg; status := st; response := resp; isRateLimit := rl |}.

Definition calculateBackoffDelay (attempt : nat) (random : Q) : Q :=
  let baseDelay := inject_Z API_CONSTANTS.INITIAL_RETRY_DELAY_MS in
  let multiplier := API_CONSTANTS.EXPONENTIAL_BACKOFF_MULTIPLIER in
  let maxDelay := inject_Z API_CONSTANTS.MAX_RETRY_DELAY_MS in
  let delay :=
    Qmin (baseDelay * inject_Z (multiplier ^ Z.of_nat attempt)) maxDelay in
  let jitter := (delay * 0.25 * (random - 0.5))%Q in
  Qmax (delay + jitter) 0.

Definition checkRateLimit (env : AttemptEnv) (st : ServiceState)
  : Result unit :=
  match rateLimitResetTime st with
  | Some (Num reset) =>
      if negb (reset =? 0) && (now_check env <? reset) then
        let waitTime := reset - now_wait env in
        Throw (ApiErr (mkApiError
          (ERROR_MESSAGES.RATE_LIMIT_EXCEEDED ++ " ("
             ++ decimal (ceilDiv waitTime 1000)
             ++ "秒後に再試行可能)")%string
          (Some 429) None true))
      else Ok tt
  | _ => Ok tt
  end.

Definition updateRequestCount (url : string) (st : ServiceState)
  : ServiceState :=
  let count :=
    match Map_get (requestCounts st) url with
    | Some c => c
    | None => O
    end in
  {| rateLimitResetTime := rateLimitResetTime st;
     requestCounts := Map_set (requestCounts st) url (count + 1)%nat |}.

Definition shouldRetry (error : JsError) (attempt : nat) : bool :=
  if (API_CONSTANTS.MAX_RETRY_ATTEMPTS - 1 <=? attempt)%nat then false
  else
    match error with
    | ApiErr e =>
        if isRateLimited e then false
        else if isAuthError e then false
        else isTemporary e
    | OtherErr _ _ => true
    end.

Definition normalizeError (error : JsError) : JsError :=
  match error with
  | ApiErr e => ApiErr e
  | OtherErr name msg =>
      if (name =? "AbortError")%string then
        ApiErr (mkApiError ERROR_MESSAGES.TIMEOUT_ERROR (Some 408) None false)
      else if (name =? "TypeError")%string && includes "fetch" msg then
        ApiErr (mkApiError ERROR_MESSAGES.NETWORK_ERROR (Some 0) None false)
      else
        ApiErr (mkApiError
          (if (msg =? "")%string then ERROR_MESSAGES.NETWORK_ERROR else msg)
          None None false)
  end.

Section Requests.

(** [parseInt] of a header text. *)
Variable parseInt : string -> JsNumber.

Definition parseRateLimitHeaders (env : AttemptEnv) (r : Response)
    (st : ServiceState) : ServiceState :=
  let reset := header_RateLimit_Reset r in
  let retryAfter := header_Retry_After r in
  if truthy retryAfter then
    {| rateLimitResetTime :=
         Some (numAdd (Num (now_headers env))
                 (numMul
                    (parseInt
                       (match retryAfter with Some t => t | None => "" end))
                    (Num 1000)));
       requestCounts := requestCounts st |}
  else if truthy reset then
    {| rateLimitResetTime :=
         Some (numMul
                 (parseInt (match reset with Some t => t | None => "" end))
                 (Num 1000));
       requestCounts := requestCounts st |}
  else st.

(** [errorData.error?.message] for an object. *)
Definition errorMessageOf (errorData : Json) : option string :=
  match json_error errorData with
  | Some e => error_message e
  | None => None
  end.

(** Every path of [handleErrorResponse] throws: the state it leaves and
    what is thrown.  [errorData] is the body, [{}] when [response.json()]
    rejects, and [null] ([None]) when the body is the JSON value [null]:
    then [errorData.error] raises a [TypeError], in the test of the quota
    branch for status 403 and in the last [throw] for any other status
    than 429. *)
Definition handleErrorResponse (env : AttemptEnv) (r : Response)
    (st : ServiceState) : ServiceState * JsError :=
  let errorData : option Json :=
    match resp_json r with
    | Some data => data
    | None => Some emptyJson
    end in
  if resp_status r =? 429 then
    let retryAfter :=
      match header_Retry_After r with
      | Some t => if (t =? "")%string then "60" else t
      | None => "60"
      end in
    ({| rateLimitResetTime :=
          Some (numAdd (Num (now_limited env))
                  (numMul (parseInt retryAfter) (Num 1000)));
        requestCounts := requestCounts st |},
     ApiErr (mkApiError ERROR_MESSAGES.RATE_LIMIT_EXCEEDED (Some 429)
               errorData true))
  else
    match errorData with
    | None => (st, TypeError_error)
    | Some data =>
        if (resp_status r =? 403)
           && match errorMessageOf data with
              | Some m => includes "quota" m
              | None => false
              end then
          (st, ApiErr (mkApiError ERROR_MESSAGES.QUOTA_EXCEEDED (Some 403)
                         errorData true))
        else
          (st, ApiErr (mkApiError
                 (if truthy (errorMessageOf data) then
                    match errorMessageOf data with
                    | Some m => m
                    | None => ""
                    end
                  else ("HTTP " ++ decimal (resp_status r) ++ ": "
                          ++ resp_statusText r)%string)
                 (Some (resp_status r)) errorData false))
    end.

(** The [try] block of [fetchWithRetry]: the state it leaves, what it
    did outside, and the body it returns or the exception it hands to
    [catch]. *)
Definition tryRequest (env : AttemptEnv) (url : string)
    (st : ServiceState)
  : ServiceState * list Effect * (option Json + JsError) :=
  match checkRateLimit env st with
  | Throw e => (st, [], inr e)
  | Ok _ =>
      let st1 := updateRequestCount url st in
      match fetched env with
      | Rejected e => (st1, [HttpCall url], inr e)
      | Responded r =>
          let st2 := parseRateLimitHeaders env r st1 in
          if negb (resp_ok r) then
            let '(st3, e) := handleErrorResponse env r st2 in
            (st3, [HttpCall url], inr e)
          else
            match resp_json r with
            | Some data => (st2, [HttpCall url], inl data)
            | None =>
                (st2, [HttpCall url],
                 inr (OtherErr "SyntaxError"
                        "Unexpected end of JSON input"))
            end
      end
  end.

(** What happened before a retry, put in front of what the retry did. *)
Definition afterSleep (trace : list Effect) (delay : Q)
    (retry : ServiceState * list Effect * Result (option Json))
  : ServiceState * list Effect * Result (option Json) :=
  let '(st, trace', r) := retry in
  (st, trace ++ Sleep delay :: trace', r).

(** [fetchWithRetry(url, options, attempt)]; [env k] is what attempt
    [k] reads from outside.  The body returned is [null] ([None]) or an
    object. *)
Equations? fetchWithRetry (env : nat -> AttemptEnv) (url : string)
    (st : ServiceState) (attempt : nat)
  : ServiceState * list Effect * Result (option Json)
  by wf (API_CONSTANTS.MAX_RETRY_ATTEMPTS - attempt)%nat lt :=
fetchWithRetry env url st attempt
  with tryRequest (env attempt) url st := {
  | (st', trace, inl data) => (st', trace, Ok data)
  | (st', trace, inr error) with inspect (shouldRetry error attempt) := {
    | exist _ true _ =>
        let delay := calculateBackoffDelay attempt (random (env attempt)) in
        afterSleep trace delay (fetchWithRetry env url st' (S attempt))
    | exist _ false _ => (st', trace, Throw (normalizeError error)) } }.
Proof.
  unfold shouldRetry, API_CONSTANTS.MAX_RETRY_ATTEMPTS in *.
  destruct attempt as [| [| n]]; simpl in *; [lia | lia | discriminate].
Qed.

End Requests.

(** The first [for] loop of [batchRequest], from index [i] on. *)
Equations? batchRequest_split (requests : list Request) (i : nat)
    (batches : list (list Request)) : list (list Request)
    by wf (List.length requests - i)%nat lt :=
batchRequest_split requests i batches
  with inspect (i <? List.length requests)%nat := {
  | exist _ true _ =>
      batchRequest_split requests (i + API_CONSTANTS.BATCH_SIZE)%nat
        (batches ++ [slice i (i + API_CONSTANTS.BATCH_SIZE) requests])
  | exist _ false _ => batches }.
Proof.
  apply Nat.ltb_lt in e. unfold API_CONSTANTS.BATCH_SIZE. lia.
Qed.

Section Batch.

(** [executeRequest n req] is what the [n]-th request submitted to
    [executeRequest] settles to, whatever the order in which the
    requests of a batch run. *)
Variable executeRequest : nat -> Request -> Result Json.

(** [executeRequest(...).catch(error => ({ error }))]. *)
Definition settle (n : nat) (req : Request) : BatchResult :=
  match executeRequest n req with
  | Ok data => Body data
  | Throw error => ErrorSlot error
  end.

(** [batch.map(...)] and [Promise.all]: the results of one batch in
    the order of its requests; [n] requests were submitted before. *)
Fixpoint runBatch (n : nat) (batch : list Request)
  : list BatchResult * list Effect :=
  match batch with
  | [] => ([], [])
  | req :: batch' =>
      let '(results, trace) := runBatch (S n) batch' in
      (settle n req :: results, Submit n (url req) :: trace)
  end.

(** The second [for] loop: [index] is [batches.indexOf(batch)] (each
    batch is an array of its own), [total] is [batches.length]. *)
Fixpoint batchRequest_run (total index : nat)
    (batches : list (list Request)) (results : list BatchResult)
    (trace : list Effect) : list BatchResult * list Effect :=
  match batches with
  | [] => (results, trace)
  | batch :: rest =>
      let '(batchResults, batchTrace) :=
        runBatch (List.length results) batch in
      let results' := results ++ batchResults in
      let trace' := trace ++ batchTrace in
      if (index <? total - 1)%nat then
        batchRequest_run total (S index) rest results'
          (trace' ++ [Sleep 1000])
      else batchRequest_run total (S index) rest results' trace'
  end.

Definition batchRequest (requests : list Request)
  : list BatchResult * list Effect :=
  let batches := batchRequest_split requests 0 [] in
  batchRequest_run (List.length batches) 0 batches [] [].

End Batch.

End ApiService.

(** ** dayjs *)

Module Dayjs.

Definition msPerSecond : Z := 1000.
Definition msPerMinute : Z := 60000.
Definition msPerHour : Z := 3600000.
Definition msPerDay : Z := 86400000.

(** [d.format('YYYY-MM-DD')]. *)
Definition formatDay (d : Z) : Day := d / msPerDay.

(** [dayjs(dateStr)] for a date text: local midnight of that day. *)
Definition ofDay (day : Day) : Z := day * msPerDay.

Definition startOfDay (d : Z) : Z := formatDay d * msPerDay.
Definition endOfDay (d : Z) : Z := formatDay d * msPerDay + (msPerDay - 1).

Definition add (d n unit : Z) : Z := d + n * unit.
Definition subtract (d n unit : Z) : Z := d - n * unit.

(** [d.hour(h).minute(0).second(0)]: the milliseconds of [d] are kept. *)
Definition atHour (d h : Z) : Z :=
  startOfDay d + h * msPerHour + d mod msPerSecond.

(** [a.isSame(b, 'day')]. *)
Definition isSameDay (a b : Z) : bool := formatDay a =? formatDay b.

(** Comparisons of objects that may be [Invalid Date]. *)
Definition isBefore (a b : option Z) : bool :=
  match a, b with
  | Some x, Some y => x <? y
  | _, _ => false
  end.

Definition isAfter (a b : option Z) : bool :=
  match a, b with
  | Some x, Some y => y <? x
  | _, _ => false
  end.

Definition isSameOrAfter (a b : option Z) : bool :=
  match a, b with
  | Some x, Some y => y <=? x
  | _, _ => false
  end.

(** [a.diff(b, 'minute')]: whole minutes, truncated towards zero; [None]
    is [NaN]. *)
Definition diffMinute (a b : option Z) : option Z :=
  match a, b with
  | Some x, Some y => Some (Z.quot (x - y) msPerMinute)
  | _, _ => None
  end.

(** [n >= k] for a number [n] that may be [NaN]. *)
Definition geNum (n : option Z) (k : Z) : bool :=
  match n with
  | Some v => k <=? v
  | None => false
  end.

Definition hourOf (d : Z) : Z := (d mod msPerDay) / msPerHour.
Definition minuteOf (d : Z) : Z := (d mod msPerHour) / msPerMinute.
Definition minuteOfDay (d : Z) : Z := (d mod msPerDay) / msPerMinute.

Definition digitChar (n : Z) : ascii := ascii_of_nat (48 + Z.to_nat n).

Definition pad2 (n : Z) : string :=
  String (digitChar (n / 10)) (String (digitChar (n mod 10)) EmptyString).

(** [d.format('HH:mm')]. *)
Definition formatHHmm (d : option Z) : string :=
  match d with
  | Some t => (pad2 (hourOf t) ++ ":" ++ pad2 (minuteOf t))%string
  | None => "Invalid Date"
  end.

Definition digitVal (c : ascii) : option Z :=
  let n := Z.of_nat (nat_of_ascii c) in
  if (48 <=? n) && (n <=? 57) then Some (n - 48) else None.

(** The minute of the day that a clock text ['HH:mm'] names, for a text
    as the time pickers and [format('HH:mm')] write it: two digits, a
    colon, two digits, hour below 24 and minute below 60; [None] for any
    other text.  ([dayjs] reads more texts than these, see [clockMillis];
    this reading serves to state properties of slots.) *)
Definition clockMinutes (s : string) : option Z :=
  match s with
  | String h1 (String h2 (String sep (String m1 (String m2 EmptyString)))) =>
      match digitVal h1, digitVal h2, digitVal m1, digitVal m2 with
      | Some a, Some b, Some c, Some d =>
          let h := 10 * a + b in
          let m := 10 * c + d in
          if Ascii.eqb sep ":" && (h <? 24) && (m <? 60)
          then Some (60 * h + m) else None
      | _, _, _, _ => None
      end
  | _ => None
  end.

(** Day number of 2000-01-01. *)
Definition day2000 : Day := 10957.

Definition code (c : ascii) : Z := Z.of_nat (nat_of_ascii c).

(** [T], [t] or a white space of one byte. *)
Definition isTs (c : ascii) : bool :=
  let n := code c in
  (n =? 84) || (n =? 116) || ((9 <=? n) && (n <=? 13)) || (n =? 32).

(** The white space of [\s] that takes two or three bytes of a text:
    U+00A0; U+1680, U+2000 to U+200A, U+2028, U+2029, U+202F, U+205F,
    U+3000 and U+FEFF. *)
Definition isSpace2 (c1 c2 : ascii) : bool :=
  (code c1 =? 194) && (code c2 =? 160).

Definition isSpace3 (c1 c2 c3 : ascii) : bool :=
  let n1 := code c1 in
  let n2 := code c2 in
  let n3 := code c3 in
  ((n1 =? 225) && (n2 =? 154) && (n3 =? 128))
  || ((n1 =? 226) && (n2 =? 128)
      && (((128 <=? n3) && (n3 <=? 138)) || (n3 =? 168) || (n3 =? 169)
          || (n3 =? 175)))
  || ((n1 =? 226) && (n2 =? 129) && (n3 =? 159))
  || ((n1 =? 227) && (n2 =? 128) && (n3 =? 128))
  || ((n1 =? 239) && (n2 =? 187) && (n3 =? 191)).

(** [[Tt\s]*]: what is left of a text after its leading [T], [t] and
    white space. *)
Fixpoint skipTs (s : string) : string :=
  match s with
  | EmptyString => s
  | String c1 s1 =>
      if isTs c1 then skipTs s1
      else
        match s1 with
        | EmptyString => s
        | String c2 s2 =>
            if isSpace2 c1 c2 then skipTs s2
            else
              match s2 with
              | EmptyString => s
              | String c3 s3 => if isSpace3 c1 c2 c3 then skipTs s3 else s
              end
        end
  end.

(** [(\d{1,2})?] and [|| 0]: the number that one or two leading digits
    write, 0 when there is none, and what is left of the text. *)
Definition digits2 (s : string) : Z * string :=
  match s with
  | EmptyString => (0, s)
  | String c1 s1 =>
      match digitVal c1 with
      | None => (0, s)
      | Some a =>
          match s1 with
          | EmptyString => (a, s1)
          | String c2 s2 =>
              match digitVal c2 with
              | None => (a, s1)
              | Some b => (10 * a + b, s2)
              end
          end
      end
  end.

(** [:?]. *)
Definition skipColon (s : string) : string :=
  match s with
  | String c s1 => if code c =? 58 then s1 else s
  | EmptyString => s
  end.

(** [[.:]?]. *)
Definition skipSeparator (s : string) : string :=
  match s with
  | String c s1 => if (code c =? 46) || (code c =? 58) then s1 else s
  | EmptyString => s
  end.

(** [(\d+)?$] and [(d[7] || '0').substring(0, 3)]: the text that is left
    has digits only, and its first [n] digits (three at most are read) write
    the milliseconds; [None] when another sign is left. *)
Fixpoint millis (n : nat) (acc : Z) (s : string) : option Z :=
  match s with
  | EmptyString => Some acc
  | String c s1 =>
      match digitVal c with
      | None => None
      | Some d =>
          match n with
          | O => millis O acc s1
          | S n' => millis n' (10 * acc + d) s1
          end
      end
  end.

(** The clock of a text [`${date}T${clock}`] or [`${date} ${clock}`] whose
    date is written ['YYYY-MM-DD'], as [dayjs] reads it with
    [[Tt\s]*(\d{1,2})?:?(\d{1,2})?:?(\d{1,2})?[.:]?(\d+)?$], the end of
    its [REGEX_PARSE]: hour, minute, second and milliseconds, each 0 when
    it is absent, in milliseconds from midnight.  The numbers are handed to
    [new Date(y, m, d, h, min, s, ms)] as they are, so an hour of 24 or
    more or a minute of 60 or more runs into the next day.  Each group of
    the expression is greedy and takes what it can, which decides the
    match.  A text that the expression does not match goes to the [Date]
    parser of the engine, which answers [Invalid Date] unless the text is
    one that it reads by rules of its own (a zone at the end, as in
    ['09:00Z'] or ['09:00+09:00']); such a text is [Invalid Date]
    ([None]) here. *)
Definition clockMillis (clock : string) : option Z :=
  let '(h, s1) := digits2 (skipTs clock) in
  let '(m, s2) := digits2 (skipColon s1) in
  let '(sec, s3) := digits2 (skipColon s2) in
  match millis 3 0 (skipSeparator s3) with
  | Some ms => Some (h * msPerHour + m * msPerMinute + sec * msPerSecond + ms)
  | None => None
  end.

(** [dayjs(`${day}T${clock}`)] and [dayjs(`${day} ${clock}`)]. *)
Definition ofDayClock (day : Day) (clock : string) : option Z :=
  match clockMillis clock with
  | Some ms => Some (ofDay day + ms)
  | None => None
  end.

End Dayjs.

(** ** App.js: DateTimeUtils *)

(** [arr.sort(cmp)] on a copy: a stable sort; [le a b] is [cmp(a, b) <= 0]. *)
Fixpoint insertBy {A} (le : A -> A -> bool) (x : A) (l : list A) : list A :=
  match l with
  | [] => [x]
  | y :: l' => if le x y then x :: y :: l' else y :: insertBy le x l'
  end.

Fixpoint sortBy {A} (le : A -> A -> bool) (l : list A) : list A :=
  match l with
  | [] => []
  | x :: l' => insertBy le x (sortBy le l')
  end.

(** A free slot [{ startTime, endTime, isContinuous }]; [isContinuous] is
    absent ([false]) until a merge sets it. *)
Record Slot := {
  startTime : string;
  endTime : string;
  isContinuous : bool
}.

Module DateTimeUtils.

(** The [while] loop of [generateDateRange]. *)
Equations? generateDateRange_loop (endDate currentDate : Z) (dates : list Z)
  : list Z
  by wf (Z.to_nat (Dayjs.formatDay endDate + 1 - Dayjs.formatDay currentDate)) lt :=
generateDateRange_loop endDate currentDate dates
  with inspect ((currentDate <? endDate) || Dayjs.isSameDay currentDate endDate) := {
  | exist _ true _ =>
      generateDateRange_loop endDate (Dayjs.add currentDate 1 Dayjs.msPerDay)
        (dates ++ [currentDate])
  | exist _ false _ => dates }.
Proof.
  unfold Dayjs.add, Dayjs.isSameDay, Dayjs.formatDay, Dayjs.msPerDay in *.
  assert (Hd : (currentDate + 1 * 86400000) / 86400000
               = currentDate / 86400000 + 1)
    by (rewrite Z.div_add by lia; reflexivity).
  rewrite Hd.
  assert (Hle : currentDate / 86400000 <= endDate / 86400000).
  { apply orb_true_iff in e. destruct e as [e | e].
    - apply Z.ltb_lt in e. apply Z.div_le_mono; lia.
    - apply Z.eqb_eq in e. lia. }
  lia.
Qed.

Definition generateDateRange (startDate endDate : Z) : list Z :=
  generateDateRange_loop endDate startDate [].

(** [a.startTime.localeCompare(b.startTime) <= 0], as the order of the
    bytes of the two texts: on the texts that [format('HH:mm')] writes
    (digits and a colon in the same place, or ['Invalid Date'])
    [localeCompare] orders as the bytes do. *)
Definition startTime_le (a b : Slot) : bool :=
  String.leb (startTime a) (startTime b).

(** [dayjs(`2000-01-01 ${clock}`)]. *)
Definition dayjs2000 (clock : string) : option Z :=
  Dayjs.ofDayClock Dayjs.day2000 clock.

(** The [for] loop of [mergeContinuousSlots] over the sorted slots that
    remain. *)
Fixpoint mergeContinuousSlots_loop (sortedSlots : list Slot)
    (currentSlot : Slot) (mergedSlots : list Slot) : list Slot :=
  match sortedSlots with
  | [] => mergedSlots ++ [currentSlot]
  | next :: rest =>
      let prevEndTime := dayjs2000 (endTime currentSlot) in
      let currentStartTime := dayjs2000 (startTime next) in
      if Dayjs.isSameOrAfter prevEndTime currentStartTime then
        let currentEndTime := dayjs2000 (endTime currentSlot) in
        let nextEndTime := dayjs2000 (endTime next) in
        mergeContinuousSlots_loop rest
          {| startTime := startTime currentSlot;
             endTime := if Dayjs.isAfter currentEndTime nextEndTime
                        then endTime currentSlot else endTime next;
             isContinuous := true |}
          mergedSlots
      else
        mergeContinuousSlots_loop rest next (mergedSlots ++ [currentSlot])
  end.

Definition mergeContinuousSlots (slots : list Slot) : list Slot :=
  match sortBy startTime_le slots with
  | [] => []
  | first :: rest => mergeContinuousSlots_loop rest first []
  end.

Definition formatDate (date : Z) : Day := Dayjs.formatDay date.

End DateTimeUtils.

(** ** App.js: CalendarService *)

(** An entry of the list of calendars. *)
Record Calendar := {
  calendar_id : string;
  calendar_summary : string
}.

(** A preferred window [{ date, start, end }]. *)
Record TimeSlot := {
  ts_date : Day;
  ts_start : string;
  ts_end : string
}.

(** A busy interval [{ start, end }] of two valid dayjs objects. *)
Record BusyInterval := {
  busy_start : Z;
  busy_end : Z
}.

(** One row of the result.  [dateFormatted], a display text of [date], is
    left out.  [totalMinutes] is a number that may be [NaN] ([None]). *)
Record DayResult := {
  day_date : Day;
  slots : list Slot;
  totalSlots : nat;
  totalMinutes : option Z
}.

(** [new Set(xs)] keeps its members in the order of first insertion. *)
Definition Set_add (s : list Z) (x : Z) : list Z :=
  if existsb (Z.eqb x) s then s else s ++ [x].

Definition Set_of (xs : list Z) : list Z := fold_left Set_add xs [].

Definition TypeError_dateTime : JsError :=
  OtherErr "TypeError"
    "Cannot read properties of undefined (reading 'dateTime')".

Module CalendarService.
Section CalendarService.

(** The instant of the call: [dayjs(undefined)] is the current time. *)
Variable now : Z.

(** [event.start?.date] and [event.end?.date]. *)
Definition optDate (t : option EventTime) : option Day :=
  match t with
  | Some et => date et
  | None => None
  end.

(** [event.start?.dateTime]. *)
Definition optDateTime (t : option EventTime) : option DateTime :=
  match t with
  | Some et => dateTime et
  | None => None
  end.

(** [dayjs(x.dateTime)] for an object [x] that is there. *)
Definition dayjsOfDateTime (dt : option DateTime) : Z :=
  match dt with
  | Some d => instant d
  | None => now
  end.

(** The predicate given to [events.filter] in
    [calculateDayAvailableSlots]. *)
Definition onTargetDate (targetDate : Day) (event : CalendarEvent)
  : bool :=
  match optDate (start event) with
  | Some d => d =? targetDate
  | None =>
      match optDateTime (start event) with
      | Some dt => datePart dt =? targetDate
      | None => false
      end
  end.

(** The function given to [.map]: the busy interval of one event.
    [event.start.dateTime] and [event.end.dateTime] are read without
    [?.], so an absent [start] or [end] raises a [TypeError]. *)
Definition toBusyInterval (event : CalendarEvent) : Result BusyInterval :=
  match optDate (start event), optDate (end_ event) with
  | Some sd, Some ed =>
      Ok {| busy_start := Dayjs.startOfDay (Dayjs.ofDay sd);
            busy_end :=
              Dayjs.endOfDay
                (Dayjs.subtract (Dayjs.ofDay ed) 1 Dayjs.msPerDay) |}
  | _, _ =>
      match start event with
      | None => Throw TypeError_dateTime
      | Some st =>
          let s :=
            Dayjs.subtract (dayjsOfDateTime (dateTime st))
              TIME_CONSTANTS.BUFFER_TIME_MINUTES Dayjs.msPerMinute in
          match end_ event with
          | None => Throw TypeError_dateTime
          | Some en =>
              Ok {| busy_start := s;
                    busy_end :=
                      Dayjs.add (dayjsOfDateTime (dateTime en))
                        TIME_CONSTANTS.BUFFER_TIME_MINUTES
                        Dayjs.msPerMinute |}
          end
      end
  end.

(** [a.start.diff(b.start) <= 0]. *)
Definition busy_start_le (a b : BusyInterval) : bool :=
  busy_start a <=? busy_start b.

(** [dayEvents]: the events of the date as sorted busy intervals. *)
Definition dayEvents (events : list CalendarEvent) (date : Z)
  : Result (list BusyInterval) :=
  let targetDate := Dayjs.formatDay date in
  busy <- mapM toBusyInterval (filter (onTargetDate targetDate) events) ;;
  Ok (sortBy busy_start_le busy).

(** [slotRanges]: the windows to scan, as pairs [(start, end)]. *)
Definition slotRanges (date : Z) (slotsForDate : list TimeSlot)
  : list (option Z * option Z) :=
  if (0 <? List.length slotsForDate)%nat then
    map (fun slot =>
           (Dayjs.ofDayClock (Dayjs.formatDay date) (ts_start slot),
            Dayjs.ofDayClock (Dayjs.formatDay date) (ts_end slot)))
        slotsForDate
  else
    [(Some (Dayjs.atHour date TIME_CONSTANTS.CORE_TIME_START_HOUR),
      Some (Dayjs.atHour date TIME_CONSTANTS.CORE_TIME_END_HOUR))].

Definition mkSlot (from to : option Z) : Slot :=
  {| startTime := Dayjs.formatHHmm from;
     endTime := Dayjs.formatHHmm to;
     isContinuous := false |}.

(** The inner [for (const event of dayEvents)] loop for one window: the
    cursor [currentTime] and the slots pushed so far. *)
Fixpoint sweepEvents (rangeEnd : option Z) (events : list BusyInterval)
    (currentTime : option Z) (slots : list Slot)
  : option Z * list Slot :=
  match events with
  | [] => (currentTime, slots)
  | event :: rest =>
      let eventStart := Some (busy_start event) in
      let eventEnd := Some (busy_end event) in
      if Dayjs.isBefore eventEnd currentTime then
        sweepEvents rangeEnd rest currentTime slots
      else if Dayjs.isAfter eventStart rangeEnd then
        (currentTime, slots)
      else
        let slots' :=
          if Dayjs.isBefore currentTime eventStart then
            let slotEnd :=
              if Dayjs.isBefore eventStart rangeEnd
              then eventStart else rangeEnd in
            if Dayjs.geNum (Dayjs.diffMinute slotEnd currentTime)
                 TIME_CONSTANTS.MIN_SLOT_DURATION
            then slots ++ [mkSlot currentTime slotEnd]
            else slots
          else slots in
        let currentTime' :=
          if Dayjs.isAfter eventEnd currentTime
          then eventEnd else currentTime in
        if Dayjs.isAfter currentTime' rangeEnd then (currentTime', slots')
        else sweepEvents rangeEnd rest currentTime' slots'
  end.

(** The body of [for (const range of slotRanges)]. *)
Definition scanRange (events : list BusyInterval) (slots : list Slot)
    (range : option Z * option Z) : list Slot :=
  let '(rangeStart, rangeEnd) := range in
  let '(currentTime, slots') :=
    sweepEvents rangeEnd events rangeStart slots in
  if Dayjs.isBefore currentTime rangeEnd then
    if Dayjs.geNum (Dayjs.diffMinute rangeEnd currentTime)
         TIME_CONSTANTS.MIN_SLOT_DURATION
    then slots' ++ [mkSlot currentTime rangeEnd]
    else slots'
  else slots'.

Definition calculateDayAvailableSlots (events : list CalendarEvent)
    (date : Z) (slotsForDate : list TimeSlot) : Result (list Slot) :=
  busy <- dayEvents events date ;;
  Ok (fold_left (scanRange busy) (slotRanges date slotsForDate) []).

(** [sum + n] for numbers that may be [NaN]. *)
Definition numPlus (a b : option Z) : option Z :=
  match a, b with
  | Some x, Some y => Some (x + y)
  | _, _ => None
  end.

(** The [reduce] that gives [totalMinutes]. *)
Definition sumMinutes (mergedSlots : list Slot) : option Z :=
  fold_left
    (fun sum slot =>
       let s := DateTimeUtils.dayjs2000 (startTime slot) in
       let e := DateTimeUtils.dayjs2000 (endTime slot) in
       numPlus sum (Dayjs.diffMinute e s))
    mergedSlots (Some 0).

(** [dates]: the dates that [calculateAvailableSlots] walks. *)
Definition targetDates (startDate endDate : Z) (timeSlots : list TimeSlot)
  : list Z :=
  if (0 <? List.length timeSlots)%nat then
    let uniqueDates := Set_of (map ts_date timeSlots) in
    map Dayjs.ofDay uniqueDates
  else
    DateTimeUtils.generateDateRange startDate endDate.

(** [dates.forEach(date => ...)]; an exception of one date leaves the
    whole call (the [catch] logs and throws it again). *)
Fixpoint forEachDate (events : list CalendarEvent)
    (timeSlots : list TimeSlot) (dates : list Z)
    (availableSlots : list DayResult) : Result (list DayResult) :=
  match dates with
  | [] => Ok availableSlots
  | date :: rest =>
      let dateStr := Dayjs.formatDay date in
      let slotsForDate :=
        filter (fun slot => ts_date slot =? dateStr) timeSlots in
      daySlots <- calculateDayAvailableSlots events date slotsForDate ;;
      if (0 <? List.length daySlots)%nat then
        let mergedSlots := DateTimeUtils.mergeContinuousSlots daySlots in
        forEachDate events timeSlots rest
          (availableSlots ++
             [{| day_date := DateTimeUtils.formatDate date;
                 slots := mergedSlots;
                 totalSlots := List.length mergedSlots;
                 totalMinutes := sumMinutes mergedSlots |}])
      else forEachDate events timeSlots rest availableSlots
  end.

Definition calculateAvailableSlots (events : list CalendarEvent)
    (startDate endDate : Z) (timeSlots : list TimeSlot)
  : Result (list DayResult) :=
  forEachDate events timeSlots
    (targetDates startDate endDate timeSlots) [].

(** [dates.forEach(date => ...)] once more, now with the dates for which
    it calls [calculateDayAvailableSlots], in the order of the calls (the
    first statement of that function writes its date to the console).
    The call for a date is made before anything else is done with the
    date, and an exception of one call ends the walk. *)
Fixpoint forEachDate_logged (events : list CalendarEvent)
    (timeSlots : list TimeSlot) (dates : list Z)
    (availableSlots : list DayResult)
  : Result (list DayResult) * list Day :=
  match dates with
  | [] => (Ok availableSlots, [])
  | date :: rest =>
      let dateStr := Dayjs.formatDay date in
      let slotsForDate :=
        filter (fun slot => ts_date slot =? dateStr) timeSlots in
      match calculateDayAvailableSlots events date slotsForDate with
      | Throw error => (Throw error, [Dayjs.formatDay date])
      | Ok daySlots =>
          let '(result, examined) :=
            if (0 <? List.length daySlots)%nat then
              let mergedSlots := DateTimeUtils.mergeContinuousSlots daySlots in
              forEachDate_logged events timeSlots rest
                (availableSlots ++
                   [{| day_date := DateTimeUtils.formatDate date;
                       slots := mergedSlots;
                       totalSlots := List.length mergedSlots;
                       totalMinutes := sumMinutes mergedSlots |}])
            else forEachDate_logged events timeSlots rest availableSlots in
          (result, Dayjs.formatDay date :: examined)
      end
  end.

(** [calculateAvailableSlots] with the dates that it examines. *)
Definition calculateAvailableSlots_logged (events : list CalendarEvent)
    (startDate endDate : Z) (timeSlots : list TimeSlot)
  : Result (list DayResult) * list Day :=
  forEachDate_logged events timeSlots
    (targetDates startDate endDate timeSlots) [].

End CalendarService.

(** [result.error], as a condition. *)
Definition result_error (result : BatchResult) : bool :=
  match result with
  | ErrorSlot _ => true
  | Body data =>
      match json_error data with
      | Some _ => true
      | None => false
      end
  end.

(** [result.items || []]. *)
Definition result_items (result : BatchResult) : list CalendarEvent :=
  match result with
  | ErrorSlot _ => []
  | Body data =>
      match json_items data with
      | Some items => items
      | None => []
      end
  end.

(** [event.start && event.start.dateTime], as a condition. *)
Definition hasStartDateTime (event : CalendarEvent) : bool :=
  match start event with
  | Some st =>
      match dateTime st with
      | Some _ => true
      | None => false
      end
  | None => false
  end.

(** [allEvents]: the events taken from the results of the batch. *)
Definition allEvents (results : list BatchResult) : list CalendarEvent :=
  filter hasStartDateTime
    (flat_map result_items
       (filter (fun result => negb (result_error result)) results)).

Definition newline : string := String (ascii_of_nat 10) EmptyString.

(** The [catch] of [fetchAllCalendarEvents]. *)
Definition fetchFailed (error : JsError) : JsError :=
  match error with
  | ApiErr e =>
      if isRateLimited e then
        OtherErr "Error"
          (ERROR_MESSAGES.RATE_LIMIT_EXCEEDED ++ newline ++ newline
             ++ "⏱️ Google Calendar APIの使用制限に達しました。"
             ++ newline
             ++ "📅 しばらく時間をおいてから再試行してください。")%string
      else
        OtherErr "Error"
          (ERROR_MESSAGES.CALENDAR_FETCH_FAILED ++ ": " ++ message e)%string
  | OtherErr _ msg =>
      OtherErr "Error"
        (ERROR_MESSAGES.CALENDAR_FETCH_FAILED ++ ": " ++ msg)%string
  end.

(** [fetchAllCalendarEvents]: [calendarsData] is what the request for
    the list of calendars settles to (its [items], when it is a body);
    [results] is what [ApiService.batchRequest] returns for the requests
    of those calendars. *)
Definition fetchAllCalendarEvents
    (calendarsData : Result (option (list Calendar)))
    (results : list BatchResult) : Result (list CalendarEvent) :=
  match calendarsData with
  | Throw error => Throw (fetchFailed error)
  | Ok None => Ok []
  | Ok (Some []) => Ok []
  | Ok (Some (_ :: _)) => Ok (allEvents results)
  end.

End CalendarService.

(** ** services/apiService.js: ResponseCache *)

(** A [Map] with text keys, in insertion order: [get], [set] (a key that
    is there keeps its place), [delete], and the first key of
    [keys().next().value]. *)
Fixpoint JsMap_get {V} (m : list (string * V)) (k : string) : option V :=
  match m with
  | [] => None
  | (k', v) :: m' => if (k' =? k)%string then Some v else JsMap_get m' k
  end.

Fixpoint JsMap_set {V} (m : list (string * V)) (k : string) (v : V)
  : list (string * V) :=
  match m with
  | [] => [(k, v)]
  | (k', v') :: m' =>
      if (k' =? k)%string then (k, v) :: m' else (k', v') :: JsMap_set m' k v
  end.

Definition JsMap_delete {V} (m : list (string * V)) (k : string)
  : list (string * V) :=
  filter (fun kv => negb (fst kv =? k)%string) m.

Definition JsMap_firstKey {V} (m : list (string * V)) : option string :=
  match m with
  | [] => None
  | (k, _) :: _ => Some k
  end.

(** The [options] of a request, by the members that the code reads. *)
Record RequestOptions := {
  method : option string;
  body : option string;
  headers : list (string * string)
}.

(** An entry of the cache: [{ data, timestamp }]. *)
Record CacheEntry := {
  entry_data : Json;
  entry_timestamp : Z
}.

(** [class ResponseCache]: the [Map], [maxSize], and [ttl] in
    milliseconds. *)
Record ResponseCache := {
  cache : list (string * CacheEntry);
  maxSize : Z;
  ttl : Z
}.

Module Cache.

(** [new ResponseCache(maxSize, ttlMinutes)]. *)
Definition create (maxSize ttlMinutes : Z) : ResponseCache :=
  {| cache := []; maxSize := maxSize; ttl := ttlMinutes * 60 * 1000 |}.

(** [x || fallback] for a text that may be absent. *)
Definition orElse (x : option string) (fallback : string) : string :=
  match x with
  | Some t => if (t =? "")%string then fallback else t
  | None => fallback
  end.

Definition generateKey (url : string) (options : RequestOptions) : string :=
  let method := orElse (method options) "GET" in
  let body := orElse (body options) "" in
  (method ++ ":" ++ url ++ ":" ++ body)%string.

Definition withCache (c : ResponseCache) (m : list (string * CacheEntry))
  : ResponseCache :=
  {| cache := m; maxSize := maxSize c; ttl := ttl c |}.

(** [get(url, options)] at the instant [now]: the cache it leaves and
    the data, [None] for [null]. *)
Definition get (c : ResponseCache) (now : Z) (url : string)
    (options : RequestOptions) : ResponseCache * option Json :=
  let key := generateKey url options in
  match JsMap_get (cache c) key with
  | None => (c, None)
  | Some cached =>
      if ttl c <? now - entry_timestamp cached then
        (withCache c (JsMap_delete (cache c) key), None)
      else (c, Some (entry_data cached))
  end.

(** [set(url, options, data)] at the instant [now]. *)
Definition set (c : ResponseCache) (now : Z) (url : string)
    (options : RequestOptions) (data : Json) : ResponseCache :=
  let key := generateKey url options in
  let evicted :=
    if maxSize c <=? Z.of_nat (List.length (cache c)) then
      match JsMap_firstKey (cache c) with
      | Some oldestKey => JsMap_delete (cache c) oldestKey
      | None => cache c
      end
    else cache c in
  withCache c
    (JsMap_set evicted key {| entry_data := data; entry_timestamp := now |}).

Definition clear (c : ResponseCache) : ResponseCache := withCache c [].

Definition delete (c : ResponseCache) (url : string)
    (options : RequestOptions) : ResponseCache :=
  withCache c (JsMap_delete (cache c) (generateKey url options)).


End Cache.

(** ** services/apiService.js: ConcurrencyManager *)

(** The manager between two turns of the event loop: the counter, the
    queue of the tasks that wait (a task is named by a number), and, beside
    the fields of the class, the tasks whose [requestFn] is pending
    ([pending]) and the order in which tasks were started ([started]). *)
Record ConcurrencyManager := {
  maxConcurrent : Z;
  activeRequests : Z;
  queue : list nat;
  pending : list nat;
  started : list nat
}.

(** What happens to the manager: [execute(requestFn)] is called for a
    task, or the [requestFn] of a task settles (resolves or rejects). *)
Inductive ManagerEvent :=
| Execute (task : nat)
| Settle (task : nat).

(** The pending tasks without one that has settled. *)
Fixpoint removeOne (task : nat) (tasks : list nat) : list nat :=
  match tasks with
  | [] => []
  | t :: rest => if (t =? task)%nat then rest else t :: removeOne task rest
  end.

Module Manager.

(** [new ConcurrencyManager(maxConcurrent)]. *)
Definition create (maxConcurrent : Z) : ConcurrencyManager :=
  {| maxConcurrent := maxConcurrent; activeRequests := 0;
     queue := []; pending := []; started := [] |}.

(** [processQueue()] up to its [await]: at most one task is started. *)
Definition processQueue (m : ConcurrencyManager) : ConcurrencyManager :=
  if maxConcurrent m <=? activeRequests m then m
  else
    match queue m with
    | [] => m
    | task :: rest =>
        {| maxConcurrent := maxConcurrent m;
           activeRequests := activeRequests m + 1;
           queue := rest;
           pending := pending m ++ [task];
           started := started m ++ [task] |}
    end.

(** [execute(requestFn)]: the task is pushed, then [processQueue()]. *)
Definition execute (m : ConcurrencyManager) (task : nat)
  : ConcurrencyManager :=
  processQueue
    {| maxConcurrent := maxConcurrent m;
       activeRequests := activeRequests m;
       queue := queue m ++ [task];
       pending := pending m;
       started := started m |}.

(** The [finally] of [processQueue] when the [requestFn] of [task] has
    settled: the counter goes down, then [processQueue()]. *)
Definition settled (m : ConcurrencyManager) (task : nat)
  : ConcurrencyManager :=
  processQueue
    {| maxConcurrent := maxConcurrent m;
       activeRequests := activeRequests m - 1;
       queue := queue m;
       pending := removeOne task (pending m);
       started := started m |}.

(** One event; a task can settle only while it is pending. *)
Definition step (m : ConcurrencyManager) (event : ManagerEvent)
  : option ConcurrencyManager :=
  match event with
  | Execute task => Some (execute m task)
  | Settle task =>
      if existsb (Nat.eqb task) (pending m) then Some (settled m task)
      else None
  end.

Fixpoint run (m : ConcurrencyManager) (events : list ManagerEvent)
  : option ConcurrencyManager :=
  match events with
  | [] => Some m
  | event :: rest =>
      match step m event with
      | Some m' => run m' rest
      | None => None
      end
  end.

End Manager.

(** ** services/apiService.js: createHeaders, authenticatedRequest *)

(** [{ ...target, ...source }]: the members of [source] are set on
    [target] one after the other. *)
Definition spread {V} (target source : list (string * V))
  : list (string * V) :=
  fold_left (fun acc kv => JsMap_set acc (fst kv) (snd kv)) source target.

Module Headers.

Definition defaults : list (string * string) :=
  [("Content-Type", "application/json");
   ("User-Agent", "CalendarGapTimeApp/1.0");
   ("Accept", "application/json")].

(** [createHeaders(accessToken, additionalHeaders)]. *)
Definition createHeaders (accessToken : option string)
    (additionalHeaders : list (string * string)) : list (string * string) :=
  let headers := spread defaults additionalHeaders in
  if truthy accessToken then
    JsMap_set headers "Authorization"
      ("Bearer " ++ match accessToken with Some t => t | None => "" end)%string
  else headers.

(** [authenticatedRequest(url, accessToken, options)];
    [executeRequest] is what the request settles to.  The result comes
    with the requests made, each with the headers that [fetchWithRetry]
    puts on it ([createHeaders(null, options.headers)]). *)
Definition authenticatedRequest
    (executeRequest : string -> RequestOptions -> Result Json)
    (url : string) (accessToken : option string) (options : RequestOptions)
  : Result Json * list (string * list (string * string)) :=
  if negb (truthy accessToken) then
    (Throw (ApiErr (ApiService.mkApiError ERROR_MESSAGES.AUTH_FAILED
                      (Some 401) None false)), [])
  else
    let requestOptions :=
      {| method := method options;
         body := body options;
         headers :=
           spread (headers options)
             [("Authorization",
               ("Bearer " ++ match accessToken with
                             | Some t => t
                             | None => ""
                             end)%string)] |} in
    (executeRequest url requestOptions,
     [(url, createHeaders None (headers requestOptions))]).

End Headers.

(** ** App.js: groupedTimeSlots *)

(** A JavaScript object whose keys are date texts, with its members in
    the order in which they were first set. *)
Fixpoint Object_get {V} (obj : list (Day * V)) (key : Day) : option V :=
  match obj with
  | [] => None
  | (k, v) :: obj' => if k =? key then Some v else Object_get obj' key
  end.

Fixpoint Object_set {V} (obj : list (Day * V)) (key : Day) (v : V)
  : list (Day * V) :=
  match obj with
  | [] => [(key, v)]
  | (k, v') :: obj' =>
      if k =? key then (key, v) :: obj' else (k, v') :: Object_set obj' key v
  end.

(** [`${slot.start}〜${slot.end}`]. *)
Definition slotLabel (slot : TimeSlot) : string :=
  (ts_start slot ++ "〜" ++ ts_end slot)%string.

(** The body of the [forEach] of [groupedTimeSlots]: it gives the date an
    empty array when it has none (an array is truthy, so this happens
    once) and pushes the label on the array of the date. *)
Definition groupedTimeSlots_body (map : list (Day * list string))
    (slot : TimeSlot) : list (Day * list string) :=
  let map' :=
    match Object_get map (ts_date slot) with
    | Some _ => map
    | None => Object_set map (ts_date slot) []
    end in
  match Object_get map' (ts_date slot) with
  | Some times => Object_set map' (ts_date slot) (times ++ [slotLabel slot])
  | None => map'
  end.

Definition groupedTimeSlots (timeSlots : list TimeSlot)
  : list (Day * list string) :=
  fold_left groupedTimeSlots_body timeSlots [].

(** ** utils/logger.js: PerformanceTracker *)

(** An entry [{ value, timestamp }] of a metric. *)
Record MetricEntry := {
  metric_value : Q;
  metric_timestamp : Z
}.

(** [timers] and [metrics], two Maps. *)
Record PerformanceTracker := {
  timers : list (string * Q);
  metrics : list (string * list MetricEntry)
}.

(** What [getMetricStats] returns. *)
Record MetricStats := {
  stats_count : nat;
  stats_sum : Q;
  stats_average : Q;
  stats_min : Q;
  stats_max : Q;
  stats_latest : option Q
}.

Module Tracker.

Definition create : PerformanceTracker := {| timers := []; metrics := [] |}.

(** [recordMetric(name, value)]; [dateNow] is [Date.now()].  The array of
    the name is made when it is missing, the entry is pushed, and
    [splice(0, length - 100)] drops the oldest entries beyond 100. *)
Definition recordMetric (t : PerformanceTracker) (dateNow : Z)
    (name : string) (value : Q) : PerformanceTracker :=
  let metrics1 :=
    match JsMap_get (metrics t) name with
    | Some _ => metrics t
    | None => JsMap_set (metrics t) name []
    end in
  match JsMap_get metrics1 name with
  | Some values =>
      let values1 :=
        values ++ [{| metric_value := value; metric_timestamp := dateNow |}] in
      let values2 :=
        if (100 <? List.length values1)%nat
        then skipn (List.length values1 - 100) values1
        else values1 in
      {| timers := timers t; metrics := JsMap_set metrics1 name values2 |}
  | None => {| timers := timers t; metrics := metrics1 |}
  end.

(** [getMetricStats(name)]; [None] is [null]. *)
Definition getMetricStats (t : PerformanceTracker) (name : string)
  : option MetricStats :=
  match JsMap_get (metrics t) name with
  | None => None
  | Some [] => None
  | Some (first :: rest) =>
      let nums := map metric_value (first :: rest) in
      let sum := fold_left Qplus nums 0%Q in
      Some {| stats_count := List.length nums;
              stats_sum := sum;
              stats_average := (sum / inject_Z (Z.of_nat (List.length nums)))%Q;
              stats_min := fold_left Qmin (map metric_value rest)
                             (metric_value first);
              stats_max := fold_left Qmax (map metric_value rest)
                             (metric_value first);
              stats_latest := nth_error nums (List.length nums - 1) |}
  end.

End Tracker.

(** * Predicates of the properties *)

(** [le] as a relation. *)
Definition leR {A} (le : A -> A -> bool) (a b : A) : Prop := le a b = true.

(** The test that makes the loop of [mergeContinuousSlots] merge [next]
    into [current]. *)
Definition touches (current next : Slot) : bool :=
  Dayjs.isSameOrAfter (DateTimeUtils.dayjs2000 (endTime current))
    (DateTimeUtils.dayjs2000 (startTime next)).

(** Two neighbours of a merged array: in order, and apart. *)
Definition apart (a b : Slot) : Prop :=
  DateTimeUtils.startTime_le a b = true /\ touches a b = false.

(** [endTime - startTime] of a slot in minutes, measured as
    [calculateAvailableSlots] measures it for [totalMinutes]:
    [end.diff(start, 'minute')] on 2000-01-01. *)
Definition slotMinutes (slot : Slot) : option Z :=
  Dayjs.diffMinute (DateTimeUtils.dayjs2000 (endTime slot))
    (DateTimeUtils.dayjs2000 (startTime slot)).

(** A slot that lasts at least [MIN_SLOT_DURATION] minutes. *)
Definition longEnough (slot : Slot) : Prop :=
  exists m, slotMinutes slot = Some m /\ TIME_CONSTANTS.MIN_SLOT_DURATION <= m.

(** The cursor of a sweep never lies before the start of its window. *)
Definition cursorFrom (rangeStart currentTime : option Z) : Prop :=
  match rangeStart, currentTime with
  | Some s, Some c => s <= c
  | None, None => True
  | _, _ => False
  end.

(** A window whose two ends, when both are valid, lie on one day. *)
Definition withinOneDay (range : option Z * option Z) : Prop :=
  forall s e, fst range = Some s -> snd range = Some e ->
    Dayjs.formatDay s = Dayjs.formatDay e.

(** A clock text ['HH:mm'] of the day, as the time pickers write it. *)
Definition isClock (s : string) : bool :=
  match Dayjs.clockMinutes s with
  | Some _ => true
  | None => false
  end.

(** A preferred window whose two ends are clock texts of the day. *)
Definition pickedWindow (w : TimeSlot) : bool :=
  isClock (ts_start w) && isClock (ts_end w).

(** A date that a search is to examine: with preferred windows, a date
    that one of them names; without, a day from the day of [startDate] to
    the day of [endDate], both included. *)
Definition namedDate (startDate endDate : Z) (timeSlots : list TimeSlot)
    (day : Day) : Prop :=
  match timeSlots with
  | [] => Dayjs.formatDay startDate <= day <= Dayjs.formatDay endDate
  | _ :: _ => In day (map ts_date timeSlots)
  end.

(** The HTTP calls of a trace. *)
Definition httpCalls (trace : list Effect) : list string :=
  flat_map (fun effect =>
              match effect with
              | HttpCall u => [u]
              | _ => []
              end) trace.

(** The pauses of a trace. *)
Definition sleeps (trace : list Effect) : list Q :=
  flat_map (fun effect =>
              match effect with
              | Sleep ms => [ms]
              | _ => []
              end) trace.

(** The delay of an attempt before the jitter:
    [min(initialDelay * multiplier ^ attempt, maxDelay)]. *)
Definition backoffBase (attempt : nat) : Q :=
  Qmin
    (inject_Z API_CONSTANTS.INITIAL_RETRY_DELAY_MS
     * inject_Z (API_CONSTANTS.EXPONENTIAL_BACKOFF_MULTIPLIER ^ Z.of_nat attempt))
    (inject_Z API_CONSTANTS.MAX_RETRY_DELAY_MS).

(** The slots that the requests [requests] fill when [n] requests were
    submitted before them: request by request, in their order. *)
Fixpoint settleAll (executeRequest : nat -> Request -> Result Json) (n : nat)
    (requests : list Request) : list BatchResult :=
  match requests with
  | [] => []
  | req :: requests' =>
      ApiService.settle executeRequest n req
        :: settleAll executeRequest (S n) requests'
  end.

(** The submissions of [requests] to [executeRequest], in their order,
    ranked from [n] on. *)
Fixpoint submissions (n : nat) (requests : list Request) : list Effect :=
  match requests with
  | [] => []
  | req :: requests' => Submit n (url req) :: submissions (S n) requests'
  end.

(** What running the batches one after the other does outside: the
    submissions of each batch, ranked from [n] on, and a pause of one
    second after every batch but the last. *)
Fixpoint batchesTrace (n : nat) (batches : list (list Request))
  : list Effect :=
  match batches with
  | [] => []
  | batch :: rest =>
      submissions n batch
      ++ match rest with
         | [] => []
         | _ :: _ => Sleep 1000 :: batchesTrace (n + List.length batch) rest
         end
  end.

(** [ceil(m / k)] for natural numbers. *)
Definition ceilDivNat (m k : nat) : nat := ((m + k - 1) / k)%nat.

(** The message of the error that [checkRateLimit] throws when [seconds]
    remain. *)
Definition rateLimitMessage (seconds : Z) : string :=
  (ERROR_MESSAGES.RATE_LIMIT_EXCEEDED ++ " (" ++ decimal seconds
     ++ "秒後に再試行可能)")%string.

(** An error that the retry policy takes for temporary: an [ApiError] of
    status 500 or more, or of status 408. *)
Definition temporaryStatus (e : ApiError) : Prop :=
  exists s, status e = Some s /\ (500 <= s \/ s = 408).

(** An operation on the cache, with the clock where it is read. *)
Inductive CacheOp :=
| OpGet (now : Z) (url : string) (options : RequestOptions)
| OpSet (now : Z) (url : string) (options : RequestOptions) (data : Json)
| OpDelete (url : string) (options : RequestOptions)
| OpClear.

Definition applyCacheOp (c : ResponseCache) (op : CacheOp) : ResponseCache :=
  match op with
  | OpGet now url options => fst (Cache.get c now url options)
  | OpSet now url options data => Cache.set c now url options data
  | OpDelete url options => Cache.delete c url options
  | OpClear => Cache.clear c
  end.

(** [cache.size]. *)
Definition cacheSize (c : ResponseCache) : Z :=
  Z.of_nat (List.length (cache c)).


(** The tasks for which [execute] was called, in the order of the calls. *)
Definition executed (events : list ManagerEvent) : list nat :=
  flat_map (fun event =>
              match event with
              | Execute task => [task]
              | Settle _ => []
              end) events.

(** What every state of the manager satisfies: the counter counts the
    pending tasks and stays within the bound; the tasks started and the
    tasks that wait are, in this order, the tasks executed; and a task
    waits only while the bound is reached. *)
Definition managerInvariant (submitted0 : list nat) (m : ConcurrencyManager)
  : Prop :=
  activeRequests m = Z.of_nat (List.length (pending m))
  /\ (0 <= maxConcurrent m -> activeRequests m <= maxConcurrent m)
  /\ started m ++ queue m = submitted0
  /\ (queue m <> [] -> maxConcurrent m <= activeRequests m).

(** [response.headers.get('Retry-After') || '60']. *)
Definition retryAfterOr60 (r : Response) : string :=
  match header_Retry_After r with
  | Some t => if (t =? "")%string then "60" else t
  | None => "60"
  end.

(** The body that [handleErrorResponse] reads: [{}] when
    [response.json()] rejects, [null] ([None]) when the body is [null]. *)
Definition errorDataOf (r : Response) : option Json :=
  match resp_json r with
  | Some data => data
  | None => Some emptyJson
  end.

(** [`HTTP ${status}: ${statusText}`]. *)
Definition httpStatusLine (r : Response) : string :=
  ("HTTP " ++ decimal (resp_status r) ++ ": " ++ resp_statusText r)%string.

(** The message of the error of a response that is neither a 429 nor a
    quota 403: [errorData.error?.message || `HTTP ${status}: ${statusText}`]
    (for the body [null], which has no message, the status line). *)
Definition httpErrorMessage (r : Response) : string :=
  match errorDataOf r with
  | Some {| json_error := Some {| error_message := Some m |} |} =>
      if (m =? "")%string then httpStatusLine r else m
  | _ => httpStatusLine r
  end.

(** A gap of a window among the busy intervals of a day: a slot written
    from a cursor [c] to an end [e'] inside the window, at least
    [MIN_SLOT_DURATION] minutes long, that every busy interval precedes or
    follows. *)
Definition gapOf (busy : list BusyInterval) (range : option Z * option Z)
    (slot : Slot) : Prop :=
  exists s e c e',
    fst range = Some s /\ snd range = Some e
    /\ slot = CalendarService.mkSlot (Some c) (Some e')
    /\ s <= c /\ e' <= e
    /\ TIME_CONSTANTS.MIN_SLOT_DURATION * Dayjs.msPerMinute <= e' - c
    /\ Forall (fun b => e' <= busy_start b \/ busy_end b <= c) busy.

(** An instant on a whole minute, or the last millisecond of a day. *)
Definition wholeMinuteOrDayEnd (t : Z) : Prop :=
  t mod Dayjs.msPerMinute = 0 \/ (t + 1) mod Dayjs.msPerDay = 0.

(** The instant that a clock text names on a day, in milliseconds. *)
Definition clockOn (day : Day) (minutes : Z) : Z :=
  Dayjs.ofDay day + minutes * Dayjs.msPerMinute.

(** The two clock texts of a slot, read as minutes of the day; [None]
    when one of them is not a clock text. *)
Definition slotSpan (slot : Slot) : option (Z * Z) :=
  match Dayjs.clockMinutes (startTime slot),
        Dayjs.clockMinutes (endTime slot) with
  | Some sm, Some em => Some (sm, em)
  | _, _ => None
  end.

(** A slot of a day, read as the two clock texts it shows, lies before the
    start or after the end of a busy interval. *)
Definition slotAvoids (day : Day) (b : BusyInterval) (slot : Slot) : Prop :=
  exists sm em,
    slotSpan slot = Some (sm, em)
    /\ (clockOn day em <= busy_start b \/ busy_end b <= clockOn day sm).

(** The slot that [mergeContinuousSlots] makes of [currentSlot] and the
    next slot when they touch. *)
Definition mergedSlot (currentSlot next : Slot) : Slot :=
  {| startTime := startTime currentSlot;
     endTime :=
       if Dayjs.isAfter (DateTimeUtils.dayjs2000 (endTime currentSlot))
            (DateTimeUtils.dayjs2000 (endTime next))
       then endTime currentSlot else endTime next;
     isContinuous := true |}.

(** The preferred windows of a date, as the [filter] of
    [calculateAvailableSlots] selects them. *)
Definition windowsOf (timeSlots : list TimeSlot) (date : Z) : list TimeSlot :=
  filter (fun slot => ts_date slot =? Dayjs.formatDay date) timeSlots.

(** The row that [calculateAvailableSlots] pushes for a date whose slots,
    before the merge, are [daySlots]. *)
Definition rowOf (date : Z) (daySlots : list Slot) : DayResult :=
  {| day_date := DateTimeUtils.formatDate date;
     slots := DateTimeUtils.mergeContinuousSlots daySlots;
     totalSlots := List.length (DateTimeUtils.mergeContinuousSlots daySlots);
     totalMinutes :=
       CalendarService.sumMinutes
         (DateTimeUtils.mergeContinuousSlots daySlots) |}.

(** The length of a slot in minutes, from its two clock texts. *)
Definition spanMinutes (slot : Slot) : Z :=
  match slotSpan slot with
  | Some (sm, em) => em - sm
  | None => 0
  end.

(** The bounds of a slot lie inside windows: its start is not before the
    start of one of them, its end not after the end of one of them, as
    minutes of the day. *)
Definition insideRanges (ranges : list (option Z * option Z)) (slot : Slot)
  : Prop :=
  exists sm em,
    slotSpan slot = Some (sm, em)
    /\ (exists range s,
          In range ranges /\ fst range = Some s /\ Dayjs.minuteOfDay s <= sm)
    /\ (exists range e,
          In range ranges /\ snd range = Some e /\ em <= Dayjs.minuteOfDay e).

(** Slot [a] ends before slot [b] starts. *)
Definition before (a b : Slot) : Prop :=
  exists sa ea sb eb,
    slotSpan a = Some (sa, ea) /\ slotSpan b = Some (sb, eb) /\ ea < sb.

(** Slot [a] starts no later than slot [b]. *)
Definition startsFirst (a b : Slot) : Prop :=
  exists sa ea sb eb,
    slotSpan a = Some (sa, ea) /\ slotSpan b = Some (sb, eb) /\ sa <= sb.

(** The minute [t] of the day lies in a slot. *)
Definition inSlot (t : Z) (slot : Slot) : Prop :=
  exists sm em, slotSpan slot = Some (sm, em) /\ sm <= t <= em.

(** The minute [t] of the day lies in one of the slots. *)
Definition covered (l : list Slot) (t : Z) : Prop :=
  exists slot, In slot l /\ inSlot t slot.

(** A slot whose two times are clock texts. *)
Definition clockSlot (slot : Slot) : Prop :=
  exists sm em, slotSpan slot = Some (sm, em).

(** The minutes from [a] to [b] of the day lie in one slot of the array. *)
Definition within (l : list Slot) (a b : Z) : Prop :=
  exists slot sm em,
    In slot l /\ slotSpan slot = Some (sm, em) /\ sm <= a /\ b <= em.

(** The last [n] members of an array. *)
Definition lastn {A} (n : nat) (l : list A) : list A :=
  skipn (List.length l - n) l.

(** The entries kept for a name. *)
Definition metricOf (t : PerformanceTracker) (name : string)
  : list MetricEntry :=
  match JsMap_get (metrics t) name with
  | Some values => values
  | None => []
  end.

(** A call [recordMetric(name, value)] at the instant [record_at]. *)
Record MetricCall := {
  record_at : Z;
  record_name : string;
  record_value : Q
}.

Definition recordAll (calls : list MetricCall) (t : PerformanceTracker)
  : PerformanceTracker :=
  fold_left
    (fun t call =>
       Tracker.recordMetric t (record_at call) (record_name call)
         (record_value call))
    calls t.

(** The entries that the calls for a name push, in their order. *)
Definition entriesOf (name : string) (calls : list MetricCall)
  : list MetricEntry :=
  map (fun call => {| metric_value := record_value call;
                      metric_timestamp := record_at call |})
    (filter (fun call => (record_name call =? name)%string) calls).

(** The values kept for a name after the calls [calls] on a new tracker. *)
Definition keptValues (name : string) (calls : list MetricCall) : list Q :=
  map metric_value (lastn 100 (entriesOf name calls)).

(** ** Inputs of the scenarios *)

(** The instant [hh:mm] of a day, as the ISO-8601 text of that local time. *)
Definition atClock (day : Day) (hh mm : Z) : DateTime :=
  {| datePart := day;
     instant := Dayjs.ofDay day + hh * Dayjs.msPerHour + mm * Dayjs.msPerMinute |}.

(** A timed event from [h1:m1] to [h2:m2] of a day. *)
Definition timedEvent (day : Day) (h1 m1 h2 m2 : Z) : CalendarEvent :=
  {| id := "event"; summary := "busy";
     start := Some {| date := None; dateTime := Some (atClock day h1 m1) |};
     end_ := Some {| date := None; dateTime := Some (atClock day h2 m2) |} |}.

(** A timed event that starts at [h1:m1] of a day and has no [end]. *)
Definition eventWithoutEnd (day : Day) (h1 m1 : Z) : CalendarEvent :=
  {| id := "event"; summary := "no end";
     start := Some {| date := None; dateTime := Some (atClock day h1 m1) |};
     end_ := None |}.

(** An all-day event of a day, which ends on the next day. *)
Definition allDayEvent (day : Day) : CalendarEvent :=
  {| id := "event"; summary := "all day";
     start := Some {| date := Some day; dateTime := None |};
     end_ := Some {| date := Some (day + 1); dateTime := None |} |}.

(** A response of status 401 with the body [body] and no rate-limit
    headers. *)
Definition unauthorized (body : option (option Json)) : Response :=
  {| resp_status := 401; resp_statusText := "Unauthorized";
     header_RateLimit_Remaining := None;
     header_RateLimit_Reset := None;
     header_Retry_After := None;
     resp_json := body |}.

(** Every attempt receives the response [r]; [Math.random()] draws 0.5. *)
Definition respondsAlways (r : Response) : nat -> AttemptEnv :=
  fun _ => {| now_check := 0; now_wait := 0; fetched := Responded r;
              now_headers := 0; now_limited := 0; random := 0.5 |}.

(** 2024-06-10. *)
Definition scenarioDay : Day := 19884.

(** Two timed events of a day, 09:00-10:00 and 14:00-15:00. *)
Definition scenarioEvents (day : Day) : list CalendarEvent :=
  [timedEvent day 9 0 10 0; timedEvent day 14 0 15 0].

Definition busyBetween (day : Day) (h1 m1 h2 m2 : Z) : BusyInterval :=
  {| busy_start := instant (atClock day h1 m1);
     busy_end := instant (atClock day h2 m2) |}.

Definition freeSlot (from to : string) : Slot :=
  {| startTime := from; endTime := to; isContinuous := false |}.

(** The row of a date that is free from 10:00 to 22:00. *)
Definition coreTimeRow (day : Day) : DayResult :=
  {| day_date := day;
     slots := [freeSlot "10:00" "22:00"];
     totalSlots := 1;
     totalMinutes := Some 720 |}.

(** * Properties *)

(** ** Sorting *)

Lemma string_leb_trans (a b c : string) :
  String.leb a b = true -> String.leb b c = true -> String.leb a c = true.
Proof.
  unfold String.leb. revert b c.
  induction a as [| x a IH]; intros [| y b] [| z c]; simpl;
    try congruence.
  unfold Ascii.compare.
  destruct (N.compare_spec (N_of_ascii x) (N_of_ascii y)) as [Hxy | Hxy | Hxy];
    destruct (N.compare_spec (N_of_ascii y) (N_of_ascii z)) as [Hyz | Hyz | Hyz];
    destruct (N.compare_spec (N_of_ascii x) (N_of_ascii z)) as [Hxz | Hxz | Hxz];
    try congruence; try (exfalso; lia); try apply IH.
Qed.

Section StableSort.

Context {A : Type}.
Variable le : A -> A -> bool.

Hypothesis le_total : forall a b, le a b = true \/ le b a = true.
Hypothesis le_trans :
  forall a b c, le a b = true -> le b c = true -> le a c = true.

Lemma insertBy_Forall (P : A -> Prop) x l :
  P x -> Forall P l -> Forall P (insertBy le x l).
Proof.
  intros Hx Hl. induction Hl as [| y l Hy Hl IH]; simpl.
  - constructor; [exact Hx | constructor].
  - destruct (le x y); repeat (constructor; auto).
Qed.

Lemma sortBy_Forall (P : A -> Prop) l :
  Forall P l -> Forall P (sortBy le l).
Proof.
  induction 1 as [| x l Hx Hl IH]; simpl.
  - constructor.
  - apply insertBy_Forall; assumption.
Qed.

Lemma insertBy_StronglySorted x l :
  StronglySorted (leR le) l -> StronglySorted (leR le) (insertBy le x l).
Proof.
  induction 1 as [| y l Hl IH Hy]; simpl.
  - repeat constructor.
  - destruct (le x y) eqn:Hxy.
    + constructor; [constructor; assumption |].
      constructor; [exact Hxy |].
      eapply Forall_impl; [| exact Hy].
      intros z Hz. eapply le_trans; eassumption.
    + constructor; [exact IH |].
      apply insertBy_Forall; [| exact Hy].
      destruct (le_total x y) as [H | H]; [congruence | exact H].
Qed.

Lemma sortBy_StronglySorted l : StronglySorted (leR le) (sortBy le l).
Proof.
  induction l as [| x l IH]; simpl.
  - constructor.
  - apply insertBy_StronglySorted. exact IH.
Qed.

(** Sorting a sorted array leaves it as it is. *)
Lemma sortBy_sorted l : Sorted (leR le) l -> sortBy le l = l.
Proof.
  induction 1 as [| x l Hl IH Hx]; simpl.
  - reflexivity.
  - rewrite IH. destruct Hx as [| y l' Hxy]; simpl.
    + reflexivity.
    + unfold leR in Hxy. rewrite Hxy. reflexivity.
Qed.

End StableSort.

Lemma startTime_le_total a b :
  DateTimeUtils.startTime_le a b = true \/ DateTimeUtils.startTime_le b a = true.
Proof. apply String.leb_total. Qed.

Lemma startTime_le_trans a b c :
  DateTimeUtils.startTime_le a b = true ->
  DateTimeUtils.startTime_le b c = true ->
  DateTimeUtils.startTime_le a c = true.
Proof. apply string_leb_trans. Qed.

(** ** mergeContinuousSlots *)

Section Merge.

Import DateTimeUtils.

Lemma merge_loop_acc rest : forall current merged,
  mergeContinuousSlots_loop rest current merged
  = merged ++ mergeContinuousSlots_loop rest current [].
Proof.
  induction rest as [| next rest IH]; intros current merged; simpl.
  - reflexivity.
  - destruct (Dayjs.isSameOrAfter _ _).
    + apply IH.
    + rewrite IH. rewrite (IH next [current]).
      rewrite app_assoc. reflexivity.
Qed.

Lemma merge_loop_apart rest : forall current,
  StronglySorted (leR startTime_le) (current :: rest) ->
  exists hd tl,
    mergeContinuousSlots_loop rest current [] = hd :: tl
    /\ startTime hd = startTime current
    /\ Sorted apart (hd :: tl).
Proof.
  induction rest as [| next rest IH]; intros current Hs; simpl.
  - exists current, []. repeat split. repeat constructor.
  - inversion Hs as [| ? ? Hrest Hall]; subst.
    inversion Hrest as [| ? ? Hrest' Hall']; subst.
    inversion Hall as [| ? ? Hnext Hall'']; subst.
    destruct (Dayjs.isSameOrAfter _ _) eqn:Ht.
    + match goal with
      | |- context [mergeContinuousSlots_loop rest ?c []] =>
          destruct (IH c) as (hd & tl & Heq & Hst & Hap)
      end.
      { constructor; [exact Hrest' |].
        eapply Forall_impl; [| exact Hall''].
        intros z Hz. exact Hz. }
      exists hd, tl. repeat split; assumption.
    + destruct (IH next Hrest) as (hd & tl & Heq & Hst & Hap).
      rewrite merge_loop_acc, Heq. simpl.
      exists current, (hd :: tl). repeat split.
      constructor; [exact Hap |].
      constructor. split.
      * unfold startTime_le in *. rewrite Hst. exact Hnext.
      * unfold touches. rewrite Hst. exact Ht.
Qed.

Lemma merge_loop_fixed rest : forall current,
  Sorted apart (current :: rest) ->
  mergeContinuousSlots_loop rest current [] = current :: rest.
Proof.
  induction rest as [| next rest IH]; intros current Hs; simpl.
  - reflexivity.
  - inversion Hs as [| ? ? Hrest Hhd]; subst.
    inversion Hhd as [| ? ? [Hle Ht]]; subst.
    unfold touches in Ht. rewrite Ht.
    rewrite merge_loop_acc, (IH next Hrest). reflexivity.
Qed.

Lemma merge_fixed l : Sorted apart l -> mergeContinuousSlots l = l.
Proof.
  intros Hs. unfold mergeContinuousSlots.
  rewrite sortBy_sorted.
  - destruct l as [| first rest]; [reflexivity |].
    apply merge_loop_fixed. exact Hs.
  - clear -Hs. induction Hs as [| x l Hl IH Hx]; constructor; auto.
    destruct Hx as [| y l' [Hle _]]; constructor. exact Hle.
Qed.

Lemma merge_apart l : Sorted apart (mergeContinuousSlots l).
Proof.
  unfold mergeContinuousSlots.
  pose proof (sortBy_StronglySorted startTime_le startTime_le_total
                startTime_le_trans l) as Hs.
  destruct (sortBy startTime_le l) as [| first rest]; [constructor |].
  destruct (merge_loop_apart rest first Hs) as (hd & tl & Heq & _ & Hap).
  rewrite Heq. exact Hap.
Qed.

End Merge.

(** C8.  [mergeContinuousSlots] is idempotent: merging the array that a
    merge returned gives that array again, slot for slot and in the same
    order, for every array of slots (whatever the texts of their times). *)
Theorem mergeContinuousSlots_idempotent (slots : list Slot) :
  DateTimeUtils.mergeContinuousSlots (DateTimeUtils.mergeContinuousSlots slots)
  = DateTimeUtils.mergeContinuousSlots slots.
Proof.
  apply merge_fixed. apply merge_apart.
Qed.

(** ** Clock texts *)

Lemma minuteOfDay_split t :
  60 * Dayjs.hourOf t + Dayjs.minuteOf t = Dayjs.minuteOfDay t
  /\ 0 <= Dayjs.hourOf t < 24 /\ 0 <= Dayjs.minuteOf t < 60.
Proof.
  unfold Dayjs.hourOf, Dayjs.minuteOf, Dayjs.minuteOfDay, Dayjs.msPerDay,
    Dayjs.msPerHour, Dayjs.msPerMinute.
  Z.div_mod_to_equations. lia.
Qed.

Lemma clockMinutes_pad2 h m :
  0 <= h < 24 -> 0 <= m < 60 ->
  Dayjs.clockMinutes (Dayjs.pad2 h ++ ":" ++ Dayjs.pad2 m)%string
  = Some (60 * h + m).
Proof.
  intros Hh Hm.
  assert (Hall :
    forallb (fun h' =>
      forallb (fun m' =>
        match Dayjs.clockMinutes
                (Dayjs.pad2 (Z.of_nat h') ++ ":" ++ Dayjs.pad2 (Z.of_nat m'))%string
        with
        | Some v => v =? 60 * Z.of_nat h' + Z.of_nat m'
        | None => false
        end) (seq 0 60)) (seq 0 24) = true) by (vm_compute; reflexivity).
  assert (Hinh : In (Z.to_nat h) (seq 0 24)) by (apply in_seq; lia).
  assert (Hinm : In (Z.to_nat m) (seq 0 60)) by (apply in_seq; lia).
  pose proof (proj1 (forallb_forall _ _) Hall _ Hinh) as Hrow.
  pose proof (proj1 (forallb_forall _ _) Hrow _ Hinm) as Hcell.
  cbv beta in Hcell. rewrite !Z2Nat.id in Hcell by lia.
  destruct (Dayjs.clockMinutes _) as [v |].
  - f_equal. apply Z.eqb_eq. exact Hcell.
  - discriminate Hcell.
Qed.

(** [format('HH:mm')] writes the minute of the day, and it is read back. *)
Lemma clockMinutes_formatHHmm t :
  Dayjs.clockMinutes (Dayjs.formatHHmm (Some t)) = Some (Dayjs.minuteOfDay t).
Proof.
  destruct (minuteOfDay_split t) as (Heq & Hh & Hm).
  unfold Dayjs.formatHHmm.
  rewrite clockMinutes_pad2 by assumption. rewrite Heq. reflexivity.
Qed.

Lemma digitVal_range c v : Dayjs.digitVal c = Some v -> 0 <= v <= 9.
Proof.
  unfold Dayjs.digitVal.
  destruct (_ && _) eqn:Hc; [| discriminate].
  apply andb_true_iff in Hc. destruct Hc as [Hlo Hhi].
  apply Z.leb_le in Hlo. apply Z.leb_le in Hhi.
  intros H. assert (Hv : Z.of_nat (nat_of_ascii c) - 48 = v) by congruence.
  lia.
Qed.

Lemma clockMinutes_range s m :
  Dayjs.clockMinutes s = Some m -> 0 <= m < 1440.
Proof.
  unfold Dayjs.clockMinutes.
  destruct s as [| h1 [| h2 [| sep [| m1 [| m2 [| ? ?]]]]]]; try discriminate.
  destruct (Dayjs.digitVal h1) as [a |] eqn:Ha; [| discriminate].
  destruct (Dayjs.digitVal h2) as [b |] eqn:Hb; [| discriminate].
  destruct (Dayjs.digitVal m1) as [c |] eqn:Hc; [| discriminate].
  destruct (Dayjs.digitVal m2) as [d |] eqn:Hd; [| discriminate].
  apply digitVal_range in Ha, Hb, Hc, Hd.
  cbv zeta. destruct (_ && _) eqn:Hok; [| discriminate].
  apply andb_true_iff in Hok. destruct Hok as [Hok Hmin].
  apply andb_true_iff in Hok. destruct Hok as [_ Hhour].
  apply Z.ltb_lt in Hmin. apply Z.ltb_lt in Hhour.
  intros H.
  assert (Hm : 60 * (10 * a + b) + (10 * c + d) = m) by congruence.
  lia.
Qed.

Lemma digit_code c a : Dayjs.digitVal c = Some a -> 48 <= Dayjs.code c <= 57.
Proof.
  unfold Dayjs.digitVal, Dayjs.code.
  destruct (_ && _) eqn:Hc; [| discriminate].
  apply andb_true_iff in Hc. destruct Hc as [Hlo Hhi].
  apply Z.leb_le in Hlo. apply Z.leb_le in Hhi. intros _. lia.
Qed.

(** A text that starts with a digit has no leading white space. *)
Lemma skipTs_digit c a s :
  Dayjs.digitVal c = Some a -> Dayjs.skipTs (String c s) = String c s.
Proof.
  intros Hc. apply digit_code in Hc.
  assert (Hts : Dayjs.isTs c = false).
  { unfold Dayjs.isTs. cbv zeta.
    repeat match goal with
           | |- context [Z.eqb ?x ?y] => destruct (Z.eqb_spec x y); [lia |]
           | |- context [Z.leb ?x ?y] => destruct (Z.leb_spec x y)
           end; try reflexivity; lia. }
  assert (Hs2 : forall c2, Dayjs.isSpace2 c c2 = false).
  { intros c2. unfold Dayjs.isSpace2.
    destruct (Z.eqb_spec (Dayjs.code c) 194); [lia | reflexivity]. }
  assert (Hs3 : forall c2 c3, Dayjs.isSpace3 c c2 c3 = false).
  { intros c2 c3. unfold Dayjs.isSpace3. cbv zeta.
    destruct (Z.eqb_spec (Dayjs.code c) 225); [lia |].
    destruct (Z.eqb_spec (Dayjs.code c) 226); [lia |].
    destruct (Z.eqb_spec (Dayjs.code c) 227); [lia |].
    destruct (Z.eqb_spec (Dayjs.code c) 239); [lia |].
    reflexivity. }
  cbn [Dayjs.skipTs]. rewrite Hts.
  destruct s as [| c2 [| c3 s]]; [reflexivity | |].
  - rewrite Hs2. reflexivity.
  - rewrite Hs2, Hs3. reflexivity.
Qed.

(** [dayjs] reads a clock text ['HH:mm'] as the minute that it names. *)
Lemma clockMillis_clockMinutes s m :
  Dayjs.clockMinutes s = Some m ->
  Dayjs.clockMillis s = Some (m * Dayjs.msPerMinute).
Proof.
  unfold Dayjs.clockMinutes.
  destruct s as [| h1 [| h2 [| sep [| m1 [| m2 [| ? ?]]]]]]; try discriminate.
  destruct (Dayjs.digitVal h1) as [a |] eqn:Ha; [| discriminate].
  destruct (Dayjs.digitVal h2) as [b |] eqn:Hb; [| discriminate].
  destruct (Dayjs.digitVal m1) as [c |] eqn:Hc; [| discriminate].
  destruct (Dayjs.digitVal m2) as [d |] eqn:Hd; [| discriminate].
  cbv zeta. destruct (_ && _) eqn:Hok; [| discriminate].
  apply andb_true_iff in Hok. destruct Hok as [Hok _].
  apply andb_true_iff in Hok. destruct Hok as [Hsep _].
  apply Ascii.eqb_eq in Hsep. subst sep.
  intros Hm. assert (Hm' : 60 * (10 * a + b) + (10 * c + d) = m) by congruence.
  unfold Dayjs.clockMillis.
  rewrite (skipTs_digit h1 a) by exact Ha.
  cbn [Dayjs.digits2]. rewrite Ha, Hb.
  change (Dayjs.skipColon (String ":" (String m1 (String m2 ""))))
    with (String m1 (String m2 "")).
  cbn [Dayjs.digits2]. rewrite Hc, Hd.
  cbn [Dayjs.skipColon Dayjs.digits2 Dayjs.skipSeparator Dayjs.millis].
  f_equal. rewrite <- Hm'.
  unfold Dayjs.msPerHour, Dayjs.msPerMinute, Dayjs.msPerSecond. ring.
Qed.

Lemma ofDayClock_clock day s m :
  Dayjs.clockMinutes s = Some m ->
  Dayjs.ofDayClock day s = Some (Dayjs.ofDay day + m * Dayjs.msPerMinute).
Proof.
  intros H. unfold Dayjs.ofDayClock.
  rewrite (clockMillis_clockMinutes s m H). reflexivity.
Qed.

Lemma slotMinutes_mkSlot c e :
  slotMinutes (CalendarService.mkSlot (Some c) (Some e))
  = Some (Dayjs.minuteOfDay e - Dayjs.minuteOfDay c).
Proof.
  unfold slotMinutes, CalendarService.mkSlot, DateTimeUtils.dayjs2000.
  cbn [startTime endTime].
  rewrite !(ofDayClock_clock _ _ _ (clockMinutes_formatHHmm _)).
  cbn [Dayjs.diffMinute]. f_equal.
  match goal with
  | |- Z.quot ?x _ = ?y =>
      replace x with (y * Dayjs.msPerMinute) by ring
  end.
  apply Z.quot_mul. discriminate.
Qed.

(** A gap of a window that lies on one day keeps its length when it is
    written as two clock texts. *)
Lemma gap_longEnough s e c e' :
  Dayjs.formatDay s = Dayjs.formatDay e ->
  s <= c -> e' <= e ->
  Dayjs.geNum (Dayjs.diffMinute (Some e') (Some c))
    TIME_CONSTANTS.MIN_SLOT_DURATION = true ->
  longEnough (CalendarService.mkSlot (Some c) (Some e')).
Proof.
  intros Hday Hs He Hge. unfold longEnough. rewrite slotMinutes_mkSlot.
  eexists; split; [reflexivity |].
  cbn [Dayjs.geNum Dayjs.diffMinute] in Hge. apply Z.leb_le in Hge.
  unfold TIME_CONSTANTS.MIN_SLOT_DURATION, Dayjs.msPerMinute,
    Dayjs.minuteOfDay, Dayjs.formatDay, Dayjs.msPerDay in *.
  assert (Hlen : 30 * 60000 <= e' - c).
  { destruct (Z.le_gt_cases 0 (e' - c)) as [Hpos | Hneg].
    - rewrite Z.quot_div_nonneg in Hge by lia.
      Z.div_mod_to_equations. lia.
    - assert (Z.quot (e' - c) 60000 <= 0).
      { apply Z.quot_le_upper_bound; lia. }
      lia. }
  assert (Hc : c / 86400000 = s / 86400000).
  { apply Z.le_antisymm.
    - rewrite Hday. apply Z.div_le_mono; lia.
    - apply Z.div_le_mono; lia. }
  assert (He' : e' / 86400000 = s / 86400000).
  { apply Z.le_antisymm.
    - rewrite Hday. apply Z.div_le_mono; lia.
    - apply Z.div_le_mono; lia. }
  rewrite (Z.mod_eq e'), (Z.mod_eq c), Hc, He' by lia.
  generalize (s / 86400000). intros k.
  unfold Dayjs.msPerMinute. clear Hge Hday Hc He'.
  Z.div_mod_to_equations. lia.
Qed.

(** ** The sweep of one window *)

Section Sweep.

Variables rangeStart rangeEnd : option Z.
Hypothesis oneDay : withinOneDay (rangeStart, rangeEnd).

Lemma sweepEvents_longEnough events : forall currentTime slots,
  cursorFrom rangeStart currentTime ->
  Forall longEnough slots ->
  cursorFrom rangeStart
    (fst (CalendarService.sweepEvents rangeEnd events currentTime slots))
  /\ Forall longEnough
       (snd (CalendarService.sweepEvents rangeEnd events currentTime slots)).
Proof.
  induction events as [| event rest IH]; intros currentTime slots Hcur Hslots.
  - simpl. split; assumption.
  - cbn [CalendarService.sweepEvents].
    destruct (Dayjs.isBefore (Some (busy_end event)) currentTime) eqn:Hpast.
    { apply IH; assumption. }
    destruct (Dayjs.isAfter (Some (busy_start event)) rangeEnd) eqn:Hbeyond.
    { simpl. split; assumption. }
    match goal with
    | |- context [if Dayjs.isAfter ?c' rangeEnd then (_, ?s') else _] =>
        assert (Hcur' : cursorFrom rangeStart c');
        [| assert (Hslots' : Forall longEnough s');
           [| destruct (Dayjs.isAfter c' rangeEnd);
              [simpl; split; assumption | apply IH; assumption]]]
    end.
    + destruct currentTime as [c |], rangeStart as [s |];
        simpl in Hcur |- *; try contradiction; try exact I.
      destruct (c <? busy_end event) eqn:Hlt; simpl; [| exact Hcur].
      apply Z.ltb_lt in Hlt. lia.
    + destruct (Dayjs.isBefore currentTime (Some (busy_start event)))
        eqn:Hgap; [| exact Hslots].
      match goal with
      | |- context [Dayjs.geNum ?d ?k] =>
          destruct (Dayjs.geNum d k) eqn:Hge; [| exact Hslots]
      end.
      apply Forall_app. split; [exact Hslots |].
      constructor; [| constructor].
      destruct currentTime as [c |]; [| discriminate Hgap].
      destruct rangeStart as [s |]; [| contradiction].
      simpl in Hcur.
      destruct rangeEnd as [e |].
      * specialize (oneDay s e eq_refl eq_refl).
        cbn [Dayjs.isBefore] in Hge |- *.
        destruct (busy_start event <? e) eqn:Hlt.
        -- apply Z.ltb_lt in Hlt.
           eapply gap_longEnough with (s := s) (e := e); try eassumption.
           lia.
        -- eapply gap_longEnough with (s := s) (e := e); try eassumption.
           lia.
      * discriminate Hge.
Qed.

Lemma scanRange_longEnough events slots :
  Forall longEnough slots ->
  Forall longEnough
    (CalendarService.scanRange events slots (rangeStart, rangeEnd)).
Proof.
  intros Hslots. unfold CalendarService.scanRange.
  assert (Hstart : cursorFrom rangeStart rangeStart).
  { destruct rangeStart; simpl; [lia | exact I]. }
  destruct (sweepEvents_longEnough events rangeStart slots Hstart Hslots)
    as [Hcur Hall].
  destruct (CalendarService.sweepEvents rangeEnd events rangeStart slots)
    as [currentTime slots'].
  simpl in Hcur, Hall.
  destruct (Dayjs.isBefore currentTime rangeEnd) eqn:Hlt; [| exact Hall].
  destruct (Dayjs.geNum _ _) eqn:Hge; [| exact Hall].
  apply Forall_app. split; [exact Hall |].
  constructor; [| constructor].
  destruct currentTime as [c |]; [| discriminate Hlt].
  destruct rangeEnd as [e |]; [| discriminate Hlt].
  destruct rangeStart as [s |]; [| contradiction].
  simpl in Hcur.
  eapply gap_longEnough with (s := s) (e := e); try eassumption.
  - apply oneDay; reflexivity.
  - lia.
Qed.

End Sweep.

Lemma formatDay_ofDay_clock day m :
  0 <= m < 1440 ->
  Dayjs.formatDay (Dayjs.ofDay day + m * Dayjs.msPerMinute) = day.
Proof.
  intros Hm. unfold Dayjs.formatDay, Dayjs.ofDay, Dayjs.msPerMinute,
    Dayjs.msPerDay.
  Z.div_mod_to_equations. lia.
Qed.

Lemma formatDay_atHour d h :
  0 <= h < 24 -> Dayjs.formatDay (Dayjs.atHour d h) = Dayjs.formatDay d.
Proof.
  intros Hh. unfold Dayjs.atHour, Dayjs.startOfDay, Dayjs.formatDay,
    Dayjs.msPerHour, Dayjs.msPerSecond, Dayjs.msPerDay.
  generalize (d / 86400000). intros k.
  Z.div_mod_to_equations. lia.
Qed.

Lemma pickedWindow_clocks w :
  pickedWindow w = true ->
  exists a b,
    Dayjs.clockMinutes (ts_start w) = Some a
    /\ Dayjs.clockMinutes (ts_end w) = Some b.
Proof.
  unfold pickedWindow, isClock. intros H.
  destruct (Dayjs.clockMinutes (ts_start w)) as [a |]; [| discriminate].
  destruct (Dayjs.clockMinutes (ts_end w)) as [b |]; [| discriminate].
  exists a, b. split; reflexivity.
Qed.

(** The two ends of a window of clock texts. *)
Lemma pickedWindow_range day w :
  pickedWindow w = true ->
  exists a b,
    Dayjs.clockMinutes (ts_start w) = Some a
    /\ Dayjs.clockMinutes (ts_end w) = Some b
    /\ Dayjs.ofDayClock day (ts_start w) = Some (clockOn day a)
    /\ Dayjs.ofDayClock day (ts_end w) = Some (clockOn day b).
Proof.
  intros H. destruct (pickedWindow_clocks w H) as (a & b & Ha & Hb).
  exists a, b. unfold clockOn.
  rewrite (ofDayClock_clock day _ a Ha), (ofDayClock_clock day _ b Hb).
  repeat split; assumption.
Qed.

Lemma slotRanges_withinOneDay date slotsForDate :
  forallb pickedWindow slotsForDate = true ->
  Forall withinOneDay (CalendarService.slotRanges date slotsForDate).
Proof.
  intros Hpicked. rewrite forallb_forall in Hpicked.
  unfold CalendarService.slotRanges.
  destruct (0 <? List.length slotsForDate)%nat.
  - apply Forall_forall. intros range Hin.
    apply in_map_iff in Hin. destruct Hin as (slot & <- & Hslot).
    intros s e Hs He. cbn [fst snd] in Hs, He.
    destruct (pickedWindow_range (Dayjs.formatDay date) slot
                (Hpicked slot Hslot)) as (a & b & Ha & Hb & Hsa & Heb).
    apply clockMinutes_range in Ha, Hb.
    assert (Hs' : s = clockOn (Dayjs.formatDay date) a) by congruence.
    assert (He' : e = clockOn (Dayjs.formatDay date) b) by congruence.
    rewrite Hs', He'. unfold clockOn.
    rewrite !formatDay_ofDay_clock by assumption. reflexivity.
  - constructor; [| constructor].
    intros s e Hs He. cbn [fst snd] in Hs, He.
    injection Hs as <-. injection He as <-.
    rewrite !formatDay_atHour; [reflexivity | |];
      unfold TIME_CONSTANTS.CORE_TIME_END_HOUR,
        TIME_CONSTANTS.CORE_TIME_START_HOUR; lia.
Qed.

Lemma fold_scanRange_longEnough busy ranges : forall slots,
  Forall withinOneDay ranges ->
  Forall longEnough slots ->
  Forall longEnough (fold_left (CalendarService.scanRange busy) ranges slots).
Proof.
  induction ranges as [| [rangeStart rangeEnd] ranges IH];
    intros slots Hranges Hslots; simpl.
  - exact Hslots.
  - inversion Hranges as [| ? ? Hrange Hrest]; subst.
    apply IH; [exact Hrest |].
    apply scanRange_longEnough; assumption.
Qed.

Lemma calculateDayAvailableSlots_longEnough now events date slotsForDate daySlots :
  forallb pickedWindow slotsForDate = true ->
  CalendarService.calculateDayAvailableSlots now events date slotsForDate
  = Ok daySlots ->
  Forall longEnough daySlots.
Proof.
  intros Hpicked.
  unfold CalendarService.calculateDayAvailableSlots, bind.
  destruct (CalendarService.dayEvents now events date) as [busy | err];
    [| discriminate].
  intros H. injection H as <-.
  apply fold_scanRange_longEnough.
  - apply slotRanges_withinOneDay. exact Hpicked.
  - constructor.
Qed.

Lemma forallb_filter {A} (p q : A -> bool) l :
  forallb p l = true -> forallb p (filter q l) = true.
Proof.
  rewrite !forallb_forall. intros H x Hin.
  apply filter_In in Hin. apply H. apply Hin.
Qed.

(** ** Merging keeps slots long enough *)

Lemma longEnough_extend current next :
  longEnough current -> longEnough next ->
  longEnough
    {| startTime := startTime current;
       endTime :=
         if Dayjs.isAfter (DateTimeUtils.dayjs2000 (endTime current))
              (DateTimeUtils.dayjs2000 (endTime next))
         then endTime current else endTime next;
       isContinuous := true |}.
Proof.
  intros (m & Hm & Hlen) (m' & Hm' & _).
  unfold longEnough, slotMinutes in *. cbn [startTime endTime].
  destruct (DateTimeUtils.dayjs2000 (endTime current)) as [ec |] eqn:Hec;
    [| discriminate Hm].
  destruct (DateTimeUtils.dayjs2000 (endTime next)) as [en |] eqn:Hen;
    [| discriminate Hm'].
  destruct (DateTimeUtils.dayjs2000 (startTime current)) as [sc |] eqn:Hsc;
    [| discriminate Hm].
  cbn [Dayjs.isAfter].
  destruct (en <? ec) eqn:Hlt.
  - rewrite Hec. exists m. split; assumption.
  - rewrite Hen. cbn [Dayjs.diffMinute] in *.
    injection Hm as <-. eexists; split; [reflexivity |].
    apply Z.ltb_ge in Hlt.
    etransitivity; [exact Hlen |].
    apply Z.quot_le_mono; unfold Dayjs.msPerMinute; lia.
Qed.

Lemma merge_loop_longEnough rest : forall current merged,
  Forall longEnough rest -> longEnough current ->
  Forall longEnough merged ->
  Forall longEnough
    (DateTimeUtils.mergeContinuousSlots_loop rest current merged).
Proof.
  induction rest as [| next rest IH]; intros current merged Hrest Hcur Hm;
    simpl.
  - apply Forall_app. split; [exact Hm | constructor; [exact Hcur | constructor]].
  - inversion Hrest as [| ? ? Hnext Hrest']; subst.
    destruct (Dayjs.isSameOrAfter _ _).
    + apply IH; [exact Hrest' | | exact Hm].
      apply longEnough_extend; assumption.
    + apply IH; [exact Hrest' | exact Hnext |].
      apply Forall_app. split; [exact Hm | constructor; [exact Hcur | constructor]].
Qed.

Lemma mergeContinuousSlots_longEnough slots :
  Forall longEnough slots ->
  Forall longEnough (DateTimeUtils.mergeContinuousSlots slots).
Proof.
  intros Hall. unfold DateTimeUtils.mergeContinuousSlots.
  pose proof (sortBy_Forall DateTimeUtils.startTime_le longEnough slots Hall)
    as Hsorted.
  destruct (sortBy DateTimeUtils.startTime_le slots) as [| first rest];
    [constructor |].
  inversion Hsorted; subst.
  apply merge_loop_longEnough; [assumption | assumption | constructor].
Qed.

Lemma forEachDate_longEnough now events timeSlots dates :
  forallb pickedWindow timeSlots = true ->
  forall availableSlots days,
  Forall (fun day => Forall longEnough (slots day)) availableSlots ->
  CalendarService.forEachDate now events timeSlots dates availableSlots
  = Ok days ->
  Forall (fun day => Forall longEnough (slots day)) days.
Proof.
  intros Hpicked.
  induction dates as [| date rest IH]; intros availableSlots days Hacc;
    cbn [CalendarService.forEachDate].
  - intros H. injection H as <-. exact Hacc.
  - unfold bind.
    destruct (CalendarService.calculateDayAvailableSlots now events date _)
      as [daySlots | err] eqn:Hday; [| discriminate].
    apply calculateDayAvailableSlots_longEnough in Hday;
      [| apply forallb_filter; exact Hpicked].
    destruct (0 <? List.length daySlots)%nat.
    + apply IH. apply Forall_app. split; [exact Hacc |].
      constructor; [| constructor]. cbn [slots].
      apply mergeContinuousSlots_longEnough. exact Hday.
    + apply IH. exact Hacc.
Qed.

(** When the ends of the preferred windows are clock texts ['HH:mm'] of
    the day, as the time pickers write them, every free slot of every
    [DayResult] that [calculateAvailableSlots] returns has
    [endTime - startTime] of at least [MIN_SLOT_DURATION] (30) minutes (on
    this time line, where no day has a clock change). *)
Lemma calculateAvailableSlots_min_duration_picked
    (now : Z) (events : list CalendarEvent) (startDate endDate : Z)
    (timeSlots : list TimeSlot) (days : list DayResult) :
  forallb pickedWindow timeSlots = true ->
  CalendarService.calculateAvailableSlots now events startDate endDate
    timeSlots = Ok days ->
  forall day, In day days ->
  forall slot, In slot (slots day) ->
  exists minutes,
    slotMinutes slot = Some minutes
    /\ TIME_CONSTANTS.MIN_SLOT_DURATION <= minutes.
Proof.
  intros Hpicked Hcall day Hday slot Hslot.
  unfold CalendarService.calculateAvailableSlots in Hcall.
  apply forEachDate_longEnough in Hcall; [| exact Hpicked | constructor].
  rewrite Forall_forall in Hcall. specialize (Hcall day Hday).
  rewrite Forall_forall in Hcall. exact (Hcall slot Hslot).
Qed.

(** C1.  A preferred window from 23:00 to 24:30 on a date without events.
    [dayjs] reads the end ['24:30'] as 00:30 of the next day, so the window
    lasts 90 minutes and passes the test
    [slotEnd.diff(currentTime, 'minute') >= MIN_SLOT_DURATION]; the slot
    is written with [format('HH:mm')] as 23:00 to 00:30, and the row that
    [calculateAvailableSlots] returns for the date holds this one slot,
    whose [endTime - startTime], as the code itself measures it for
    [totalMinutes], is -1350 minutes. *)
Theorem window_past_midnight_slot (now : Z) :
  CalendarService.calculateAvailableSlots now []
    (Dayjs.ofDay scenarioDay) (Dayjs.ofDay scenarioDay)
    [{| ts_date := scenarioDay; ts_start := "23:00"; ts_end := "24:30" |}]
  = Ok [{| day_date := scenarioDay;
           slots := [freeSlot "23:00" "00:30"];
           totalSlots := 1;
           totalMinutes := Some (-1350) |}]
  /\ slotMinutes (freeSlot "23:00" "00:30") = Some (-1350)
  /\ Dayjs.diffMinute
       (Dayjs.ofDayClock scenarioDay "24:30")
       (Dayjs.ofDayClock scenarioDay "23:00") = Some 90.
Proof. vm_compute. repeat split; reflexivity. Qed.

Lemma scenario_result (now : Z) :
  CalendarService.calculateAvailableSlots now (scenarioEvents scenarioDay)
    (Dayjs.ofDay scenarioDay) (Dayjs.ofDay scenarioDay) []
  = Ok [{| day_date := scenarioDay;
           slots := [freeSlot "10:20" "13:40"; freeSlot "15:20" "22:00"];
           totalSlots := 2;
           totalMinutes := Some 600 |}].
Proof. vm_compute. reflexivity. Defined.

(** ** The dates that are examined *)

Lemma formatDay_ofDay day : Dayjs.formatDay (Dayjs.ofDay day) = day.
Proof.
  unfold Dayjs.formatDay, Dayjs.ofDay. apply Z.div_mul. discriminate.
Qed.

Lemma formatDay_add_day d :
  Dayjs.formatDay (Dayjs.add d 1 Dayjs.msPerDay) = Dayjs.formatDay d + 1.
Proof.
  unfold Dayjs.formatDay, Dayjs.add. rewrite Z.div_add by discriminate.
  reflexivity.
Qed.

(** The test of the [while] loop holds exactly up to the day of [endDate]. *)
Lemma generateDateRange_test currentDate endDate :
  (currentDate <? endDate) || Dayjs.isSameDay currentDate endDate = true
  <-> Dayjs.formatDay currentDate <= Dayjs.formatDay endDate.
Proof.
  unfold Dayjs.isSameDay, Dayjs.formatDay, Dayjs.msPerDay.
  rewrite orb_true_iff, Z.ltb_lt, Z.eqb_eq.
  split.
  - intros [Hlt | Heq]; [apply Z.div_le_mono; lia | lia].
  - intros Hle.
    destruct (Z.eq_dec (currentDate / 86400000) (endDate / 86400000))
      as [Heq | Hne]; [right; exact Heq | left].
    Z.div_mod_to_equations. lia.
Qed.

(** The loop leaves by its test: it pushes one date for each day from the
    day of [currentDate] to the day of [endDate]. *)
Lemma generateDateRange_loop_days (n : nat) : forall endDate currentDate dates,
  Z.to_nat (Dayjs.formatDay endDate + 1 - Dayjs.formatDay currentDate) = n ->
  map Dayjs.formatDay
    (DateTimeUtils.generateDateRange_loop endDate currentDate dates)
  = map Dayjs.formatDay dates
    ++ map (fun i => Dayjs.formatDay currentDate + Z.of_nat i) (seq 0 n).
Proof.
  induction n as [| n IH]; intros endDate currentDate dates Hn;
    rewrite DateTimeUtils.generateDateRange_loop_equation_1;
    destruct (inspect ((currentDate <? endDate)
                       || Dayjs.isSameDay currentDate endDate))
      as [[|] Htest];
    cbn [DateTimeUtils.generateDateRange_loop_unfold_clause_1].
  - apply generateDateRange_test in Htest. lia.
  - simpl. rewrite app_nil_r. reflexivity.
  - rewrite (IH endDate _ _).
    + rewrite map_app, <- app_assoc. f_equal. simpl. f_equal.
      * f_equal. lia.
      * rewrite <- seq_shift, map_map. apply map_ext. intros i.
        rewrite formatDay_add_day. lia.
    + rewrite formatDay_add_day. lia.
  - exfalso.
    assert (Hle : Dayjs.formatDay currentDate <= Dayjs.formatDay endDate) by lia.
    apply generateDateRange_test in Hle. congruence.
Qed.

Lemma generateDateRange_days startDate endDate :
  map Dayjs.formatDay (DateTimeUtils.generateDateRange startDate endDate)
  = map (fun i => Dayjs.formatDay startDate + Z.of_nat i)
      (seq 0 (Z.to_nat (Dayjs.formatDay endDate + 1
                        - Dayjs.formatDay startDate))).
Proof.
  unfold DateTimeUtils.generateDateRange.
  rewrite (generateDateRange_loop_days _ endDate startDate [] eq_refl).
  reflexivity.
Qed.

Lemma Set_add_In s x y : In y (Set_add s x) <-> In y s \/ y = x.
Proof.
  unfold Set_add. destruct (existsb (Z.eqb x) s) eqn:Hmem.
  - apply existsb_exists in Hmem. destruct Hmem as (z & Hz & Heq).
    apply Z.eqb_eq in Heq. subst z. split; [auto |].
    intros [H | ->]; assumption.
  - rewrite in_app_iff. simpl. intuition.
Qed.

Lemma Set_add_NoDup s x : NoDup s -> NoDup (Set_add s x).
Proof.
  intros Hs. unfold Set_add. destruct (existsb (Z.eqb x) s) eqn:Hmem.
  - exact Hs.
  - apply NoDup_app; [exact Hs | repeat constructor; intros [] |].
    intros y Hy [Heq | []]. subst y.
    assert (Hex : existsb (Z.eqb x) s = true)
      by (apply existsb_exists; exists x; split; [exact Hy | apply Z.eqb_refl]).
    congruence.
Qed.

Lemma Set_of_fold xs : forall s,
  NoDup s ->
  NoDup (fold_left Set_add xs s)
  /\ forall y, In y (fold_left Set_add xs s) <-> In y s \/ In y xs.
Proof.
  induction xs as [| x xs IH]; intros s Hs; simpl.
  - split; [exact Hs | intuition].
  - destruct (IH (Set_add s x) (Set_add_NoDup s x Hs)) as [Hnd Hin].
    split; [exact Hnd |].
    intros y. rewrite Hin, Set_add_In. intuition.
Qed.

Lemma map_formatDay_ofDay days :
  map Dayjs.formatDay (map Dayjs.ofDay days) = days.
Proof.
  rewrite map_map. rewrite <- (map_id days) at 2.
  apply map_ext. apply formatDay_ofDay.
Qed.

(** The dates of the array that [calculateAvailableSlots] walks are the
    dates that the search is to examine. *)
Lemma targetDates_named startDate endDate timeSlots day :
  In day (map Dayjs.formatDay
            (CalendarService.targetDates startDate endDate timeSlots))
  <-> namedDate startDate endDate timeSlots day.
Proof.
  unfold CalendarService.targetDates, namedDate.
  destruct timeSlots as [| slot timeSlots];
    cbn [List.length Nat.ltb Nat.leb].
  - rewrite generateDateRange_days, in_map_iff. split.
    + intros (i & <- & Hi). apply in_seq in Hi. lia.
    + intros Hday. exists (Z.to_nat (day - Dayjs.formatDay startDate)).
      split; [lia | apply in_seq; lia].
  - rewrite map_formatDay_ofDay. unfold Set_of.
    destruct (Set_of_fold (map ts_date (slot :: timeSlots)) [] (NoDup_nil _))
      as [_ Hin].
    rewrite Hin. simpl. intuition.
Qed.

(** The walk with its log returns what the walk returns. *)
Lemma forEachDate_logged_result now events timeSlots dates :
  forall availableSlots,
  fst (CalendarService.forEachDate_logged now events timeSlots dates
         availableSlots)
  = CalendarService.forEachDate now events timeSlots dates availableSlots.
Proof.
  induction dates as [| date rest IH]; intros availableSlots;
    cbn [CalendarService.forEachDate_logged CalendarService.forEachDate].
  - reflexivity.
  - unfold bind.
    destruct (CalendarService.calculateDayAvailableSlots now events date _)
      as [daySlots | err]; [| reflexivity].
    destruct (0 <? List.length daySlots)%nat.
    + rewrite <- IH.
      destruct (CalendarService.forEachDate_logged now events timeSlots rest _)
        as [result examined]. reflexivity.
    + rewrite <- IH.
      destruct (CalendarService.forEachDate_logged now events timeSlots rest _)
        as [result examined]. reflexivity.
Qed.

(** The dates examined are the first dates of the array, in its order:
    all of them when the walk returns, and those up to the date whose
    call throws when it throws. *)
Lemma forEachDate_logged_examined now events timeSlots dates :
  forall availableSlots,
  let '(result, examined) :=
    CalendarService.forEachDate_logged now events timeSlots dates
      availableSlots in
  match result with
  | Ok _ => examined = map Dayjs.formatDay dates
  | Throw error =>
      exists before date after,
        dates = before ++ date :: after
        /\ examined = map Dayjs.formatDay (before ++ [date])
        /\ CalendarService.calculateDayAvailableSlots now events date
             (windowsOf timeSlots date) = Throw error
  end.
Proof.
  induction dates as [| date rest IH]; intros availableSlots;
    cbn [CalendarService.forEachDate_logged].
  - reflexivity.
  - fold (windowsOf timeSlots date).
    destruct (CalendarService.calculateDayAvailableSlots now events date _)
      as [daySlots | err] eqn:Hday.
    + assert (Hrest :
        forall acc,
          let '(result, examined) :=
            CalendarService.forEachDate_logged now events timeSlots rest acc in
          match result with
          | Ok _ =>
              Dayjs.formatDay date :: examined
              = map Dayjs.formatDay (date :: rest)
          | Throw error =>
              exists before date0 after,
                date :: rest = before ++ date0 :: after
                /\ Dayjs.formatDay date :: examined
                   = map Dayjs.formatDay (before ++ [date0])
                /\ CalendarService.calculateDayAvailableSlots now events date0
                     (windowsOf timeSlots date0) = Throw error
          end).
      { intros acc. specialize (IH acc).
        destruct (CalendarService.forEachDate_logged now events timeSlots
                    rest acc) as [[days | error] examined].
        - rewrite IH. reflexivity.
        - destruct IH as (before & date0 & after & Hdates & Hex & Hthrow).
          exists (date :: before), date0, after.
          rewrite Hdates, Hex. repeat split. exact Hthrow. }
      destruct (0 <? List.length daySlots)%nat.
      * specialize (Hrest
          (availableSlots ++
             [{| day_date := DateTimeUtils.formatDate date;
                 slots := DateTimeUtils.mergeContinuousSlots daySlots;
                 totalSlots :=
                   List.length (DateTimeUtils.mergeContinuousSlots daySlots);
                 totalMinutes :=
                   CalendarService.sumMinutes
                     (DateTimeUtils.mergeContinuousSlots daySlots) |}])).
        cbv zeta.
        destruct (CalendarService.forEachDate_logged now events timeSlots
                    rest _) as [result examined].
        exact Hrest.
      * specialize (Hrest availableSlots).
        destruct (CalendarService.forEachDate_logged now events timeSlots
                    rest availableSlots) as [result examined].
        exact Hrest.
    + exists [], date, rest. repeat split. exact Hday.
Qed.

(** C3.  The dates that [calculateAvailableSlots] examines, that is the
    dates for which it calls [calculateDayAvailableSlots].  With at least
    one preferred window every date examined is a date that a window
    names; with none, every date examined is a day from the day of
    [startDate] to the day of [endDate], both included.  When the call
    returns, every such date has been examined, so the set of the dates
    examined is exactly the set of these dates; a call that throws has
    stopped at the date whose events made it throw.  The result is that
    of [calculateAvailableSlots]. *)
Theorem calculateAvailableSlots_examines
    (now : Z) (events : list CalendarEvent) (startDate endDate : Z)
    (timeSlots : list TimeSlot) :
  let '(result, examined) :=
    CalendarService.calculateAvailableSlots_logged now events
      startDate endDate timeSlots in
  result
  = CalendarService.calculateAvailableSlots now events startDate endDate
      timeSlots
  /\ (forall day,
        In day examined -> namedDate startDate endDate timeSlots day)
  /\ match result with
     | Ok _ =>
         forall day,
           namedDate startDate endDate timeSlots day -> In day examined
     | Throw error =>
         exists earlier date,
           examined = earlier ++ [Dayjs.formatDay date]
           /\ In date
                (CalendarService.targetDates startDate endDate timeSlots)
           /\ CalendarService.calculateDayAvailableSlots now events date
                (windowsOf timeSlots date) = Throw error
     end.
Proof.
  unfold CalendarService.calculateAvailableSlots_logged,
    CalendarService.calculateAvailableSlots.
  pose proof (forEachDate_logged_result now events timeSlots
                (CalendarService.targetDates startDate endDate timeSlots) [])
    as Hresult.
  pose proof (forEachDate_logged_examined now events timeSlots
                (CalendarService.targetDates startDate endDate timeSlots) [])
    as Hexamined.
  destruct (CalendarService.forEachDate_logged now events timeSlots _ [])
    as [result examined].
  cbn [fst] in Hresult. split; [exact Hresult |].
  destruct result as [days | error].
  - rewrite Hexamined. split; intros day Hday;
      apply targetDates_named; exact Hday.
  - destruct Hexamined as (before & date & after & Hdates & Hex & Hthrow).
    split.
    + intros day Hday. apply targetDates_named. rewrite Hdates.
      rewrite Hex in Hday. rewrite map_app, in_app_iff in Hday |- *.
      cbn [map In] in Hday |- *. tauto.
    + exists (map Dayjs.formatDay before), date.
      split; [| split; [| exact Hthrow]].
      * rewrite Hex, map_app. reflexivity.
      * rewrite Hdates. apply in_app_iff. right. left. reflexivity.
Qed.

(** A search without windows over the two days 2024-06-10 and 2024-06-11
    examines both, and one with two windows of 2024-06-11 examines that
    date alone; an event of 2024-06-10 without [end] stops the first
    search at that date. *)
Example examined_dates (now : Z) :
  snd (CalendarService.calculateAvailableSlots_logged now []
         (Dayjs.ofDay scenarioDay) (Dayjs.ofDay (scenarioDay + 1)) [])
  = [scenarioDay; scenarioDay + 1]
  /\ snd (CalendarService.calculateAvailableSlots_logged now []
            (Dayjs.ofDay scenarioDay) (Dayjs.ofDay (scenarioDay + 1))
            [{| ts_date := scenarioDay + 1; ts_start := "10:00";
                ts_end := "12:00" |};
             {| ts_date := scenarioDay + 1; ts_start := "15:00";
                ts_end := "17:00" |}])
     = [scenarioDay + 1]
  /\ CalendarService.calculateAvailableSlots_logged now
       [eventWithoutEnd scenarioDay 9 0]
       (Dayjs.ofDay scenarioDay) (Dayjs.ofDay (scenarioDay + 1)) []
     = (Throw TypeError_dateTime, [scenarioDay]).
Proof. vm_compute. repeat split; reflexivity. Qed.

(** Every row of the result is the row of one of the dates walked. *)
Lemma forEachDate_dates now events timeSlots dates :
  forall availableSlots days,
  CalendarService.forEachDate now events timeSlots dates availableSlots
  = Ok days ->
  forall day, In day (map day_date days) ->
    In day (map day_date availableSlots)
    \/ In day (map Dayjs.formatDay dates).
Proof.
  induction dates as [| d rest IH]; intros availableSlots days;
    cbn [CalendarService.forEachDate].
  - intros H. injection H as <-. auto.
  - unfold bind.
    destruct (CalendarService.calculateDayAvailableSlots now events d _)
      as [daySlots | err]; [| discriminate].
    destruct (0 <? List.length daySlots)%nat; intros Hrun day Hin;
      destruct (IH _ _ Hrun day Hin) as [Hacc | Hrest].
    + rewrite map_app, in_app_iff in Hacc. cbn [map day_date In] in Hacc.
      unfold DateTimeUtils.formatDate in Hacc.
      destruct Hacc as [Hacc | [Hd | []]]; [left; exact Hacc |].
      right. left. exact Hd.
    + right. right. exact Hrest.
    + left. exact Hacc.
    + right. right. exact Hrest.
Qed.

Lemma calculateAvailableSlots_dates now events startDate endDate timeSlots days :
  CalendarService.calculateAvailableSlots now events startDate endDate
    timeSlots = Ok days ->
  forall day, In day (map day_date days) ->
    In day (map Dayjs.formatDay
              (CalendarService.targetDates startDate endDate timeSlots)).
Proof.
  intros Hrun day Hin.
  destruct (forEachDate_dates now events timeSlots _ _ _ Hrun day Hin)
    as [[] | H]; exact H.
Qed.

(** ** The scenario of two events, on any day *)

Lemma formatHHmm_on_day day hh mm :
  Dayjs.formatHHmm (Some (instant (atClock day hh mm)))
  = Dayjs.formatHHmm (Some (hh * Dayjs.msPerHour + mm * Dayjs.msPerMinute)).
Proof.
  unfold Dayjs.formatHHmm, Dayjs.hourOf, Dayjs.minuteOf, atClock, Dayjs.ofDay.
  cbn [instant].
  set (k := hh * Dayjs.msPerHour + mm * Dayjs.msPerMinute).
  replace (day * Dayjs.msPerDay + hh * Dayjs.msPerHour + mm * Dayjs.msPerMinute)
    with (k + day * Dayjs.msPerDay) by (unfold k; ring).
  rewrite Z_mod_plus_full.
  replace (k + day * Dayjs.msPerDay) with (k + (day * 24) * Dayjs.msPerHour)
    by (unfold Dayjs.msPerDay, Dayjs.msPerHour; ring).
  rewrite Z_mod_plus_full. reflexivity.
Qed.

Lemma atHour_ofDay day h :
  Dayjs.atHour (Dayjs.ofDay day) h = instant (atClock day h 0).
Proof.
  unfold Dayjs.atHour, Dayjs.startOfDay, atClock. cbn [instant].
  rewrite formatDay_ofDay. fold (Dayjs.ofDay day).
  unfold Dayjs.ofDay, Dayjs.msPerDay, Dayjs.msPerSecond.
  replace (day * 86400000) with ((day * 86400) * 1000) by ring.
  rewrite Z_mod_mult. ring.
Qed.

(** The busy interval of a timed event: 20 minutes more on each side. *)
Lemma buffered_event now day h1 m1 h2 m2 h1' m1' h2' m2' :
  h1 * 60 + m1 - 20 = h1' * 60 + m1' ->
  h2 * 60 + m2 + 20 = h2' * 60 + m2' ->
  CalendarService.toBusyInterval now (timedEvent day h1 m1 h2 m2)
  = Ok (busyBetween day h1' m1' h2' m2').
Proof.
  intros Hs He. unfold CalendarService.toBusyInterval, busyBetween.
  cbn [timedEvent start end_ CalendarService.optDate date dateTime
       CalendarService.dayjsOfDateTime].
  unfold atClock, Dayjs.subtract, Dayjs.add, Dayjs.msPerHour, Dayjs.msPerMinute,
    TIME_CONSTANTS.BUFFER_TIME_MINUTES.
  cbn [instant]. do 2 f_equal; lia.
Qed.

Lemma ltb_on_day day h1 m1 h2 m2 :
  (instant (atClock day h1 m1) <? instant (atClock day h2 m2))
  = (h1 * 60 + m1 <? h2 * 60 + m2).
Proof.
  unfold atClock, Dayjs.msPerHour, Dayjs.msPerMinute. cbn [instant].
  destruct (Z.ltb_spec (h1 * 60 + m1) (h2 * 60 + m2));
    [apply Z.ltb_lt | apply Z.ltb_ge]; lia.
Qed.

Lemma quot_on_day day h1 m1 h2 m2 :
  Z.quot (instant (atClock day h1 m1) - instant (atClock day h2 m2))
    Dayjs.msPerMinute
  = (h1 * 60 + m1) - (h2 * 60 + m2).
Proof.
  unfold atClock, Dayjs.msPerHour. cbn [instant].
  match goal with
  | |- Z.quot ?x _ = ?y =>
      replace x with (y * Dayjs.msPerMinute)
        by (unfold Dayjs.msPerMinute; ring)
  end.
  apply Z.quot_mul. discriminate.
Qed.

Lemma generateDateRange_one_day d :
  DateTimeUtils.generateDateRange d d = [d].
Proof.
  unfold DateTimeUtils.generateDateRange.
  rewrite DateTimeUtils.generateDateRange_loop_equation_1.
  destruct (inspect ((d <? d) || Dayjs.isSameDay d d)) as [[|] Htest];
    cbn [DateTimeUtils.generateDateRange_loop_unfold_clause_1].
  - rewrite DateTimeUtils.generateDateRange_loop_equation_1.
    destruct (inspect ((Dayjs.add d 1 Dayjs.msPerDay <? d)
                       || Dayjs.isSameDay (Dayjs.add d 1 Dayjs.msPerDay) d))
      as [[|] Hnext];
      cbn [DateTimeUtils.generateDateRange_loop_unfold_clause_1];
      [| reflexivity].
    apply generateDateRange_test in Hnext.
    rewrite formatDay_add_day in Hnext. lia.
  - assert (Hle : Dayjs.formatDay d <= Dayjs.formatDay d) by lia.
    apply generateDateRange_test in Hle. congruence.
Qed.

(** C2.  Two timed events 09:00-10:00 and 14:00-15:00 on one date (any
    date), the buffer of 20 minutes, no preferred window and the core time
    10:00-22:00: the busy intervals are 08:40-10:20 and 13:40-15:20, and
    the free slots of that date are exactly 10:20-13:40 and 15:20-22:00,
    before and after the merge. *)
Theorem scenario_two_events (now : Z) (day : Day) :
  CalendarService.dayEvents now (scenarioEvents day) (Dayjs.ofDay day)
  = Ok [busyBetween day 8 40 10 20; busyBetween day 13 40 15 20]
  /\ CalendarService.calculateDayAvailableSlots now (scenarioEvents day)
       (Dayjs.ofDay day) []
     = Ok [freeSlot "10:20" "13:40"; freeSlot "15:20" "22:00"]
  /\ CalendarService.calculateAvailableSlots now (scenarioEvents day)
       (Dayjs.ofDay day) (Dayjs.ofDay day) []
     = Ok [{| day_date := day;
              slots := [freeSlot "10:20" "13:40"; freeSlot "15:20" "22:00"];
              totalSlots := 2;
              totalMinutes := Some 600 |}].
Proof.
  assert (Hbusy :
    CalendarService.dayEvents now (scenarioEvents day) (Dayjs.ofDay day)
    = Ok [busyBetween day 8 40 10 20; busyBetween day 13 40 15 20]).
  { unfold CalendarService.dayEvents, scenarioEvents.
    rewrite formatDay_ofDay.
    cbn [filter CalendarService.onTargetDate CalendarService.optDate
         CalendarService.optDateTime timedEvent start end_ date dateTime
         atClock datePart].
    rewrite Z.eqb_refl. cbn [mapM].
    rewrite (buffered_event now day 9 0 10 0 8 40 10 20) by reflexivity.
    rewrite (buffered_event now day 14 0 15 0 13 40 15 20) by reflexivity.
    cbn [bind sortBy insertBy].
    replace (CalendarService.busy_start_le (busyBetween day 8 40 10 20)
               (busyBetween day 13 40 15 20)) with true; [reflexivity |].
    symmetry. apply Z.leb_le.
    unfold busyBetween, atClock, Dayjs.msPerHour, Dayjs.msPerMinute.
    cbn [busy_start instant]. lia. }
  assert (Hday :
    CalendarService.calculateDayAvailableSlots now (scenarioEvents day)
      (Dayjs.ofDay day) []
    = Ok [freeSlot "10:20" "13:40"; freeSlot "15:20" "22:00"]).
  { unfold CalendarService.calculateDayAvailableSlots. rewrite Hbusy.
    cbn [bind CalendarService.slotRanges List.length Nat.ltb Nat.leb fold_left].
    unfold TIME_CONSTANTS.CORE_TIME_START_HOUR,
      TIME_CONSTANTS.CORE_TIME_END_HOUR.
    rewrite !atHour_ofDay.
    unfold CalendarService.scanRange, busyBetween.
    repeat (cbn -[atClock instant Dayjs.formatHHmm Z.quot Dayjs.msPerMinute];
            rewrite ?ltb_on_day, ?quot_on_day).
    unfold CalendarService.mkSlot. rewrite !formatHHmm_on_day.
    reflexivity. }
  split; [exact Hbusy | split; [exact Hday |]].
  unfold CalendarService.calculateAvailableSlots, CalendarService.targetDates.
  cbn [List.length Nat.ltb Nat.leb].
  rewrite generateDateRange_one_day.
  cbn [CalendarService.forEachDate filter]. rewrite Hday.
  unfold DateTimeUtils.formatDate. rewrite formatDay_ofDay.
  reflexivity.
Qed.

(** ** Malformed events *)

(** An event without [start] does not pass the filter: it is left out. *)
Lemma event_without_start_ignored now event events date slotsForDate :
  start event = None ->
  CalendarService.calculateDayAvailableSlots now (event :: events) date
    slotsForDate
  = CalendarService.calculateDayAvailableSlots now events date slotsForDate.
Proof.
  intros Hstart.
  unfold CalendarService.calculateDayAvailableSlots, CalendarService.dayEvents.
  cbn [filter]. unfold CalendarService.onTargetDate at 1.
  rewrite Hstart. reflexivity.
Qed.

Lemma mapM_Throw {A B} (f : A -> Result B) xs x :
  In x xs -> (exists e, f x = Throw e) -> exists e, mapM f xs = Throw e.
Proof.
  intros Hin [e He]. induction xs as [| y xs IH]; [contradiction |].
  simpl. destruct Hin as [-> | Hin].
  - rewrite He. exists e. reflexivity.
  - destruct (f y) as [b | e']; simpl; [| exists e'; reflexivity].
    destruct (IH Hin) as [e' He']. rewrite He'. exists e'. reflexivity.
Qed.

(** An event of the date without [end] makes the computation of that date
    throw. *)
Lemma event_without_end_throws_on_date now event events d slotsForDate :
  In event events ->
  CalendarService.onTargetDate (Dayjs.formatDay d) event = true ->
  end_ event = None ->
  exists e,
    CalendarService.calculateDayAvailableSlots now events d slotsForDate
    = Throw e.
Proof.
  intros Hin Hon Hend.
  unfold CalendarService.calculateDayAvailableSlots, CalendarService.dayEvents.
  destruct (mapM_Throw (CalendarService.toBusyInterval now)
              (filter (CalendarService.onTargetDate (Dayjs.formatDay d))
                 events) event) as [e He].
  - apply filter_In. split; assumption.
  - unfold CalendarService.toBusyInterval. rewrite Hend.
    unfold CalendarService.onTargetDate in Hon.
    destruct (start event) as [st |]; [| discriminate Hon].
    cbn [CalendarService.optDate].
    destruct (date st); eexists; reflexivity.
  - rewrite He. exists e. reflexivity.
Qed.

(** C9.  A timed event of a date that has a [start] and no [end]: the
    availability computation of that date throws a [TypeError], where the
    events without it give the whole core time as one free slot. *)
Theorem event_without_end_throws (now : Z) (day : Day) :
  CalendarService.calculateAvailableSlots now [eventWithoutEnd day 9 0]
    (Dayjs.ofDay day) (Dayjs.ofDay day) []
  = Throw TypeError_dateTime
  /\ CalendarService.calculateAvailableSlots now []
       (Dayjs.ofDay day) (Dayjs.ofDay day) []
     = Ok [{| day_date := day;
              slots := [freeSlot "10:00" "22:00"];
              totalSlots := 1;
              totalMinutes := Some 720 |}].
Proof.
  unfold CalendarService.calculateAvailableSlots, CalendarService.targetDates.
  cbn [List.length Nat.ltb Nat.leb].
  rewrite generateDateRange_one_day.
  cbn [CalendarService.forEachDate filter].
  unfold CalendarService.calculateDayAvailableSlots, CalendarService.dayEvents.
  rewrite formatDay_ofDay. split.
  - cbn [filter CalendarService.onTargetDate CalendarService.optDate
         CalendarService.optDateTime eventWithoutEnd start end_ date dateTime
         atClock datePart].
    rewrite Z.eqb_refl. reflexivity.
  - cbn [filter mapM bind sortBy CalendarService.slotRanges List.length
         Nat.ltb Nat.leb fold_left].
    unfold TIME_CONSTANTS.CORE_TIME_START_HOUR,
      TIME_CONSTANTS.CORE_TIME_END_HOUR.
    rewrite !atHour_ofDay.
    unfold CalendarService.scanRange.
    repeat (cbn -[atClock instant Dayjs.formatHHmm Z.quot Dayjs.msPerMinute];
            rewrite ?ltb_on_day, ?quot_on_day).
    unfold CalendarService.mkSlot. rewrite !formatHHmm_on_day.
    unfold DateTimeUtils.formatDate. rewrite formatDay_ofDay.
    reflexivity.
Qed.

(** ** fetchAllCalendarEvents *)

Lemma allEvents_hasStartDateTime results event :
  In event (CalendarService.allEvents results) ->
  CalendarService.hasStartDateTime event = true.
Proof.
  unfold CalendarService.allEvents. intros Hin.
  apply filter_In in Hin. apply Hin.
Qed.

(** C10.  Every event that [fetchAllCalendarEvents] returns has a
    [start.dateTime]; an event without [start], or whose [start] has no
    [dateTime] (an all-day event has [start.date] in its place), is not
    among the events returned, whatever the results of the calendars. *)
Theorem fetchAllCalendarEvents_only_timed
    (calendarsData : Result (option (list Calendar)))
    (results : list BatchResult) (events : list CalendarEvent) :
  CalendarService.fetchAllCalendarEvents calendarsData results = Ok events ->
  (forall event, In event events ->
     exists st dt, start event = Some st /\ dateTime st = Some dt)
  /\ (forall event,
        CalendarService.optDateTime (start event) = None ->
        ~ In event events).
Proof.
  intros Hcall.
  assert (Hall : forall event, In event events ->
                   CalendarService.hasStartDateTime event = true).
  { unfold CalendarService.fetchAllCalendarEvents in Hcall.
    destruct calendarsData as [[[| calendar calendars] |] | err];
      try discriminate; injection Hcall as <-;
      try (intros event []).
    intros event. apply allEvents_hasStartDateTime. }
  split.
  - intros event Hin. specialize (Hall event Hin).
    unfold CalendarService.hasStartDateTime in Hall.
    destruct (start event) as [st |]; [| discriminate].
    destruct (dateTime st) as [dt |] eqn:Hdt; [| discriminate].
    exists st, dt. split; [reflexivity | exact Hdt].
  - intros event Hnone Hin. specialize (Hall event Hin).
    unfold CalendarService.hasStartDateTime in Hall.
    unfold CalendarService.optDateTime in Hnone.
    destruct (start event) as [st |]; [| discriminate].
    rewrite Hnone in Hall. discriminate.
Qed.

Lemma fetchAllCalendarEvents_only_timed_witness :
  (forall event,
     In event [timedEvent scenarioDay 9 0 10 0] ->
     exists st dt, start event = Some st /\ dateTime st = Some dt)
  /\ (forall event,
        CalendarService.optDateTime (start event) = None ->
        ~ In event [timedEvent scenarioDay 9 0 10 0]).
Proof.
  apply (fetchAllCalendarEvents_only_timed
           (Ok (Some [{| calendar_id := "primary";
                         calendar_summary := "main" |}]))
           [Body {| json_error := None;
                    json_items :=
                      Some [allDayEvent scenarioDay;
                            timedEvent scenarioDay 9 0 10 0] |};
            ErrorSlot (OtherErr "Error" "failed")]).
  reflexivity.
Defined.

(** ** fetchWithRetry *)

Section FetchWithRetry.

Variable parseInt : string -> JsNumber.
Variable env : nat -> AttemptEnv.
Variable url : string.

Lemma fetchWithRetry_unfold st attempt :
  ApiService.fetchWithRetry parseInt env url st attempt
  = match ApiService.tryRequest parseInt (env attempt) url st with
    | (st', trace, inl data) => (st', trace, Ok data)
    | (st', trace, inr error) =>
        if ApiService.shouldRetry error attempt then
          ApiService.afterSleep trace
            (ApiService.calculateBackoffDelay attempt (random (env attempt)))
            (ApiService.fetchWithRetry parseInt env url st' (S attempt))
        else (st', trace, Throw (ApiService.normalizeError error))
    end.
Proof.
  rewrite ApiService.fetchWithRetry_equation_1.
  destruct (ApiService.tryRequest parseInt (env attempt) url st)
    as [[st' trace] [data | error]];
    cbn [ApiService.fetchWithRetry_unfold_clause_1]; [reflexivity |].
  destruct (inspect (ApiService.shouldRetry error attempt)) as [[|] Hretry];
    cbn [ApiService.fetchWithRetry_unfold_clause_1_clause_2];
    rewrite Hretry; reflexivity.
Qed.

(** While the limit holds, the [try] block stops at [checkRateLimit]. *)
Lemma tryRequest_rate_limited e st reset :
  rateLimitResetTime st = Some (Num reset) ->
  reset <> 0 ->
  now_check e < reset ->
  ApiService.tryRequest parseInt e url st
  = (st, [],
     inr (ApiErr (ApiService.mkApiError
                    (rateLimitMessage (ceilDiv (reset - now_wait e) 1000))
                    (Some 429) None true))).
Proof.
  intros Hset Hnz Hfuture.
  unfold ApiService.tryRequest, ApiService.checkRateLimit.
  rewrite Hset.
  apply Z.eqb_neq in Hnz. apply Z.ltb_lt in Hfuture.
  rewrite Hnz, Hfuture. reflexivity.
Qed.

Lemma shouldRetry_rate_limit_flag msg st resp attempt :
  ApiService.shouldRetry
    (ApiErr (ApiService.mkApiError msg st resp true)) attempt = false.
Proof.
  unfold ApiService.shouldRetry.
  destruct (_ <=? _)%nat; reflexivity.
Qed.

(** What a retry may follow. *)
Lemma shouldRetry_true error attempt :
  ApiService.shouldRetry error attempt = true ->
  (S attempt < API_CONSTANTS.MAX_RETRY_ATTEMPTS)%nat
  /\ match error with
     | ApiErr e =>
         isRateLimited e = false /\ isAuthError e = false
         /\ temporaryStatus e
     | OtherErr _ _ => True
     end.
Proof.
  unfold ApiService.shouldRetry, API_CONSTANTS.MAX_RETRY_ATTEMPTS.
  destruct (Nat.leb_spec (3 - 1) attempt) as [Hle | Hlt]; [discriminate |].
  intros Hretry. split; [lia |].
  destruct error as [e | name msg]; [| exact I].
  destruct (isRateLimited e) eqn:Hrl; [discriminate |].
  destruct (isAuthError e) eqn:Hauth; [discriminate |].
  repeat split.
  unfold isTemporary in Hretry. unfold isRateLimited in Hrl.
  unfold temporaryStatus.
  destruct (status e) as [s |]; [| discriminate].
  exists s. split; [reflexivity |].
  apply orb_false_iff in Hrl. destruct Hrl as [Hrl _].
  apply orb_false_iff in Hrl. destruct Hrl as [Hrl _].
  apply orb_false_iff in Hrl. destruct Hrl as [_ H429].
  rewrite H429, orb_false_r in Hretry.
  apply orb_true_iff in Hretry.
  destruct Hretry as [H | H];
    [left; apply Z.leb_le in H; exact H | right; apply Z.eqb_eq in H; exact H].
Qed.

Lemma tryRequest_one_call e st :
  (List.length
     (httpCalls (snd (fst (ApiService.tryRequest parseInt e url st))))
   <= 1)%nat
  /\ sleeps (snd (fst (ApiService.tryRequest parseInt e url st))) = [].
Proof.
  unfold ApiService.tryRequest.
  destruct (ApiService.checkRateLimit e st); [| simpl; split; [lia | reflexivity]].
  destruct (fetched e) as [err | r]; [simpl; split; [lia | reflexivity] |].
  destruct (negb (resp_ok r)).
  - destruct (ApiService.handleErrorResponse parseInt e r _).
    simpl. split; [lia | reflexivity].
  - destruct (resp_json r); simpl; split; try lia; reflexivity.
Qed.

Lemma httpCalls_app t1 t2 : httpCalls (t1 ++ t2) = httpCalls t1 ++ httpCalls t2.
Proof. unfold httpCalls. apply flat_map_app. Qed.

Lemma sleeps_app t1 t2 : sleeps (t1 ++ t2) = sleeps t1 ++ sleeps t2.
Proof. unfold sleeps. apply flat_map_app. Qed.

(** From attempt [attempt] on there are at most [k + 1] attempts when
    [attempt + k] is the last attempt allowed: at most [k + 1] HTTP
    calls and [k] pauses; and an exception that comes out is the one
    that the last attempt caught, normalized. *)
Lemma fetchWithRetry_bounded (k : nat) : forall st attempt,
  (API_CONSTANTS.MAX_RETRY_ATTEMPTS - 1 <= attempt + k)%nat ->
  let '(st', trace, result) :=
    ApiService.fetchWithRetry parseInt env url st attempt in
  (List.length (httpCalls trace) <= k + 1)%nat
  /\ (List.length (sleeps trace) <= k)%nat
  /\ forall err, result = Throw err ->
       exists last stLast traceLast caught,
         (attempt <= last <= attempt + k)%nat
         /\ ApiService.tryRequest parseInt (env last) url stLast
            = (st', traceLast, inr caught)
         /\ ApiService.shouldRetry caught last = false
         /\ err = ApiService.normalizeError caught.
Proof.
  induction k as [| k IH]; intros st attempt Hk;
    rewrite fetchWithRetry_unfold;
    pose proof (tryRequest_one_call (env attempt) st) as [Hcalls Hsleeps];
    destruct (ApiService.tryRequest parseInt (env attempt) url st)
      as [[st1 trace1] [data | error]] eqn:Htry;
    cbn [fst snd] in Hcalls, Hsleeps.
  - rewrite Hsleeps. split; [lia | split; [simpl; lia | discriminate]].
  - destruct (ApiService.shouldRetry error attempt) eqn:Hretry.
    + apply shouldRetry_true in Hretry. lia.
    + rewrite Hsleeps. split; [lia | split; [simpl; lia |]].
      intros err Herr. injection Herr as <-.
      exists attempt, st, trace1, error. repeat split; try lia; assumption.
  - rewrite Hsleeps. split; [lia | split; [simpl; lia | discriminate]].
  - destruct (ApiService.shouldRetry error attempt) eqn:Hretry.
    + specialize (IH st1 (S attempt)).
      destruct (ApiService.fetchWithRetry parseInt env url st1 (S attempt))
        as [[st2 trace2] result].
      destruct IH as (Hc & Hs & Hlast); [lia |].
      cbn [ApiService.afterSleep].
      rewrite httpCalls_app, sleeps_app, !length_app, Hsleeps.
      cbn [httpCalls sleeps flat_map List.length app].
      fold (httpCalls trace2). fold (sleeps trace2).
      split; [lia | split; [lia |]].
      intros err Herr.
      destruct (Hlast err Herr) as (last & stLast & traceLast & caught
                                     & Hrange & Hrun & Hstop & Hnorm).
      exists last, stLast, traceLast, caught.
      repeat split; try lia; assumption.
    + rewrite Hsleeps. split; [lia | split; [simpl; lia |]].
      intros err Herr. injection Herr as <-.
      exists attempt, st, trace1, error. repeat split; try lia; assumption.
Qed.

End FetchWithRetry.

(** C4.  While [rateLimitResetTime] is set and in the future, a call of
    [fetchWithRetry], for any URL and at any attempt, fails at once with
    the rate-limit error (status 429, [isRateLimit]) whose message carries
    the seconds that remain; it makes no HTTP call, sleeps for no retry,
    and leaves the state of the service as it was. *)
Theorem fetchWithRetry_rate_limited
    (parseInt : string -> JsNumber) (env : nat -> AttemptEnv) (url : string)
    (st : ServiceState) (attempt : nat) (reset : Z) :
  rateLimitResetTime st = Some (Num reset) ->
  reset <> 0 ->
  now_check (env attempt) < reset ->
  exists e,
    ApiService.fetchWithRetry parseInt env url st attempt
    = (st, [], Throw (ApiErr e))
    /\ e = ApiService.mkApiError
             (rateLimitMessage
                (ceilDiv (reset - now_wait (env attempt)) 1000))
             (Some 429) None true
    /\ isRateLimited e = true.
Proof.
  intros Hset Hnz Hfuture.
  eexists. split; [| split; [reflexivity | reflexivity]].
  rewrite fetchWithRetry_unfold.
  rewrite (tryRequest_rate_limited parseInt url (env attempt) st reset)
    by assumption.
  rewrite shouldRetry_rate_limit_flag. reflexivity.
Qed.

Lemma fetchWithRetry_rate_limited_witness :
  exists e,
    ApiService.fetchWithRetry (fun _ => NaN)
      (fun _ => {| now_check := 1000; now_wait := 1001;
                   fetched := Rejected (OtherErr "TypeError" "Failed to fetch");
                   now_headers := 1002; now_limited := 1003;
                   random := 0.5 |})
      "https://www.googleapis.com/calendar/v3/users/me/calendarList"
      {| rateLimitResetTime := Some (Num 61000); requestCounts := [] |} 0
    = ({| rateLimitResetTime := Some (Num 61000); requestCounts := [] |}, [],
       Throw (ApiErr e))
    /\ e = ApiService.mkApiError (rateLimitMessage (ceilDiv (61000 - 1001) 1000))
             (Some 429) None true
    /\ isRateLimited e = true.
Proof.
  apply (fetchWithRetry_rate_limited (fun _ => NaN)
           (fun _ => {| now_check := 1000; now_wait := 1001;
                        fetched := Rejected (OtherErr "TypeError" "Failed to fetch");
                        now_headers := 1002; now_limited := 1003;
                        random := 0.5 |})
           "https://www.googleapis.com/calendar/v3/users/me/calendarList"
           {| rateLimitResetTime := Some (Num 61000); requestCounts := [] |}
           0%nat 61000).
  - reflexivity.
  - discriminate.
  - reflexivity.
Defined.

(** What a response of status 429, 401 or 403 throws is not retried,
    unless its body is [null]. *)
Lemma handleErrorResponse_not_retried parseInt e r st attempt :
  resp_status r = 429 \/ resp_status r = 401 \/ resp_status r = 403 ->
  resp_status r = 429 \/ resp_json r <> Some None ->
  ApiService.shouldRetry
    (snd (ApiService.handleErrorResponse parseInt e r st)) attempt
  = false.
Proof.
  intros Hstatus Hbody. unfold ApiService.handleErrorResponse. cbv zeta.
  destruct (resp_status r =? 429) eqn:H429.
  { cbn [snd]. apply shouldRetry_rate_limit_flag. }
  apply Z.eqb_neq in H429.
  destruct Hbody as [Hbody | Hbody]; [contradiction |].
  destruct (resp_json r) as [[data |] |]; [| congruence |].
  - destruct ((resp_status r =? 403) && _) eqn:Hquota.
    { cbn [snd]. apply shouldRetry_rate_limit_flag. }
    cbn [snd]. unfold ApiService.shouldRetry.
    destruct (_ <=? _)%nat; [reflexivity |].
    destruct (isRateLimited _); [reflexivity |].
    unfold isAuthError. cbn [status ApiService.mkApiError].
    destruct Hstatus as [H | [-> | ->]];
      [contradiction | reflexivity | reflexivity].
  - destruct ((resp_status r =? 403) && _) eqn:Hquota.
    { cbn [snd]. apply shouldRetry_rate_limit_flag. }
    cbn [snd]. unfold ApiService.shouldRetry.
    destruct (_ <=? _)%nat; [reflexivity |].
    destruct (isRateLimited _); [reflexivity |].
    unfold isAuthError. cbn [status ApiService.mkApiError].
    destruct Hstatus as [H | [-> | ->]];
      [contradiction | reflexivity | reflexivity].
Qed.

(** A call that starts at attempt 0 makes at most [MAX_RETRY_ATTEMPTS] (3)
    attempts, so at most 3 HTTP calls and 2 pauses, and an exception that
    comes out is the one that its last attempt caught, normalized. *)
Lemma fetchWithRetry_at_most_three
    (parseInt : string -> JsNumber) (env : nat -> AttemptEnv) (url : string)
    (st : ServiceState) :
  let '(st', trace, result) :=
    ApiService.fetchWithRetry parseInt env url st 0 in
  (List.length (httpCalls trace) <= API_CONSTANTS.MAX_RETRY_ATTEMPTS)%nat
  /\ (List.length (sleeps trace) + 1 <= API_CONSTANTS.MAX_RETRY_ATTEMPTS)%nat
  /\ forall err, result = Throw err ->
       exists last stLast traceLast caught,
         (last < API_CONSTANTS.MAX_RETRY_ATTEMPTS)%nat
         /\ ApiService.tryRequest parseInt (env last) url stLast
            = (st', traceLast, inr caught)
         /\ ApiService.shouldRetry caught last = false
         /\ err = ApiService.normalizeError caught.
Proof.
  pose proof (fetchWithRetry_bounded parseInt env url 2 st 0%nat) as Hb.
  destruct (ApiService.fetchWithRetry parseInt env url st 0)
    as [[st' trace] result].
  destruct Hb as (Hc & Hs & Hlast);
    [unfold API_CONSTANTS.MAX_RETRY_ATTEMPTS; lia |].
  unfold API_CONSTANTS.MAX_RETRY_ATTEMPTS.
  split; [lia | split; [lia |]].
  intros err Herr.
  destruct (Hlast err Herr) as (last & stLast & traceLast & caught
                                 & Hrange & Hrun & Hstop & Hnorm).
  exists last, stLast, traceLast, caught.
  repeat split; try lia; assumption.
Qed.

(** While no limit is set, an attempt that receives a response without
    rate-limit headers whose status is neither 2xx nor 429 and whose body
    is [null] hands the [TypeError] of [errorData.error] to [catch]; one
    whose body is an object without [error] hands the [ApiError] of the
    status. *)
Lemma tryRequest_error_body parseInt e url st r :
  rateLimitResetTime st = None ->
  fetched e = Responded r ->
  resp_ok r = false ->
  resp_status r <> 429 ->
  header_Retry_After r = None ->
  header_RateLimit_Reset r = None ->
  (resp_json r = Some None ->
   ApiService.tryRequest parseInt e url st
   = (ApiService.updateRequestCount url st, [HttpCall url],
      inr ApiService.TypeError_error))
  /\ (resp_json r = Some (Some emptyJson) ->
      ApiService.tryRequest parseInt e url st
      = (ApiService.updateRequestCount url st, [HttpCall url],
         inr (ApiErr (ApiService.mkApiError (httpStatusLine r)
                        (Some (resp_status r)) (Some emptyJson) false)))).
Proof.
  intros Hnone Hresp Hok H429 Hretry Hreset.
  apply Z.eqb_neq in H429.
  split; intros Hbody;
    unfold ApiService.tryRequest, ApiService.checkRateLimit,
      ApiService.parseRateLimitHeaders, ApiService.handleErrorResponse;
    cbv zeta;
    rewrite Hnone, Hresp, Hok, Hretry, Hreset, Hbody, H429;
    cbn [negb truthy]; [reflexivity |].
  unfold ApiService.errorMessageOf, emptyJson.
  cbn [json_error truthy andb]. rewrite andb_false_r. reflexivity.
Qed.

(** C5.  A response of status 401 (Unauthorized) whose body is the JSON
    value [null] is retried: [handleErrorResponse] reads [errorData.error]
    of [null], which raises a [TypeError] in place of the [ApiError] of
    status 401, and [shouldRetry] retries an exception that is not an
    [ApiError].  When the three attempts receive this response the call
    makes three HTTP calls with the two backoff pauses between them, and
    what it throws in the end is an [ApiError] without status.  The same
    response with the body [{}] is not retried: one HTTP call, and the
    [ApiError] of status 401. *)
Theorem status_401_null_body_is_retried
    (parseInt : string -> JsNumber) (url : string)
    (counts : list (string * nat)) :
  (exists st',
     ApiService.fetchWithRetry parseInt
       (respondsAlways (unauthorized (Some None))) url
       {| rateLimitResetTime := None; requestCounts := counts |} 0
     = (st',
        [HttpCall url; Sleep (ApiService.calculateBackoffDelay 0 0.5);
         HttpCall url; Sleep (ApiService.calculateBackoffDelay 1 0.5);
         HttpCall url],
        Throw (ApiErr (ApiService.mkApiError
                         "Cannot read properties of null (reading 'error')"
                         None None false))))
  /\ (exists st',
        ApiService.fetchWithRetry parseInt
          (respondsAlways (unauthorized (Some (Some emptyJson)))) url
          {| rateLimitResetTime := None; requestCounts := counts |} 0
        = (st', [HttpCall url],
           Throw (ApiErr (ApiService.mkApiError "HTTP 401: Unauthorized"
                            (Some 401) (Some emptyJson) false)))).
Proof.
  set (st0 := {| rateLimitResetTime := None; requestCounts := counts |}).
  split; eexists.
  - rewrite fetchWithRetry_unfold.
    rewrite (proj1 (tryRequest_error_body parseInt
                      (respondsAlways (unauthorized (Some None)) 0%nat) url
                      st0 (unauthorized (Some None)) eq_refl eq_refl eq_refl
                      ltac:(discriminate) eq_refl eq_refl) eq_refl).
    cbn [ApiService.shouldRetry ApiService.TypeError_error
         API_CONSTANTS.MAX_RETRY_ATTEMPTS Nat.sub Nat.leb].
    rewrite fetchWithRetry_unfold.
    rewrite (proj1 (tryRequest_error_body parseInt
                      (respondsAlways (unauthorized (Some None)) 1%nat) url
                      (ApiService.updateRequestCount url st0)
                      (unauthorized (Some None)) eq_refl eq_refl eq_refl
                      ltac:(discriminate) eq_refl eq_refl) eq_refl).
    cbn [ApiService.shouldRetry ApiService.TypeError_error
         API_CONSTANTS.MAX_RETRY_ATTEMPTS Nat.sub Nat.leb].
    rewrite fetchWithRetry_unfold.
    rewrite (proj1 (tryRequest_error_body parseInt
                      (respondsAlways (unauthorized (Some None)) 2%nat) url
                      (ApiService.updateRequestCount url
                         (ApiService.updateRequestCount url st0))
                      (unauthorized (Some None)) eq_refl eq_refl eq_refl
                      ltac:(discriminate) eq_refl eq_refl) eq_refl).
    cbn [ApiService.shouldRetry ApiService.TypeError_error
         API_CONSTANTS.MAX_RETRY_ATTEMPTS Nat.sub Nat.leb
         ApiService.afterSleep app respondsAlways random].
    reflexivity.
  - rewrite fetchWithRetry_unfold.
    rewrite (proj2 (tryRequest_error_body parseInt
                      (respondsAlways (unauthorized (Some (Some emptyJson)))
                         0%nat) url
                      st0 (unauthorized (Some (Some emptyJson)))
                      eq_refl eq_refl eq_refl
                      ltac:(discriminate) eq_refl eq_refl) eq_refl).
    reflexivity.
Qed.

(** ** calculateBackoffDelay *)

Lemma backoffBase_positive attempt :
  (0 < backoffBase attempt)%Q
  /\ (backoffBase attempt <= inject_Z API_CONSTANTS.MAX_RETRY_DELAY_MS)%Q.
Proof.
  unfold backoffBase. split; [| apply Q.le_min_r].
  apply Q.min_glb_lt; [| reflexivity].
  unfold API_CONSTANTS.INITIAL_RETRY_DELAY_MS,
    API_CONSTANTS.EXPONENTIAL_BACKOFF_MULTIPLIER.
  rewrite <- inject_Z_mult. change 0%Q with (inject_Z 0).
  rewrite <- Zlt_Qlt.
  assert (0 < 2 ^ Z.of_nat attempt) by (apply Z.pow_pos_nonneg; lia).
  lia.
Qed.

(** The delay is the base moved by a jitter of [0.25 * (random - 0.5)] of
    it: by 12.5% of the base at most, to either side. *)
Lemma calculateBackoffDelay_jitter attempt (random : Q) :
  (0 <= random)%Q -> (random < 1)%Q ->
  (ApiService.calculateBackoffDelay attempt random
   == backoffBase attempt * (0.875 + 0.25 * random))%Q
  /\ (0.875 * backoffBase attempt
      <= ApiService.calculateBackoffDelay attempt random)%Q
  /\ (ApiService.calculateBackoffDelay attempt random
      < 1.125 * backoffBase attempt)%Q.
Proof.
  intros Hlo Hhi.
  destruct (backoffBase_positive attempt) as [Hpos _].
  unfold ApiService.calculateBackoffDelay. fold (backoffBase attempt).
  set (b := backoffBase attempt) in *.
  assert (Heq : (b + b * 0.25 * (random - 0.5) == b * (0.875 + 0.25 * random))%Q)
    by ring.
  assert (Hnonneg : (0 <= b + b * 0.25 * (random - 0.5))%Q).
  { rewrite Heq. apply Qmult_le_0_compat; lra. }
  rewrite (Q.max_l _ _ Hnonneg).
  split; [exact Heq | rewrite Heq].
  assert (Hbr : (0 <= b * random)%Q) by (apply Qmult_le_0_compat; lra).
  assert (Hbr' : (b * random < b * 1)%Q)
    by (apply Qmult_lt_l; assumption).
  split; lra.
Qed.

(** C6.  At attempt 0 the base delay is 1000 ms.  With the lowest draw of
    [Math.random], 0, [calculateBackoffDelay] returns 875 ms, which is the
    base less 12.5%; a jitter of 25% of the base would reach 750 ms. *)
Theorem calculateBackoffDelay_lowest_draw :
  (backoffBase 0 == 1000)%Q
  /\ (ApiService.calculateBackoffDelay 0 0 == 875)%Q
  /\ ~ (ApiService.calculateBackoffDelay 0 0 == 0.75 * backoffBase 0)%Q.
Proof.
  repeat split; try (vm_compute; reflexivity).
  vm_compute. discriminate.
Qed.

(** ** batchRequest *)

Lemma batchRequest_split_unfold requests i batches :
  ApiService.batchRequest_split requests i batches
  = if (i <? List.length requests)%nat then
      ApiService.batchRequest_split requests
        (i + API_CONSTANTS.BATCH_SIZE)%nat
        (batches ++ [slice i (i + API_CONSTANTS.BATCH_SIZE) requests])
    else batches.
Proof.
  rewrite ApiService.batchRequest_split_equation_1.
  destruct (inspect (i <? List.length requests)%nat) as [[|] Htest];
    cbn [ApiService.batchRequest_split_unfold_clause_1];
    rewrite Htest; reflexivity.
Qed.

(** The first loop cuts what is left of the requests from index [i] on
    into batches of [BATCH_SIZE], the last one shorter when it must be. *)
Lemma batchRequest_split_spec requests (n : nat) : forall i batches,
  (List.length requests - i <= n)%nat ->
  let out := ApiService.batchRequest_split requests i batches in
  List.concat out = List.concat batches ++ skipn i requests
  /\ List.length out
     = (List.length batches
        + ceilDivNat (List.length requests - i) API_CONSTANTS.BATCH_SIZE)%nat
  /\ (Forall (fun batch =>
                (1 <= List.length batch <= API_CONSTANTS.BATCH_SIZE)%nat)
        batches ->
      Forall (fun batch =>
                (1 <= List.length batch <= API_CONSTANTS.BATCH_SIZE)%nat)
        out).
Proof.
  unfold ceilDivNat, API_CONSTANTS.BATCH_SIZE.
  induction n as [| n IH]; intros i batches Hn;
    rewrite batchRequest_split_unfold; unfold API_CONSTANTS.BATCH_SIZE;
    destruct (Nat.ltb_spec i (List.length requests)) as [Hlt | Hge];
    try lia.
  - cbv zeta. rewrite skipn_all2 by lia. rewrite app_nil_r.
    replace (List.length requests - i)%nat with 0%nat by lia.
    split; [reflexivity | split; [simpl; lia | auto]].
  - specialize (IH (i + 5)%nat (batches ++ [slice i (i + 5) requests])).
    cbv zeta in IH |- *.
    destruct IH as (Hcat & Hlen & Hall); [lia |].
    assert (Hslice : List.length (slice i (i + 5) requests)
                     = Nat.min 5 (List.length requests - i)).
    { unfold slice. rewrite length_firstn, length_skipn.
      replace (i + 5 - i)%nat with 5%nat by lia. reflexivity. }
    split; [| split].
    + rewrite Hcat, concat_app. cbn [List.concat]. rewrite app_nil_r, <- app_assoc.
      f_equal. unfold slice.
      replace (i + 5 - i)%nat with 5%nat by lia.
      rewrite <- (firstn_skipn 5 (skipn i requests)) at 2.
      f_equal. rewrite skipn_skipn. f_equal. lia.
    + rewrite Hlen, length_app. cbn [List.length].
      destruct (Nat.le_gt_cases 5 (List.length requests - i)) as [Hbig | Hsmall].
      * replace (List.length requests - i + 5 - 1)%nat
          with (1 * 5 + (List.length requests - (i + 5) + 5 - 1))%nat by lia.
        rewrite Nat.div_add_l by discriminate. lia.
      * replace (List.length requests - (i + 5))%nat with 0%nat by lia.
        assert (Hone : ((List.length requests - i + 5 - 1) / 5 = 1)%nat).
        { symmetry.
          apply Nat.div_unique with (r := (List.length requests - i - 1)%nat);
            lia. }
        rewrite Hone. change ((0 + 5 - 1) / 5)%nat with 0%nat. lia.
    + intros Hb. apply Hall. apply Forall_app. split; [exact Hb |].
      constructor; [| constructor]. lia.
  - cbv zeta. rewrite skipn_all2 by lia. rewrite app_nil_r.
    replace (List.length requests - i)%nat with 0%nat by lia.
    split; [reflexivity | split; [simpl; lia | auto]].
Qed.

Section BatchRun.

Variable executeRequest : nat -> Request -> Result Json.

Lemma runBatch_spec batch : forall n,
  ApiService.runBatch executeRequest n batch
  = (settleAll executeRequest n batch, submissions n batch).
Proof.
  induction batch as [| req batch IH]; intros n; simpl.
  - reflexivity.
  - rewrite IH. reflexivity.
Qed.

Lemma settleAll_app xs ys n :
  settleAll executeRequest n (xs ++ ys)
  = settleAll executeRequest n xs
    ++ settleAll executeRequest (n + List.length xs) ys.
Proof.
  revert n. induction xs as [| x xs IH]; intros n; simpl.
  - rewrite Nat.add_0_r. reflexivity.
  - rewrite IH. do 3 f_equal. lia.
Qed.

Lemma settleAll_length requests n :
  List.length (settleAll executeRequest n requests) = List.length requests.
Proof.
  revert n. induction requests as [| req requests IH]; intros n; simpl;
    [reflexivity | rewrite IH; reflexivity].
Qed.

Lemma settleAll_nth requests : forall n i req,
  nth_error requests i = Some req ->
  nth_error (settleAll executeRequest n requests) i
  = Some (ApiService.settle executeRequest (n + i) req).
Proof.
  induction requests as [| r requests IH]; intros n [| i] req Hnth;
    simpl in *; try discriminate.
  - injection Hnth as ->. rewrite Nat.add_0_r. reflexivity.
  - rewrite (IH (S n) i req Hnth). do 2 f_equal. lia.
Qed.

(** The second loop, entered with [index] batches done and the batches
    that remain: it fills the slots batch after batch and submits every
    request of every batch, whatever the requests before it settle to,
    with a pause after each batch but the last. *)
Lemma batchRequest_run_spec total batches : forall index results trace,
  total = (index + List.length batches)%nat ->
  ApiService.batchRequest_run executeRequest total index batches
    results trace
  = (results
       ++ settleAll executeRequest (List.length results) (List.concat batches),
     trace ++ batchesTrace (List.length results) batches).
Proof.
  induction batches as [| batch rest IH]; intros index results trace Htotal;
    cbn [ApiService.batchRequest_run List.concat batchesTrace].
  - simpl. rewrite !app_nil_r. reflexivity.
  - rewrite runBatch_spec. cbn [List.length] in Htotal.
    destruct rest as [| next rest].
    + destruct (Nat.ltb_spec index (total - 1)) as [Hlt | Hge];
        [cbn [List.length] in Htotal; lia |].
      cbn [ApiService.batchRequest_run List.concat].
      rewrite !app_nil_r. reflexivity.
    + destruct (Nat.ltb_spec index (total - 1)) as [Hlt | Hge];
        [| cbn [List.length] in Htotal; lia].
      rewrite IH by lia.
      rewrite length_app, settleAll_length, settleAll_app.
      rewrite <- !app_assoc. reflexivity.
Qed.

End BatchRun.

(** C7.  [batchRequest] on [M] requests runs them as [ceil(M / 5)]
    consecutive batches of 1 to [BATCH_SIZE] (5) requests: what it does
    outside is to submit the requests of the first batch, pause for a
    second, submit those of the second, and so on, with no pause after the
    last batch.  The batches and this trace are the same whatever the
    requests settle to, so a request that fails stops no other request.
    It returns [M] results, the [i]-th being what the [i]-th request
    settles to, with [{ error }] in the slot of a request that fails. *)
Theorem batchRequest_batches (requests : list Request) :
  exists batches,
    List.concat batches = requests
    /\ List.length batches
       = ceilDivNat (List.length requests) API_CONSTANTS.BATCH_SIZE
    /\ Forall (fun batch =>
                 (1 <= List.length batch <= API_CONSTANTS.BATCH_SIZE)%nat)
         batches
    /\ forall executeRequest : nat -> Request -> Result Json,
         let '(results, trace) :=
           ApiService.batchRequest executeRequest requests in
         trace = batchesTrace 0 batches
         /\ List.length results = List.length requests
         /\ (forall i req,
               nth_error requests i = Some req ->
               nth_error results i
               = Some match executeRequest i req with
                      | Ok data => Body data
                      | Throw error => ErrorSlot error
                      end).
Proof.
  exists (ApiService.batchRequest_split requests 0 []).
  destruct (batchRequest_split_spec requests (List.length requests) 0%nat []
              ltac:(lia)) as (Hcat & Hlen & Hall).
  cbv zeta in Hcat, Hlen, Hall.
  cbn [List.concat skipn app List.length Nat.add] in Hcat, Hlen.
  rewrite Nat.sub_0_r in Hlen.
  split; [exact Hcat |].
  split; [exact Hlen |].
  split; [apply Hall; constructor |].
  intros executeRequest. unfold ApiService.batchRequest. cbv zeta.
  rewrite (batchRequest_run_spec executeRequest _ _ 0%nat [] [])
    by reflexivity.
  cbn [app List.length]. rewrite Hcat.
  split; [reflexivity |].
  split; [apply settleAll_length |].
  intros i req Hnth.
  rewrite (settleAll_nth executeRequest requests 0%nat i req Hnth).
  reflexivity.
Qed.

(** Six requests run as a batch of five, a pause, and a batch of one; the
    failure of the second request leaves the others as they are. *)
Example batchRequest_six_requests :
  ApiService.batchRequest
    (fun n _ => if (n =? 1)%nat then Throw (OtherErr "Error" "failed")
                else Ok emptyJson)
    (map (fun u => {| url := u; options_headers := [] |})
       ["a"; "b"; "c"; "d"; "e"; "f"])
  = ([Body emptyJson; ErrorSlot (OtherErr "Error" "failed"); Body emptyJson;
      Body emptyJson; Body emptyJson; Body emptyJson],
     [Submit 0 "a"; Submit 1 "b"; Submit 2 "c"; Submit 3 "d"; Submit 4 "e";
      Sleep 1000; Submit 5 "f"]).
Proof. vm_compute. reflexivity. Qed.

(** * Further properties *)

(** ** The ordered map *)

Section JsMapFacts.

Context {V : Type}.

Lemma JsMap_get_set_same (m : list (string * V)) k v :
  JsMap_get (JsMap_set m k v) k = Some v.
Proof.
  induction m as [| [k' v'] m IH]; simpl.
  - rewrite String.eqb_refl. reflexivity.
  - destruct (k' =? k)%string eqn:Hk; simpl.
    + rewrite String.eqb_refl. reflexivity.
    + rewrite Hk. exact IH.
Qed.

Lemma JsMap_get_set_other (m : list (string * V)) k v k0 :
  k0 <> k -> JsMap_get (JsMap_set m k v) k0 = JsMap_get m k0.
Proof.
  intros Hne. induction m as [| [k' v'] m IH]; simpl.
  - destruct (String.eqb_spec k k0); [congruence | reflexivity].
  - destruct (String.eqb_spec k' k) as [-> | Hk]; simpl.
    + destruct (String.eqb_spec k k0); [congruence | reflexivity].
    + destruct (k' =? k0)%string; [reflexivity | exact IH].
Qed.

Lemma JsMap_get_delete_same (m : list (string * V)) k :
  JsMap_get (JsMap_delete m k) k = None.
Proof.
  unfold JsMap_delete. induction m as [| [k' v'] m IH]; simpl.
  - reflexivity.
  - destruct (String.eqb_spec k' k) as [-> | Hk]; simpl; [exact IH |].
    destruct (String.eqb_spec k' k); [contradiction | exact IH].
Qed.

Lemma JsMap_get_delete_other (m : list (string * V)) k k0 :
  k0 <> k -> JsMap_get (JsMap_delete m k) k0 = JsMap_get m k0.
Proof.
  intros Hne. unfold JsMap_delete.
  induction m as [| [k' v'] m IH]; simpl.
  - reflexivity.
  - destruct (String.eqb_spec k' k) as [-> | Hk]; simpl.
    + destruct (String.eqb_spec k k0); [congruence | exact IH].
    + destruct (k' =? k0)%string; [reflexivity | exact IH].
Qed.


Lemma JsMap_set_length (m : list (string * V)) k v :
  (List.length (JsMap_set m k v) <= S (List.length m))%nat.
Proof.
  induction m as [| [k' v'] m IH]; simpl; [lia |].
  destruct (k' =? k)%string; simpl; lia.
Qed.

Lemma JsMap_delete_length (m : list (string * V)) k :
  (List.length (JsMap_delete m k) <= List.length m)%nat.
Proof. unfold JsMap_delete. apply filter_length_le. Qed.

Lemma JsMap_delete_first_length (m : list (string * V)) k :
  JsMap_firstKey m = Some k ->
  (S (List.length (JsMap_delete m k)) <= List.length m)%nat.
Proof.
  destruct m as [| [k' v'] m]; simpl; [discriminate |].
  intros H. injection H as ->. unfold JsMap_delete. simpl.
  rewrite String.eqb_refl. simpl.
  pose proof (filter_length_le (fun kv => negb (fst kv =? k)%string) m). lia.
Qed.

End JsMapFacts.

(** ** ResponseCache *)

(** X1.  What [set] stores, [get] returns for the same URL and options
    as long as no more than [ttl] milliseconds have passed, and the cache
    is left as it is. *)
Theorem cache_get_after_set (c : ResponseCache) (now now' : Z) (url : string)
    (options : RequestOptions) (data : Json) :
  now' - now <= ttl c ->
  Cache.get (Cache.set c now url options data) now' url options
  = (Cache.set c now url options data, Some data).
Proof.
  intros Hfresh. unfold Cache.get.
  unfold Cache.set at 1. cbn [cache Cache.withCache].
  rewrite JsMap_get_set_same. cbn [entry_timestamp entry_data].
  unfold Cache.set at 1. cbn [ttl Cache.withCache].
  destruct (Z.ltb_spec (ttl c) (now' - now)); [lia | reflexivity].
Qed.

Lemma cache_get_after_set_witness :
  Cache.get
    (Cache.set (Cache.create 100 5) 1000 "https://example.org/a"
       {| method := None; body := None; headers := [] |} emptyJson)
    301000 "https://example.org/a"
    {| method := None; body := None; headers := [] |}
  = (Cache.set (Cache.create 100 5) 1000 "https://example.org/a"
       {| method := None; body := None; headers := [] |} emptyJson,
     Some emptyJson).
Proof.
  apply (cache_get_after_set (Cache.create 100 5) 1000 301000).
  vm_compute. discriminate.
Defined.

(** X2.  Once more than [ttl] milliseconds have passed since [set], [get]
    returns [null] and removes the entry: no later [get], at any instant,
    finds it. *)
Theorem cache_get_expired (c : ResponseCache) (now now' : Z) (url : string)
    (options : RequestOptions) (data : Json) :
  ttl c < now' - now ->
  let '(c', found) :=
    Cache.get (Cache.set c now url options data) now' url options in
  found = None
  /\ JsMap_get (cache c') (Cache.generateKey url options) = None
  /\ forall later, snd (Cache.get c' later url options) = None.
Proof.
  intros Hold. unfold Cache.get at 1.
  unfold Cache.set at 1. cbn [cache Cache.withCache].
  rewrite JsMap_get_set_same. cbn [entry_timestamp entry_data].
  unfold Cache.set at 1. cbn [ttl Cache.withCache].
  destruct (Z.ltb_spec (ttl c) (now' - now)); [| lia].
  split; [reflexivity |].
  cbn [cache Cache.withCache]. split; [apply JsMap_get_delete_same |].
  intros later. unfold Cache.get. cbn [cache Cache.withCache].
  rewrite JsMap_get_delete_same. reflexivity.
Qed.

Lemma cache_get_expired_witness :
  let '(c', found) :=
    Cache.get
      (Cache.set (Cache.create 100 5) 1000 "https://example.org/a"
         {| method := None; body := None; headers := [] |} emptyJson)
      301001 "https://example.org/a"
      {| method := None; body := None; headers := [] |} in
  found = None
  /\ JsMap_get (cache c')
       (Cache.generateKey "https://example.org/a"
          {| method := None; body := None; headers := [] |}) = None
  /\ forall later,
       snd (Cache.get c' later "https://example.org/a"
              {| method := None; body := None; headers := [] |}) = None.
Proof.
  apply (cache_get_expired (Cache.create 100 5) 1000 301001).
  vm_compute. reflexivity.
Defined.

Lemma cache_set_size (c : ResponseCache) now url options data :
  1 <= maxSize c ->
  cacheSize c <= maxSize c ->
  cacheSize (Cache.set c now url options data) <= maxSize c.
Proof.
  unfold cacheSize, Cache.set. cbn [cache Cache.withCache].
  intros Hmax Hsize.
  match goal with
  | |- Z.of_nat (List.length (JsMap_set ?m ?k ?v)) <= _ =>
      pose proof (JsMap_set_length m k v) as Hset
  end.
  destruct (Z.leb_spec (maxSize c) (Z.of_nat (List.length (cache c))))
    as [Hfull | Hroom]; [| lia].
  destruct (JsMap_firstKey (cache c)) as [oldest |] eqn:Hfirst.
  - pose proof (JsMap_delete_first_length (cache c) oldest Hfirst). lia.
  - destruct (cache c); [simpl in *; lia | ].
    destruct p. discriminate Hfirst.
Qed.

Lemma applyCacheOp_size (c : ResponseCache) op :
  1 <= maxSize c ->
  cacheSize c <= maxSize c ->
  cacheSize (applyCacheOp c op) <= maxSize c
  /\ maxSize (applyCacheOp c op) = maxSize c.
Proof.
  intros Hmax Hsize. destruct op as [now u o | now u o d | u o |]; simpl.
  - unfold Cache.get. destruct (JsMap_get _ _) as [cached |];
      [| split; [exact Hsize | reflexivity]].
    destruct (_ <? _); cbn [fst]; [| split; [exact Hsize | reflexivity]].
    split; [| reflexivity]. unfold cacheSize in *. cbn [cache Cache.withCache].
    pose proof (JsMap_delete_length (cache c) (Cache.generateKey u o)). lia.
  - split; [apply cache_set_size; assumption | reflexivity].
  - split; [| reflexivity]. unfold cacheSize in *. cbn [cache Cache.withCache Cache.delete].
    pose proof (JsMap_delete_length (cache c) (Cache.generateKey u o)). lia.
  - split; [| reflexivity]. unfold cacheSize. simpl. lia.
Qed.

(** X3.  A cache made for at most [maxSize] entries ([maxSize] at least
    1) never holds more, whatever [get], [set], [delete] and [clear] are
    applied to it and in whatever order. *)
Theorem cache_size_bounded (maxSize0 ttlMinutes : Z) (ops : list CacheOp) :
  1 <= maxSize0 ->
  cacheSize (fold_left applyCacheOp ops (Cache.create maxSize0 ttlMinutes))
  <= maxSize0.
Proof.
  intros Hmax.
  assert (Hgen : forall c,
            maxSize c = maxSize0 -> cacheSize c <= maxSize0 ->
            cacheSize (fold_left applyCacheOp ops c) <= maxSize0).
  { induction ops as [| op ops IH]; intros c Hm Hc; simpl; [exact Hc |].
    destruct (applyCacheOp_size c op) as [Hsize Hsame]; try lia.
    apply IH; lia. }
  apply Hgen; [reflexivity | unfold cacheSize; simpl; lia].
Qed.

Lemma cache_size_bounded_witness :
  cacheSize
    (fold_left applyCacheOp
       [OpSet 0 "a" {| method := None; body := None; headers := [] |} emptyJson;
        OpSet 1 "b" {| method := None; body := None; headers := [] |} emptyJson;
        OpSet 2 "c" {| method := None; body := None; headers := [] |} emptyJson]
       (Cache.create 2 5))
  <= 2.
Proof.
  apply (cache_size_bounded 2 5). lia.
Defined.

(** X4.  When the cache is full ([size >= maxSize]), [set] drops the key
    that was inserted first, also when the key that is set was already
    cached; every other key keeps its entry, and the key that is set has
    the new one. *)
Theorem cache_set_evicts_oldest (c : ResponseCache) (now : Z) (url : string)
    (options : RequestOptions) (data : Json) (oldest : string) :
  maxSize c <= cacheSize c ->
  JsMap_firstKey (cache c) = Some oldest ->
  oldest <> Cache.generateKey url options ->
  let c' := Cache.set c now url options data in
  JsMap_get (cache c') oldest = None
  /\ JsMap_get (cache c') (Cache.generateKey url options)
     = Some {| entry_data := data; entry_timestamp := now |}
  /\ forall k, k <> oldest -> k <> Cache.generateKey url options ->
       JsMap_get (cache c') k = JsMap_get (cache c) k.
Proof.
  unfold cacheSize. intros Hfull Hfirst Hne. cbv zeta.
  unfold Cache.set. cbn [cache Cache.withCache].
  destruct (Z.leb_spec (maxSize c) (Z.of_nat (List.length (cache c))));
    [| lia].
  rewrite Hfirst. split; [| split].
  - rewrite JsMap_get_set_other by assumption. apply JsMap_get_delete_same.
  - apply JsMap_get_set_same.
  - intros k Hk Hkey.
    rewrite JsMap_get_set_other by assumption.
    apply JsMap_get_delete_other. assumption.
Qed.

Lemma cache_set_evicts_oldest_witness :
  let c :=
    fold_left applyCacheOp
      [OpSet 0 "a" {| method := None; body := None; headers := [] |} emptyJson;
       OpSet 1 "b" {| method := None; body := None; headers := [] |} emptyJson]
      (Cache.create 2 5) in
  let c' :=
    Cache.set c 2 "b" {| method := None; body := None; headers := [] |}
      emptyJson in
  JsMap_get (cache c') "GET:a:" = None
  /\ JsMap_get (cache c')
       (Cache.generateKey "b" {| method := None; body := None; headers := [] |})
     = Some {| entry_data := emptyJson; entry_timestamp := 2 |}
  /\ forall k, k <> "GET:a:" ->
       k <> Cache.generateKey "b"
              {| method := None; body := None; headers := [] |} ->
       JsMap_get (cache c') k = JsMap_get (cache c) k.
Proof.
  apply (cache_set_evicts_oldest
           (fold_left applyCacheOp
              [OpSet 0 "a" {| method := None; body := None; headers := [] |}
                 emptyJson;
               OpSet 1 "b" {| method := None; body := None; headers := [] |}
                 emptyJson]
              (Cache.create 2 5))
           2 "b" {| method := None; body := None; headers := [] |} emptyJson
           "GET:a:").
  - vm_compute. discriminate.
  - reflexivity.
  - vm_compute. discriminate.
Defined.

(** ** getCached *)





(** ** ConcurrencyManager *)

Lemma removeOne_length task tasks :
  existsb (Nat.eqb task) tasks = true ->
  S (List.length (removeOne task tasks)) = List.length tasks.
Proof.
  induction tasks as [| t rest IH]; simpl; [discriminate |].
  destruct (Nat.eqb_spec t task) as [-> | Hne].
  - reflexivity.
  - destruct (Nat.eqb_spec task t) as [-> | _]; [contradiction |].
    simpl. intros H. rewrite (IH H). reflexivity.
Qed.

(** [processQueue] restores the invariant when at most one task more
    than the bound allows could be waited for. *)
Lemma processQueue_invariant submitted0 m :
  activeRequests m = Z.of_nat (List.length (pending m)) ->
  (0 <= maxConcurrent m -> activeRequests m <= maxConcurrent m) ->
  started m ++ queue m = submitted0 ->
  (forall t rest, queue m = t :: rest -> rest <> [] ->
     maxConcurrent m <= activeRequests m + 1) ->
  managerInvariant submitted0 (Manager.processQueue m)
  /\ maxConcurrent (Manager.processQueue m) = maxConcurrent m.
Proof.
  intros Hcount Hbound Hfifo Hwait. unfold Manager.processQueue.
  destruct (Z.leb_spec (maxConcurrent m) (activeRequests m)) as [Hfull | Hroom].
  - split; [| reflexivity].
    split; [exact Hcount | split; [exact Hbound | split; [exact Hfifo |]]].
    intros _. exact Hfull.
  - destruct (queue m) as [| task rest] eqn:Hq.
    + split; [| reflexivity].
      split; [exact Hcount | split; [exact Hbound | split]].
      * rewrite Hq. exact Hfifo.
      * rewrite Hq. intros H. exfalso. apply H. reflexivity.
    + split; [| reflexivity]. unfold managerInvariant.
      cbn [activeRequests pending maxConcurrent started queue].
      split; [| split; [| split]].
      * rewrite length_app. simpl. lia.
      * intros _. lia.
      * rewrite <- app_assoc. exact Hfifo.
      * intros Hrest. exact (Hwait task rest eq_refl Hrest).
Qed.

Lemma manager_step_invariant submitted0 m event m' :
  managerInvariant submitted0 m ->
  Manager.step m event = Some m' ->
  managerInvariant (submitted0 ++ executed [event]) m'
  /\ maxConcurrent m' = maxConcurrent m.
Proof.
  intros (Hcount & Hbound & Hfifo & Hwait).
  destruct event as [task | task]; cbn [Manager.step executed flat_map].
  - intros H. injection H as <-. unfold Manager.execute.
    match goal with
    | |- context [Manager.processQueue ?m0] =>
        exact (processQueue_invariant (submitted0 ++ [task] ++ []) m0
                 Hcount Hbound
                 ltac:(cbn [started queue]; rewrite app_nil_r, app_assoc, Hfifo;
                       reflexivity)
                 ltac:(cbn [queue activeRequests maxConcurrent];
                       intros t rest Hq Hrest;
                       destruct (queue m) as [| t0 q0] eqn:Hq0;
                       [ simpl in Hq; injection Hq as _ <-; contradiction
                       | assert (maxConcurrent m <= activeRequests m)
                           by (apply Hwait; discriminate); lia ]))
    end.
  - destruct (existsb (Nat.eqb task) (pending m)) eqn:Hpending;
      [| discriminate].
    intros H. injection H as <-. unfold Manager.settled.
    pose proof (removeOne_length task (pending m) Hpending) as Hlen.
    match goal with
    | |- context [Manager.processQueue ?m0] =>
        exact (processQueue_invariant (submitted0 ++ []) m0
                 ltac:(cbn [activeRequests pending]; lia)
                 ltac:(cbn [activeRequests maxConcurrent]; intros Hmax;
                       specialize (Hbound Hmax); lia)
                 ltac:(cbn [started queue]; rewrite app_nil_r; exact Hfifo)
                 ltac:(cbn [queue activeRequests maxConcurrent];
                       intros t rest Hq Hrest;
                       assert (maxConcurrent m <= activeRequests m)
                         by (apply Hwait; rewrite Hq; discriminate);
                       lia))
    end.
Qed.

Lemma manager_run_invariant events : forall submitted0 m m',
  managerInvariant submitted0 m ->
  Manager.run m events = Some m' ->
  managerInvariant (submitted0 ++ executed events) m'
  /\ maxConcurrent m' = maxConcurrent m.
Proof.
  induction events as [| event rest IH]; intros submitted0 m m' Hinv;
    cbn [Manager.run].
  - intros H. injection H as <-. rewrite app_nil_r. split; [exact Hinv | reflexivity].
  - destruct (Manager.step m event) as [m1 |] eqn:Hstep; [| discriminate].
    intros Hrun.
    destruct (manager_step_invariant _ _ _ _ Hinv Hstep) as [Hinv1 Hmax1].
    destruct (IH _ _ _ Hinv1 Hrun) as [Hinv' Hmax'].
    split; [| congruence].
    replace (submitted0 ++ executed (event :: rest))
      with ((submitted0 ++ executed [event]) ++ executed rest);
      [exact Hinv' |].
    rewrite <- app_assoc. f_equal. unfold executed. simpl.
    rewrite app_nil_r. reflexivity.
Qed.

Lemma manager_create_invariant maxc :
  managerInvariant [] (Manager.create maxc).
Proof.
  unfold managerInvariant, Manager.create. simpl.
  repeat split; auto. intros H. contradiction.
Qed.

(** X7.  However calls of [execute] and settlements follow one another,
    [activeRequests] never exceeds [maxConcurrent] (not negative), never
    falls below zero, and is the number of tasks whose [requestFn] is
    pending. *)
Theorem manager_never_exceeds (maxc : Z) (events : list ManagerEvent)
    (m : ConcurrencyManager) :
  0 <= maxc ->
  Manager.run (Manager.create maxc) events = Some m ->
  0 <= activeRequests m <= maxc
  /\ activeRequests m = Z.of_nat (List.length (pending m)).
Proof.
  intros Hmax Hrun.
  destruct (manager_run_invariant events [] _ _
              (manager_create_invariant maxc) Hrun)
    as [(Hcount & Hbound & _) Hsame].
  cbn [maxConcurrent Manager.create] in Hsame.
  rewrite Hsame in Hbound. split; [| exact Hcount]. lia.
Qed.

Lemma manager_never_exceeds_witness :
  0 <= 1 <= 1 /\ 1 = Z.of_nat (List.length [2%nat]).
Proof.
  apply (manager_never_exceeds 1
           [Execute 1; Execute 2; Execute 3; Settle 1]
           {| maxConcurrent := 1; activeRequests := 1; queue := [3%nat];
              pending := [2%nat]; started := [1%nat; 2%nat] |}).
  - lia.
  - reflexivity.
Defined.

(** X8.  Tasks are started in the order in which [execute] was called
    for them: the tasks started, followed by the tasks that still wait in
    the queue, are the tasks executed, in the order of the calls; this
    holds whether tasks resolve or reject. *)
Theorem manager_fifo (maxc : Z) (events : list ManagerEvent)
    (m : ConcurrencyManager) :
  Manager.run (Manager.create maxc) events = Some m ->
  started m ++ queue m = executed events.
Proof.
  intros Hrun.
  destruct (manager_run_invariant events [] _ _
              (manager_create_invariant maxc) Hrun)
    as [(_ & _ & Hfifo & _) _].
  exact Hfifo.
Qed.

Lemma manager_fifo_witness :
  [1%nat; 2%nat] ++ [3%nat] = executed [Execute 1; Execute 2; Execute 3; Settle 1].
Proof.
  apply (manager_fifo 1 [Execute 1; Execute 2; Execute 3; Settle 1]
           {| maxConcurrent := 1; activeRequests := 1; queue := [3%nat];
              pending := [2%nat]; started := [1%nat; 2%nat] |}).
  reflexivity.
Defined.

(** X9.  A task waits in the queue only while [maxConcurrent] tasks are
    pending: whenever the queue is not empty, [activeRequests] is
    [maxConcurrent]. *)
Theorem manager_waits_only_when_full (maxc : Z) (events : list ManagerEvent)
    (m : ConcurrencyManager) :
  0 <= maxc ->
  Manager.run (Manager.create maxc) events = Some m ->
  queue m <> [] ->
  activeRequests m = maxc.
Proof.
  intros Hmax Hrun Hq.
  destruct (manager_run_invariant events [] _ _
              (manager_create_invariant maxc) Hrun)
    as [(_ & Hbound & _ & Hwait) Hsame].
  cbn [maxConcurrent Manager.create] in Hsame.
  rewrite Hsame in Hbound, Hwait.
  specialize (Hbound Hmax). specialize (Hwait Hq). lia.
Qed.

Lemma manager_waits_only_when_full_witness : 1 = 1.
Proof.
  apply (manager_waits_only_when_full 1
           [Execute 1; Execute 2; Execute 3; Settle 1]
           {| maxConcurrent := 1; activeRequests := 1; queue := [3%nat];
              pending := [2%nat]; started := [1%nat; 2%nat] |}).
  - lia.
  - reflexivity.
  - discriminate.
Defined.

(** ** fetchWithRetry, further *)

Section FetchFurther.

Variable parseInt : string -> JsNumber.

Lemma tryRequest_Ok e url st st' trace data :
  ApiService.tryRequest parseInt e url st = (st', trace, inl data) ->
  exists r,
    fetched e = Responded r /\ resp_ok r = true /\ resp_json r = Some data.
Proof.
  unfold ApiService.tryRequest.
  destruct (ApiService.checkRateLimit e st); [| discriminate].
  destruct (fetched e) as [err | r]; [discriminate |].
  destruct (resp_ok r) eqn:Hok; cbn [negb].
  - destruct (resp_json r) as [j |] eqn:Hj; [| discriminate].
    intros H. injection H as _ _ <-. exists r. auto.
  - destruct (ApiService.handleErrorResponse parseInt e r _). discriminate.
Qed.

Lemma fetchWithRetry_Ok_attempt env url (k : nat) : forall st attempt st' trace data,
  (API_CONSTANTS.MAX_RETRY_ATTEMPTS - 1 <= attempt + k)%nat ->
  ApiService.fetchWithRetry parseInt env url st attempt = (st', trace, Ok data) ->
  exists last r,
    (attempt <= last <= attempt + k)%nat
    /\ fetched (env last) = Responded r
    /\ resp_ok r = true /\ resp_json r = Some data.
Proof.
  induction k as [| k IH]; intros st attempt st' trace data Hk;
    rewrite fetchWithRetry_unfold;
    destruct (ApiService.tryRequest parseInt (env attempt) url st)
      as [[st1 trace1] [body | error]] eqn:Htry.
  - intros H. injection H as _ _ <-.
    destruct (tryRequest_Ok _ _ _ _ _ _ Htry) as (r & Hr).
    exists attempt, r. split; [lia | exact Hr].
  - destruct (ApiService.shouldRetry error attempt) eqn:Hretry;
      [| discriminate].
    apply shouldRetry_true in Hretry. lia.
  - intros H. injection H as _ _ <-.
    destruct (tryRequest_Ok _ _ _ _ _ _ Htry) as (r & Hr).
    exists attempt, r. split; [lia | exact Hr].
  - destruct (ApiService.shouldRetry error attempt) eqn:Hretry;
      [| discriminate].
    destruct (ApiService.fetchWithRetry parseInt env url st1 (S attempt))
      as [[st2 trace2] result] eqn:Hrec.
    cbn [ApiService.afterSleep]. intros H. injection H as _ _ ->.
    destruct (IH st1 (S attempt) st2 trace2 data ltac:(lia) Hrec)
      as (last & r & Hrange & Hr).
    exists last, r. split; [lia | exact Hr].
Qed.

End FetchFurther.

(** X10.  [fetchWithRetry] returns a body only from a response of status
    200 to 299: when a call that starts at attempt 0 returns [data] (an
    object or [null]), one of its at most 3 attempts received such a
    response whose JSON is [data]. *)
Theorem fetchWithRetry_returns_2xx_body
    (parseInt : string -> JsNumber) (env : nat -> AttemptEnv) (url : string)
    (st st' : ServiceState) (trace : list Effect) (data : option Json) :
  ApiService.fetchWithRetry parseInt env url st 0 = (st', trace, Ok data) ->
  exists attempt r,
    (attempt < API_CONSTANTS.MAX_RETRY_ATTEMPTS)%nat
    /\ fetched (env attempt) = Responded r
    /\ 200 <= resp_status r <= 299
    /\ resp_json r = Some data.
Proof.
  intros Hcall.
  destruct (fetchWithRetry_Ok_attempt parseInt env url 2 st 0%nat st' trace data
              ltac:(unfold API_CONSTANTS.MAX_RETRY_ATTEMPTS; lia) Hcall)
    as (last & r & Hrange & Hfetched & Hok & Hjson).
  exists last, r. unfold API_CONSTANTS.MAX_RETRY_ATTEMPTS.
  split; [lia | split; [exact Hfetched | split; [| exact Hjson]]].
  unfold resp_ok in Hok. apply andb_true_iff in Hok.
  destruct Hok as [Hlo Hhi]. apply Z.leb_le in Hlo. apply Z.leb_le in Hhi.
  lia.
Qed.

Lemma fetchWithRetry_returns_2xx_body_witness :
  exists attempt r,
    (attempt < API_CONSTANTS.MAX_RETRY_ATTEMPTS)%nat
    /\ fetched
         ((fun k : nat =>
             {| now_check := 0; now_wait := 0;
                fetched :=
                  match k with
                  | O => Rejected (OtherErr "TypeError" "Failed to fetch")
                  | _ => Responded
                           {| resp_status := 200; resp_statusText := "OK";
                              header_RateLimit_Remaining := None;
                              header_RateLimit_Reset := None;
                              header_Retry_After := None;
                              resp_json := Some (Some emptyJson) |}
                  end;
                now_headers := 0; now_limited := 0; random := 0.5 |}) attempt)
       = Responded r
    /\ 200 <= resp_status r <= 299
    /\ resp_json r = Some (Some emptyJson).
Proof.
  eapply (fetchWithRetry_returns_2xx_body (fun _ => NaN) _ "https://example.org/a"
            {| rateLimitResetTime := None; requestCounts := [] |}).
  vm_compute. reflexivity.
Defined.

Section FetchStates.

Variable parseInt : string -> JsNumber.

(** While no limit is set, an attempt whose [fetch] rejects makes its
    call and hands the rejection to [catch]. *)
Lemma tryRequest_rejected e url st err :
  rateLimitResetTime st = None ->
  fetched e = Rejected err ->
  ApiService.tryRequest parseInt e url st
  = (ApiService.updateRequestCount url st, [HttpCall url], inr err).
Proof.
  intros Hnone Hrej. unfold ApiService.tryRequest, ApiService.checkRateLimit.
  rewrite Hnone, Hrej. reflexivity.
Qed.

End FetchStates.

(** X12.  While no limit is set, a call whose three attempts all end in
    a rejection of [fetch] (a failure of the network, a timeout) makes
    exactly three HTTP calls with the two backoff pauses between them and
    throws the third rejection, normalized; a timeout leaves as an
    [ApiError] of status 408. *)
Theorem fetchWithRetry_rejected_three_times
    (parseInt : string -> JsNumber) (env : nat -> AttemptEnv) (url : string)
    (st : ServiceState) (name msg : nat -> string) :
  rateLimitResetTime st = None ->
  (forall k, (k < API_CONSTANTS.MAX_RETRY_ATTEMPTS)%nat ->
     fetched (env k) = Rejected (OtherErr (name k) (msg k))) ->
  exists st',
    ApiService.fetchWithRetry parseInt env url st 0
    = (st',
       [HttpCall url;
        Sleep (ApiService.calculateBackoffDelay 0 (random (env 0%nat)));
        HttpCall url;
        Sleep (ApiService.calculateBackoffDelay 1 (random (env 1%nat)));
        HttpCall url],
       Throw (ApiService.normalizeError (OtherErr (name 2%nat) (msg 2%nat))))
    /\ rateLimitResetTime st' = None
    /\ (name 2%nat = "AbortError" ->
        ApiService.normalizeError (OtherErr (name 2%nat) (msg 2%nat))
        = ApiErr (ApiService.mkApiError ERROR_MESSAGES.TIMEOUT_ERROR
                    (Some 408) None false)).
Proof.
  unfold API_CONSTANTS.MAX_RETRY_ATTEMPTS. intros Hnone Hrej.
  eexists. split; [| split].
  - rewrite fetchWithRetry_unfold.
    rewrite (tryRequest_rejected parseInt _ url st _ Hnone (Hrej 0%nat ltac:(lia))).
    cbn [ApiService.shouldRetry API_CONSTANTS.MAX_RETRY_ATTEMPTS Nat.sub Nat.leb].
    rewrite fetchWithRetry_unfold.
    rewrite (tryRequest_rejected parseInt _ url
               (ApiService.updateRequestCount url st) _ Hnone
               (Hrej 1%nat ltac:(lia))).
    cbn [ApiService.shouldRetry API_CONSTANTS.MAX_RETRY_ATTEMPTS Nat.sub Nat.leb].
    rewrite fetchWithRetry_unfold.
    rewrite (tryRequest_rejected parseInt _ url
               (ApiService.updateRequestCount url
                  (ApiService.updateRequestCount url st)) _ Hnone
               (Hrej 2%nat ltac:(lia))).
    cbn [ApiService.shouldRetry API_CONSTANTS.MAX_RETRY_ATTEMPTS Nat.sub Nat.leb
         ApiService.afterSleep app].
    reflexivity.
  - exact Hnone.
  - intros Hname. unfold ApiService.normalizeError. rewrite Hname. reflexivity.
Qed.

Lemma fetchWithRetry_rejected_three_times_witness :
  exists st',
    ApiService.fetchWithRetry (fun _ => NaN)
      (fun _ => {| now_check := 0; now_wait := 0;
                   fetched := Rejected (OtherErr "AbortError" "aborted");
                   now_headers := 0; now_limited := 0; random := 0.5 |})
      "https://example.org/a"
      {| rateLimitResetTime := None; requestCounts := [] |} 0
    = (st',
       [HttpCall "https://example.org/a";
        Sleep (ApiService.calculateBackoffDelay 0 0.5);
        HttpCall "https://example.org/a";
        Sleep (ApiService.calculateBackoffDelay 1 0.5);
        HttpCall "https://example.org/a"],
       Throw (ApiService.normalizeError (OtherErr "AbortError" "aborted")))
    /\ rateLimitResetTime st' = None
    /\ ("AbortError" = "AbortError" ->
        ApiService.normalizeError (OtherErr "AbortError" "aborted")
        = ApiErr (ApiService.mkApiError ERROR_MESSAGES.TIMEOUT_ERROR
                    (Some 408) None false)).
Proof.
  apply (fetchWithRetry_rejected_three_times (fun _ => NaN)
           (fun _ => {| now_check := 0; now_wait := 0;
                        fetched := Rejected (OtherErr "AbortError" "aborted");
                        now_headers := 0; now_limited := 0; random := 0.5 |})
           "https://example.org/a"
           {| rateLimitResetTime := None; requestCounts := [] |}
           (fun _ => "AbortError") (fun _ => "aborted")).
  - reflexivity.
  - intros k _. reflexivity.
Defined.

Section RateLimitSet.

Variable parseInt : string -> JsNumber.

Lemma handleErrorResponse_429 e r st :
  resp_status r = 429 ->
  ApiService.handleErrorResponse parseInt e r st
  = ({| rateLimitResetTime :=
          Some (numAdd (Num (now_limited e))
                  (numMul (parseInt (retryAfterOr60 r)) (Num 1000)));
        requestCounts := requestCounts st |},
     ApiErr (ApiService.mkApiError ERROR_MESSAGES.RATE_LIMIT_EXCEEDED
               (Some 429) (errorDataOf r) true)).
Proof.
  intros H429. unfold ApiService.handleErrorResponse. rewrite H429.
  reflexivity.
Qed.

(** What a response of status 500 or more throws: the [ApiError] of the
    status, or the [TypeError] of a body that is [null]. *)
Lemma handleErrorResponse_5xx e r st :
  500 <= resp_status r ->
  ApiService.handleErrorResponse parseInt e r st
  = (st,
     match errorDataOf r with
     | Some data =>
         ApiErr (ApiService.mkApiError (httpErrorMessage r)
                   (Some (resp_status r)) (Some data) false)
     | None => ApiService.TypeError_error
     end).
Proof.
  intros H5. unfold ApiService.handleErrorResponse. cbv zeta.
  destruct (Z.eqb_spec (resp_status r) 429); [lia |].
  destruct (Z.eqb_spec (resp_status r) 403); [lia |].
  cbn [andb].
  unfold httpErrorMessage, errorDataOf.
  destruct (resp_json r) as [[data |] |]; [| reflexivity |].
  - do 3 f_equal. unfold ApiService.errorMessageOf, truthy.
    destruct data as [[[[m |]] |] items]; cbn [json_error error_message];
      try reflexivity.
    destruct (m =? "")%string; reflexivity.
  - reflexivity.
Qed.

(** A call that finds the limit in the future leaves with the rate-limit
    error and does nothing else. *)
Lemma fetchWithRetry_blocked env url st attempt reset :
  rateLimitResetTime st = Some (Num reset) ->
  reset <> 0 ->
  now_check (env attempt) < reset ->
  ApiService.fetchWithRetry parseInt env url st attempt
  = (st, [],
     Throw (ApiErr (ApiService.mkApiError
                      (rateLimitMessage
                         (ceilDiv (reset - now_wait (env attempt)) 1000))
                      (Some 429) None true))).
Proof.
  intros Hset Hnz Hfuture. rewrite fetchWithRetry_unfold.
  rewrite (tryRequest_rate_limited parseInt url (env attempt) st reset)
    by assumption.
  rewrite shouldRetry_rate_limit_flag. reflexivity.
Qed.

End RateLimitSet.

(** X13.  A response of status 429 is not retried: the call makes one
    HTTP call, throws the rate-limit error, and sets [rateLimitResetTime]
    to the instant of the response plus the seconds of [Retry-After] (or
    of ['60'] when the header is absent or empty).  Every call that starts
    before that instant, for any URL and attempt, then fails without an
    HTTP call. *)
Theorem status_429_blocks_later_calls
    (parseInt : string -> JsNumber) (env env' : nat -> AttemptEnv)
    (url url' : string) (st : ServiceState) (attempt' : nat) (r : Response)
    (n : Z) :
  rateLimitResetTime st = None ->
  fetched (env 0%nat) = Responded r ->
  resp_status r = 429 ->
  parseInt (retryAfterOr60 r) = Num n ->
  exists st',
    ApiService.fetchWithRetry parseInt env url st 0
    = (st', [HttpCall url],
       Throw (ApiErr (ApiService.mkApiError ERROR_MESSAGES.RATE_LIMIT_EXCEEDED
                        (Some 429) (errorDataOf r) true)))
    /\ rateLimitResetTime st'
       = Some (Num (now_limited (env 0%nat) + n * 1000))
    /\ (now_limited (env 0%nat) + n * 1000 <> 0 ->
        now_check (env' attempt') < now_limited (env 0%nat) + n * 1000 ->
        exists e,
          ApiService.fetchWithRetry parseInt env' url' st' attempt'
          = (st', [], Throw (ApiErr e))
          /\ isRateLimited e = true).
Proof.
  intros Hnone Hresp H429 Hparse.
  eexists. split; [| split].
  - rewrite fetchWithRetry_unfold.
    unfold ApiService.tryRequest, ApiService.checkRateLimit.
    rewrite Hnone, Hresp. unfold resp_ok. rewrite H429. cbn [Z.leb andb negb Z.compare Pos.compare Pos.compare_cont].
    rewrite handleErrorResponse_429 by exact H429.
    rewrite shouldRetry_rate_limit_flag. cbn [ApiService.normalizeError].
    reflexivity.
  - cbn [rateLimitResetTime]. rewrite Hparse. reflexivity.
  - intros Hnz Hfuture. eexists. split.
    + apply fetchWithRetry_blocked with (reset := now_limited (env 0%nat) + n * 1000);
        [| exact Hnz | exact Hfuture].
      cbn [rateLimitResetTime]. rewrite Hparse. reflexivity.
    + reflexivity.
Qed.

Lemma status_429_blocks_later_calls_witness :
  exists st',
    ApiService.fetchWithRetry (fun _ => Num 60)
      (fun _ => {| now_check := 1000; now_wait := 1000;
                   fetched :=
                     Responded
                       {| resp_status := 429;
                          resp_statusText := "Too Many Requests";
                          header_RateLimit_Remaining := None;
                          header_RateLimit_Reset := None;
                          header_Retry_After := None;
                          resp_json := None |};
                   now_headers := 1200; now_limited := 1200;
                   random := 0.5 |})
      "https://example.org/a"
      {| rateLimitResetTime := None; requestCounts := [] |} 0
    = (st', [HttpCall "https://example.org/a"],
       Throw (ApiErr (ApiService.mkApiError ERROR_MESSAGES.RATE_LIMIT_EXCEEDED
                        (Some 429) (Some emptyJson) true)))
    /\ rateLimitResetTime st' = Some (Num (1200 + 60 * 1000))
    /\ (1200 + 60 * 1000 <> 0 ->
        2000 < 1200 + 60 * 1000 ->
        exists e,
          ApiService.fetchWithRetry (fun _ => Num 60)
            (fun _ => {| now_check := 2000; now_wait := 2000;
                         fetched := Rejected (OtherErr "TypeError" "");
                         now_headers := 0; now_limited := 0;
                         random := 0.5 |})
            "https://example.org/b" st' 1
          = (st', [], Throw (ApiErr e))
          /\ isRateLimited e = true).
Proof.
  apply (status_429_blocks_later_calls (fun _ => Num 60)
           (fun _ => {| now_check := 1000; now_wait := 1000;
                        fetched :=
                          Responded
                            {| resp_status := 429;
                               resp_statusText := "Too Many Requests";
                               header_RateLimit_Remaining := None;
                               header_RateLimit_Reset := None;
                               header_Retry_After := None;
                               resp_json := None |};
                        now_headers := 1200; now_limited := 1200;
                        random := 0.5 |})
           (fun _ => {| now_check := 2000; now_wait := 2000;
                        fetched := Rejected (OtherErr "TypeError" "");
                        now_headers := 0; now_limited := 0;
                        random := 0.5 |})
           "https://example.org/a" "https://example.org/b"
           {| rateLimitResetTime := None; requestCounts := [] |} 1%nat
           {| resp_status := 429; resp_statusText := "Too Many Requests";
              header_RateLimit_Remaining := None;
              header_RateLimit_Reset := None;
              header_Retry_After := None; resp_json := None |} 60);
    reflexivity.
Defined.

(** X14.  A response of status 500 or more that carries [Retry-After] is
    retried in name only.  The header sets [rateLimitResetTime] before the
    error is thrown, so when the backoff pause ends before that instant
    the second attempt stops at [checkRateLimit]: the call has made one
    HTTP call and throws the rate-limit error of status 429, not the error
    of the response. *)
Theorem retry_after_on_5xx_blocks_the_retry
    (parseInt : string -> JsNumber) (env : nat -> AttemptEnv) (url : string)
    (st : ServiceState) (r : Response) (text : string) (n : Z) :
  rateLimitResetTime st = None ->
  fetched (env 0%nat) = Responded r ->
  500 <= resp_status r ->
  header_Retry_After r = Some text ->
  text <> "" ->
  parseInt text = Num n ->
  includes "rate limit" (httpErrorMessage r) = false ->
  includes "quota exceeded" (httpErrorMessage r) = false ->
  now_headers (env 0%nat) + n * 1000 <> 0 ->
  now_check (env 1%nat) < now_headers (env 0%nat) + n * 1000 ->
  exists st',
    ApiService.fetchWithRetry parseInt env url st 0
    = (st',
       [HttpCall url;
        Sleep (ApiService.calculateBackoffDelay 0 (random (env 0%nat)))],
       Throw (ApiErr (ApiService.mkApiError
                        (rateLimitMessage
                           (ceilDiv (now_headers (env 0%nat) + n * 1000
                                     - now_wait (env 1%nat)) 1000))
                        (Some 429) None true))).
Proof.
  intros Hnone Hresp H5 Hheader Htext Hparse Hrl Hquota Hnz Hfuture.
  eexists. rewrite fetchWithRetry_unfold.
  unfold ApiService.tryRequest, ApiService.checkRateLimit.
  rewrite Hnone, Hresp.
  assert (Hok : resp_ok r = false).
  { unfold resp_ok. apply andb_false_iff. right. apply Z.leb_gt. lia. }
  rewrite Hok. cbn [negb].
  rewrite handleErrorResponse_5xx by exact H5.
  assert (Hretry :
    ApiService.shouldRetry
      match errorDataOf r with
      | Some data =>
          ApiErr (ApiService.mkApiError (httpErrorMessage r)
                    (Some (resp_status r)) (Some data) false)
      | None => ApiService.TypeError_error
      end 0
    = true).
  { destruct (errorDataOf r) as [data |]; [| reflexivity].
    unfold ApiService.shouldRetry, isRateLimited, isAuthError, isTemporary.
    cbn [API_CONSTANTS.MAX_RETRY_ATTEMPTS Nat.sub Nat.leb
         ApiService.mkApiError isRateLimit status message].
    rewrite Hrl, Hquota.
    destruct (Z.eqb_spec (resp_status r) 429); [lia |].
    destruct (Z.eqb_spec (resp_status r) 401); [lia |].
    destruct (Z.eqb_spec (resp_status r) 403); [lia |].
    destruct (Z.leb_spec 500 (resp_status r)); [reflexivity | lia]. }
  rewrite Hretry.
  rewrite (fetchWithRetry_blocked parseInt env url _ 1%nat
             (now_headers (env 0%nat) + n * 1000)).
  - cbn [ApiService.afterSleep app]. reflexivity.
  - unfold ApiService.parseRateLimitHeaders. cbv zeta.
    rewrite Hheader. unfold truthy.
    destruct (String.eqb_spec text ""); [contradiction |].
    cbn [negb rateLimitResetTime]. rewrite Hparse. reflexivity.
  - exact Hnz.
  - exact Hfuture.
Qed.

Lemma retry_after_on_5xx_blocks_the_retry_witness :
  exists st',
    ApiService.fetchWithRetry (fun _ => Num 30)
      (fun _ => {| now_check := 1000; now_wait := 1000;
                   fetched :=
                     Responded
                       {| resp_status := 503;
                          resp_statusText := "Service Unavailable";
                          header_RateLimit_Remaining := None;
                          header_RateLimit_Reset := None;
                          header_Retry_After := Some "30";
                          resp_json := None |};
                   now_headers := 900; now_limited := 900;
                   random := 0.5 |})
      "https://example.org/a"
      {| rateLimitResetTime := None; requestCounts := [] |} 0
    = (st',
       [HttpCall "https://example.org/a";
        Sleep (ApiService.calculateBackoffDelay 0 0.5)],
       Throw (ApiErr (ApiService.mkApiError
                        (rateLimitMessage (ceilDiv (900 + 30 * 1000 - 1000) 1000))
                        (Some 429) None true))).
Proof.
  apply (retry_after_on_5xx_blocks_the_retry (fun _ => Num 30)
           (fun _ => {| now_check := 1000; now_wait := 1000;
                        fetched :=
                          Responded
                            {| resp_status := 503;
                               resp_statusText := "Service Unavailable";
                               header_RateLimit_Remaining := None;
                               header_RateLimit_Reset := None;
                               header_Retry_After := Some "30";
                               resp_json := None |};
                        now_headers := 900; now_limited := 900;
                        random := 0.5 |})
           "https://example.org/a"
           {| rateLimitResetTime := None; requestCounts := [] |}
           {| resp_status := 503; resp_statusText := "Service Unavailable";
              header_RateLimit_Remaining := None;
              header_RateLimit_Reset := None;
              header_Retry_After := Some "30"; resp_json := None |}
           "30" 30);
    try reflexivity; try discriminate.
Defined.

(** ** Backoff pauses *)

Lemma backoffBase_at_least attempt :
  (inject_Z API_CONSTANTS.INITIAL_RETRY_DELAY_MS <= backoffBase attempt)%Q.
Proof.
  unfold backoffBase. apply Q.min_glb.
  - rewrite <- inject_Z_mult. rewrite <- Zle_Qle.
    unfold API_CONSTANTS.INITIAL_RETRY_DELAY_MS,
      API_CONSTANTS.EXPONENTIAL_BACKOFF_MULTIPLIER.
    assert (0 < 2 ^ Z.of_nat attempt) by (apply Z.pow_pos_nonneg; lia).
    lia.
  - rewrite <- Zle_Qle. unfold API_CONSTANTS.INITIAL_RETRY_DELAY_MS,
      API_CONSTANTS.MAX_RETRY_DELAY_MS. lia.
Qed.

(** X15.  For every attempt and every draw of [Math.random] (0 included,
    1 excluded) the delay of [calculateBackoffDelay] is at least 875 ms,
    which is 0.875 of the initial delay, and at most 5625 ms, which is
    1.125 of the maximal delay.  (The bounds are not strict: both are
    numbers that the arithmetic of the code can return exactly.) *)
Theorem calculateBackoffDelay_bounds (attempt : nat) (random : Q) :
  (0 <= random)%Q -> (random < 1)%Q ->
  (875 <= ApiService.calculateBackoffDelay attempt random)%Q
  /\ (ApiService.calculateBackoffDelay attempt random <= 5625)%Q.
Proof.
  intros Hlo Hhi.
  destruct (calculateBackoffDelay_jitter attempt random Hlo Hhi)
    as (_ & Hmin & Hmax).
  pose proof (backoffBase_at_least attempt) as Hbase.
  destruct (backoffBase_positive attempt) as [_ Htop].
  unfold API_CONSTANTS.INITIAL_RETRY_DELAY_MS,
    API_CONSTANTS.MAX_RETRY_DELAY_MS in *.
  change (inject_Z 1000) with 1000%Q in Hbase.
  change (inject_Z 5000) with 5000%Q in Htop.
  split; lra.
Qed.

Lemma calculateBackoffDelay_bounds_witness :
  (875 <= ApiService.calculateBackoffDelay 7 (1 # 3))%Q
  /\ (ApiService.calculateBackoffDelay 7 (1 # 3) <= 5625)%Q.
Proof.
  apply (calculateBackoffDelay_bounds 7 (1 # 3)).
  - vm_compute. discriminate.
  - vm_compute. reflexivity.
Defined.

Section Pauses.

Variable parseInt : string -> JsNumber.
Variable env : nat -> AttemptEnv.
Variable url : string.

(** Every pause of a call is the backoff delay of an attempt that may be
    retried. *)
Lemma fetchWithRetry_pauses (k : nat) : forall st attempt,
  (API_CONSTANTS.MAX_RETRY_ATTEMPTS - 1 <= attempt + k)%nat ->
  Forall (fun ms =>
            exists j,
              (attempt <= j /\ S j < API_CONSTANTS.MAX_RETRY_ATTEMPTS)%nat
              /\ ms = ApiService.calculateBackoffDelay j (random (env j)))
    (sleeps (snd (fst (ApiService.fetchWithRetry parseInt env url st attempt)))).
Proof.
  induction k as [| k IH]; intros st attempt Hk;
    rewrite fetchWithRetry_unfold;
    pose proof (tryRequest_one_call parseInt url (env attempt) st)
      as [_ Hsleeps];
    destruct (ApiService.tryRequest parseInt (env attempt) url st)
      as [[st1 trace1] [body | error]];
    cbn [fst snd] in Hsleeps |- *;
    try (rewrite Hsleeps; constructor).
  - destruct (ApiService.shouldRetry error attempt) eqn:Hretry.
    + apply shouldRetry_true in Hretry. lia.
    + cbn [fst snd]. rewrite Hsleeps. constructor.
  - destruct (ApiService.shouldRetry error attempt) eqn:Hretry.
    + specialize (IH st1 (S attempt) ltac:(lia)).
      apply shouldRetry_true in Hretry. destruct Hretry as [Hlt _].
      destruct (ApiService.fetchWithRetry parseInt env url st1 (S attempt))
        as [[st2 trace2] result].
      cbn [ApiService.afterSleep fst snd] in IH |- *.
      rewrite sleeps_app, Hsleeps. cbn [sleeps flat_map app].
      fold (sleeps trace2). constructor.
      * exists attempt. split; [lia | reflexivity].
      * eapply Forall_impl; [| exact IH].
        intros ms (j & Hj & Hms). exists j. split; [lia | exact Hms].
    + cbn [fst snd]. rewrite Hsleeps. constructor.
Qed.

End Pauses.

(** X16.  Every pause of a call of [fetchWithRetry] that starts at
    attempt 0 follows attempt 0 or attempt 1, whose base delays are 1000
    and 2000 ms: with draws of [Math.random] in [0, 1) each pause lasts at
    least 875 ms and at most 2250 ms, so the maximal delay of 5000 ms is
    never reached. *)
Theorem fetchWithRetry_pauses_bounded
    (parseInt : string -> JsNumber) (env : nat -> AttemptEnv) (url : string)
    (st : ServiceState) :
  (forall k, (0 <= random (env k))%Q /\ (random (env k) < 1)%Q) ->
  Forall (fun ms => (875 <= ms)%Q /\ (ms <= 2250)%Q)
    (sleeps (snd (fst (ApiService.fetchWithRetry parseInt env url st 0)))).
Proof.
  intros Hdraw.
  eapply Forall_impl;
    [| apply (fetchWithRetry_pauses parseInt env url 2 st 0%nat);
       unfold API_CONSTANTS.MAX_RETRY_ATTEMPTS; lia].
  intros ms (j & [_ Hj] & ->).
  destruct (Hdraw j) as [Hlo Hhi].
  destruct (calculateBackoffDelay_jitter j (random (env j)) Hlo Hhi)
    as (_ & Hmin & Hmax).
  pose proof (backoffBase_at_least j) as Hbase.
  unfold API_CONSTANTS.INITIAL_RETRY_DELAY_MS in Hbase.
  change (inject_Z 1000) with 1000%Q in Hbase.
  assert (Htop : (backoffBase j <= 2000)%Q).
  { unfold API_CONSTANTS.MAX_RETRY_ATTEMPTS in Hj.
    unfold backoffBase. eapply Qle_trans; [apply Q.le_min_l |].
    destruct j as [| [| j]]; [vm_compute; discriminate
                             | vm_compute; discriminate | lia]. }
  split; lra.
Qed.

Lemma fetchWithRetry_pauses_bounded_witness :
  Forall (fun ms => (875 <= ms)%Q /\ (ms <= 2250)%Q)
    (sleeps
       (snd (fst (ApiService.fetchWithRetry (fun _ => NaN)
                    (fun _ => {| now_check := 0; now_wait := 0;
                                 fetched := Rejected (OtherErr "AbortError" "");
                                 now_headers := 0; now_limited := 0;
                                 random := 0.5 |})
                    "https://example.org/a"
                    {| rateLimitResetTime := None; requestCounts := [] |}
                    0)))).
Proof.
  apply (fetchWithRetry_pauses_bounded (fun _ => NaN)
           (fun _ => {| now_check := 0; now_wait := 0;
                        fetched := Rejected (OtherErr "AbortError" "");
                        now_headers := 0; now_limited := 0;
                        random := 0.5 |})
           "https://example.org/a"
           {| rateLimitResetTime := None; requestCounts := [] |}).
  intros k. split; [vm_compute; discriminate | vm_compute; reflexivity].
Defined.

(** ** createHeaders and authenticatedRequest *)

Section SpreadFacts.

Context {V : Type}.

Lemma JsMap_set_keys_In (m : list (string * V)) k v k0 :
  In k0 (map fst (JsMap_set m k v)) -> k0 = k \/ In k0 (map fst m).
Proof.
  induction m as [| [k' v'] m IH]; simpl.
  - intros [H | []]; auto.
  - destruct (String.eqb_spec k' k) as [-> | Hne]; simpl; intuition.
Qed.

Lemma JsMap_set_NoDup (m : list (string * V)) k v :
  NoDup (map fst m) -> NoDup (map fst (JsMap_set m k v)).
Proof.
  induction m as [| [k' v'] m IH]; simpl; intros Hnd.
  - repeat constructor. intros [].
  - inversion Hnd as [| ? ? Hnotin Hrest]; subst.
    destruct (String.eqb_spec k' k) as [-> | Hne]; simpl.
    + constructor; assumption.
    + constructor; [| apply IH; exact Hrest].
      intros Hin. apply JsMap_set_keys_In in Hin.
      destruct Hin as [-> | Hin]; [congruence | contradiction].
Qed.

Lemma JsMap_get_not_In (m : list (string * V)) k :
  ~ In k (map fst m) -> JsMap_get m k = None.
Proof.
  induction m as [| [k' v'] m IH]; simpl; [reflexivity |].
  intros Hnot. destruct (String.eqb_spec k' k) as [-> | Hne].
  - exfalso. apply Hnot. left. reflexivity.
  - apply IH. intros Hin. apply Hnot. right. exact Hin.
Qed.

(** A member of an object spread over another wins over the member of
    the same name. *)
Lemma spread_get (source : list (string * V)) : forall target k,
  NoDup (map fst source) ->
  JsMap_get (spread target source) k
  = match JsMap_get source k with
    | Some v => Some v
    | None => JsMap_get target k
    end.
Proof.
  unfold spread.
  induction source as [| [k' v'] source IH]; intros target k Hnd; simpl.
  - reflexivity.
  - inversion Hnd as [| ? ? Hnotin Hrest]; subst.
    rewrite IH by exact Hrest.
    destruct (String.eqb_spec k' k) as [-> | Hne].
    + rewrite (JsMap_get_not_In source k Hnotin).
      apply JsMap_get_set_same.
    + destruct (JsMap_get source k); [reflexivity |].
      apply JsMap_get_set_other. congruence.
Qed.

End SpreadFacts.

(** X17.  With a token, [authenticatedRequest] sends the request with the
    header [Authorization: Bearer <token>], whatever [Authorization] the
    caller gave; every other header of the caller is sent as given, also
    over a default of the same name, and the defaults fill the rest.
    Without a token it throws the [ApiError] of status 401 and requests
    nothing. *)
Theorem authenticatedRequest_headers
    (executeRequest : string -> RequestOptions -> Result Json)
    (url token : string) (options : RequestOptions) :
  NoDup (map fst (headers options)) ->
  token <> "" ->
  (exists sent,
     snd (Headers.authenticatedRequest executeRequest url (Some token) options)
     = [(url, sent)]
     /\ JsMap_get sent "Authorization" = Some ("Bearer " ++ token)%string
     /\ forall k, k <> "Authorization" ->
          JsMap_get sent k
          = match JsMap_get (headers options) k with
            | Some v => Some v
            | None => JsMap_get Headers.defaults k
            end)
  /\ Headers.authenticatedRequest executeRequest url None options
     = (Throw (ApiErr (ApiService.mkApiError ERROR_MESSAGES.AUTH_FAILED
                         (Some 401) None false)), [])
  /\ Headers.authenticatedRequest executeRequest url (Some "") options
     = (Throw (ApiErr (ApiService.mkApiError ERROR_MESSAGES.AUTH_FAILED
                         (Some 401) None false)), []).
Proof.
  intros Hnd Htoken. split; [| split; reflexivity].
  unfold Headers.authenticatedRequest. unfold truthy at 1.
  destruct (String.eqb_spec token ""); [contradiction |].
  cbn [negb snd headers]. eexists. split; [reflexivity |].
  unfold Headers.createHeaders. cbn [truthy].
  assert (Hnd' : NoDup (map fst
                   (spread (headers options)
                      [("Authorization", ("Bearer " ++ token)%string)]))).
  { unfold spread. cbn [fold_left fst snd]. apply JsMap_set_NoDup. exact Hnd. }
  split.
  - rewrite spread_get by exact Hnd'.
    unfold spread. cbn [fold_left fst snd].
    rewrite JsMap_get_set_same. reflexivity.
  - intros k Hk. rewrite spread_get by exact Hnd'.
    unfold spread. cbn [fold_left fst snd].
    rewrite !JsMap_get_set_other by exact Hk. reflexivity.
Qed.

Lemma authenticatedRequest_headers_witness :
  (exists sent,
     snd (Headers.authenticatedRequest (fun _ _ => Ok emptyJson)
            "https://example.org/a" (Some "token")
            {| method := None; body := None;
               headers := [("Accept", "text/plain");
                           ("Authorization", "Basic abc")] |})
     = [("https://example.org/a", sent)]
     /\ JsMap_get sent "Authorization" = Some ("Bearer " ++ "token")%string
     /\ forall k, k <> "Authorization" ->
          JsMap_get sent k
          = match JsMap_get [("Accept", "text/plain");
                             ("Authorization", "Basic abc")] k with
            | Some v => Some v
            | None => JsMap_get Headers.defaults k
            end)
  /\ Headers.authenticatedRequest (fun _ _ => Ok emptyJson)
       "https://example.org/a" None
       {| method := None; body := None;
          headers := [("Accept", "text/plain");
                      ("Authorization", "Basic abc")] |}
     = (Throw (ApiErr (ApiService.mkApiError ERROR_MESSAGES.AUTH_FAILED
                         (Some 401) None false)), [])
  /\ Headers.authenticatedRequest (fun _ _ => Ok emptyJson)
       "https://example.org/a" (Some "")
       {| method := None; body := None;
          headers := [("Accept", "text/plain");
                      ("Authorization", "Basic abc")] |}
     = (Throw (ApiErr (ApiService.mkApiError ERROR_MESSAGES.AUTH_FAILED
                         (Some 401) None false)), []).
Proof.
  apply (authenticatedRequest_headers (fun _ _ => Ok emptyJson)
           "https://example.org/a" "token"
           {| method := None; body := None;
              headers := [("Accept", "text/plain");
                          ("Authorization", "Basic abc")] |}).
  - cbn [headers map fst].
    constructor; [intros [H | []]; discriminate H |].
    constructor; [intros [] | constructor].
  - discriminate.
Defined.

(** ** The gaps of a day *)

Lemma busy_start_le_total a b :
  CalendarService.busy_start_le a b = true
  \/ CalendarService.busy_start_le b a = true.
Proof.
  unfold CalendarService.busy_start_le.
  destruct (Z.le_ge_cases (busy_start a) (busy_start b)) as [H | H];
    [left | right]; apply Z.leb_le; exact H.
Qed.

Lemma busy_start_le_trans a b c :
  CalendarService.busy_start_le a b = true ->
  CalendarService.busy_start_le b c = true ->
  CalendarService.busy_start_le a c = true.
Proof.
  unfold CalendarService.busy_start_le. rewrite !Z.leb_le. lia.
Qed.

Lemma diffMinute_long c e' :
  Dayjs.geNum (Dayjs.diffMinute (Some e') (Some c))
    TIME_CONSTANTS.MIN_SLOT_DURATION = true ->
  TIME_CONSTANTS.MIN_SLOT_DURATION * Dayjs.msPerMinute <= e' - c.
Proof.
  cbn [Dayjs.geNum Dayjs.diffMinute]. intros Hge. apply Z.leb_le in Hge.
  unfold TIME_CONSTANTS.MIN_SLOT_DURATION, Dayjs.msPerMinute in *.
  destruct (Z.le_gt_cases 0 (e' - c)) as [Hpos | Hneg].
  - rewrite Z.quot_div_nonneg in Hge by lia.
    Z.div_mod_to_equations. lia.
  - assert (Z.quot (e' - c) 60000 <= 0).
    { apply Z.quot_le_upper_bound; lia. }
    lia.
Qed.

Section Gaps.

Variable busy : list BusyInterval.
Variables rangeStart rangeEnd : option Z.
Variable Q : Slot -> Prop.
Hypothesis gap_Q :
  forall slot, gapOf busy (rangeStart, rangeEnd) slot -> Q slot.

(** The sweep of a window: the busy intervals already passed end at or
    before the cursor, and those to come start no earlier than the one at
    hand, so every slot pushed is a gap. *)
Lemma sweepEvents_gaps events : forall passed currentTime slots,
  passed ++ events = busy ->
  StronglySorted (leR CalendarService.busy_start_le) events ->
  (forall c, currentTime = Some c ->
     Forall (fun b => busy_end b <= c) passed) ->
  cursorFrom rangeStart currentTime ->
  Forall Q slots ->
  cursorFrom rangeStart
    (fst (CalendarService.sweepEvents rangeEnd events currentTime slots))
  /\ Forall Q
       (snd (CalendarService.sweepEvents rangeEnd events currentTime slots))
  /\ (forall c e,
        fst (CalendarService.sweepEvents rangeEnd events currentTime slots)
        = Some c ->
        rangeEnd = Some e -> c < e ->
        Forall (fun b => e <= busy_start b \/ busy_end b <= c) busy).
Proof.
  induction events as [| event rest IH];
    intros passed currentTime slots Hbusy Hsorted Hpassed Hcur Hslots.
  - cbn [CalendarService.sweepEvents fst snd].
    split; [exact Hcur | split; [exact Hslots |]].
    intros c e Hc _ _. rewrite app_nil_r in Hbusy. subst passed.
    eapply Forall_impl; [| exact (Hpassed c Hc)].
    intros b Hb. right. exact Hb.
  - cbn [CalendarService.sweepEvents].
    inversion Hsorted as [| ? ? Hrest Hall]; subst.
    assert (Hbusy' : (passed ++ [event]) ++ rest = passed ++ event :: rest)
      by (rewrite <- app_assoc; reflexivity).
    destruct (Dayjs.isBefore (Some (busy_end event)) currentTime) eqn:Hpast.
    { apply (IH (passed ++ [event])); try assumption.
      intros c Hc. apply Forall_app. split; [exact (Hpassed c Hc) |].
      constructor; [| constructor].
      subst currentTime. cbn [Dayjs.isBefore] in Hpast.
      apply Z.ltb_lt in Hpast. lia. }
    destruct (Dayjs.isAfter (Some (busy_start event)) rangeEnd) eqn:Hbeyond.
    { cbn [fst snd]. split; [exact Hcur | split; [exact Hslots |]].
      intros c e Hc He Hlt. subst rangeEnd.
      cbn [Dayjs.isAfter] in Hbeyond. apply Z.ltb_lt in Hbeyond.
      apply Forall_app. split.
      - eapply Forall_impl; [| exact (Hpassed c Hc)].
        intros b Hb. right. exact Hb.
      - constructor; [left; lia |].
        eapply Forall_impl; [| exact Hall].
        intros b Hb. unfold leR, CalendarService.busy_start_le in Hb.
        apply Z.leb_le in Hb. left. lia. }
    match goal with
    | |- context [if Dayjs.isAfter ?c' rangeEnd then (_, ?s') else _] =>
        assert (Hcur' : cursorFrom rangeStart c');
        [| assert (Hslots' : Forall Q s');
           [| assert (Hpassed' :
                forall c, c' = Some c ->
                  Forall (fun b => busy_end b <= c) (passed ++ [event]));
              [| destruct (Dayjs.isAfter c' rangeEnd) eqn:Hover;
                 [cbn [fst snd]; split; [exact Hcur' | split; [exact Hslots' |]]
                 | apply (IH (passed ++ [event])); assumption]]]]
    end.
    + destruct currentTime as [c |], rangeStart as [s |];
        simpl in Hcur |- *; try contradiction; try exact I.
      destruct (c <? busy_end event) eqn:Hlt; simpl; [| exact Hcur].
      apply Z.ltb_lt in Hlt. lia.
    + destruct (Dayjs.isBefore currentTime (Some (busy_start event)))
        eqn:Hgap; [| exact Hslots].
      match goal with
      | |- context [Dayjs.geNum ?d ?k] =>
          destruct (Dayjs.geNum d k) eqn:Hge; [| exact Hslots]
      end.
      apply Forall_app. split; [exact Hslots |].
      constructor; [| constructor]. apply gap_Q.
      destruct currentTime as [c |]; [| discriminate Hgap].
      destruct rangeStart as [s |]; [| contradiction].
      cbn [cursorFrom] in Hcur.
      cbn [Dayjs.isBefore] in Hgap. apply Z.ltb_lt in Hgap.
      destruct rangeEnd as [e |]; [| discriminate Hge].
      cbn [Dayjs.isBefore] in Hge |- *.
      specialize (Hpassed c eq_refl).
      destruct (busy_start event <? e) eqn:Hlt;
        [apply Z.ltb_lt in Hlt | apply Z.ltb_ge in Hlt];
        apply diffMinute_long in Hge.
      * exists s, e, c, (busy_start event). cbn [fst snd].
        repeat (split; [first [reflexivity | lia | exact Hge] |]).
        apply Forall_app. split.
        -- eapply Forall_impl; [| exact Hpassed].
           intros b Hb. right. exact Hb.
        -- constructor; [left; lia |].
           eapply Forall_impl; [| exact Hall].
           intros b Hb. unfold leR, CalendarService.busy_start_le in Hb.
           apply Z.leb_le in Hb. left. lia.
      * exists s, e, c, e. cbn [fst snd].
        repeat (split; [first [reflexivity | lia | exact Hge] |]).
        apply Forall_app. split.
        -- eapply Forall_impl; [| exact Hpassed].
           intros b Hb. right. exact Hb.
        -- constructor; [left; lia |].
           eapply Forall_impl; [| exact Hall].
           intros b Hb. unfold leR, CalendarService.busy_start_le in Hb.
           apply Z.leb_le in Hb. left. lia.
    + intros c Hc. destruct currentTime as [c0 |].
      * cbn [Dayjs.isAfter] in Hc. specialize (Hpassed c0 eq_refl).
        destruct (c0 <? busy_end event) eqn:Hlt;
          [apply Z.ltb_lt in Hlt | apply Z.ltb_ge in Hlt];
          injection Hc as <-; apply Forall_app; split;
          try (constructor; [lia | constructor]).
        -- eapply Forall_impl; [| exact Hpassed]. intros b Hb.
           cbv beta in Hb |- *. lia.
        -- exact Hpassed.
      * discriminate Hc.
    + intros c e Hc He Hlt. subst rangeEnd.
      rewrite Hc in Hover. cbn [Dayjs.isAfter] in Hover. apply Z.ltb_lt in Hover. lia.
Qed.

Lemma scanRange_gaps slots :
  StronglySorted (leR CalendarService.busy_start_le) busy ->
  Forall Q slots ->
  Forall Q (CalendarService.scanRange busy slots (rangeStart, rangeEnd)).
Proof.
  intros Hsorted Hslots. unfold CalendarService.scanRange.
  assert (Hstart : cursorFrom rangeStart rangeStart).
  { destruct rangeStart; simpl; [lia | exact I]. }
  destruct (sweepEvents_gaps busy [] rangeStart slots eq_refl Hsorted
              (fun c _ => Forall_nil _) Hstart Hslots)
    as (Hcur & Hall & Hfree).
  destruct (CalendarService.sweepEvents rangeEnd busy rangeStart slots)
    as [currentTime slots'].
  cbn [fst snd] in Hcur, Hall, Hfree.
  destruct (Dayjs.isBefore currentTime rangeEnd) eqn:Hlt; [| exact Hall].
  destruct (Dayjs.geNum _ _) eqn:Hge; [| exact Hall].
  apply Forall_app. split; [exact Hall |].
  constructor; [| constructor]. apply gap_Q.
  destruct currentTime as [c |]; [| discriminate Hlt].
  destruct rangeEnd as [e |]; [| discriminate Hlt].
  destruct rangeStart as [s |]; [| contradiction].
  cbn [cursorFrom] in Hcur. cbn [Dayjs.isBefore] in Hlt.
  apply Z.ltb_lt in Hlt. apply diffMinute_long in Hge.
  exists s, e, c, e. cbn [fst snd].
  repeat (split; [first [reflexivity | lia | exact Hge] |]).
  exact (Hfree c e eq_refl eq_refl Hlt).
Qed.

End Gaps.

Lemma fold_scanRange_gaps busy (windows : list (option Z * option Z)) :
  StronglySorted (leR CalendarService.busy_start_le) busy ->
  forall ranges slots,
  incl ranges windows ->
  Forall (fun slot => exists range, In range windows /\ gapOf busy range slot)
    slots ->
  Forall (fun slot => exists range, In range windows /\ gapOf busy range slot)
    (fold_left (CalendarService.scanRange busy) ranges slots).
Proof.
  intros Hsorted.
  induction ranges as [| [rangeStart rangeEnd] ranges IH];
    intros slots Hincl Hslots; cbn [fold_left].
  - exact Hslots.
  - apply IH.
    + intros r Hr. apply Hincl. right. exact Hr.
    + apply scanRange_gaps; [| exact Hsorted | exact Hslots].
      intros slot Hgap. exists (rangeStart, rangeEnd).
      split; [apply Hincl; left; reflexivity | exact Hgap].
Qed.

Lemma insertBy_In {A} (le : A -> A -> bool) x y l :
  In y (insertBy le x l) <-> y = x \/ In y l.
Proof.
  induction l as [| z l IH]; simpl.
  - intuition.
  - destruct (le x z); simpl; [intuition |]. rewrite IH. intuition.
Qed.

Lemma sortBy_In {A} (le : A -> A -> bool) y l :
  In y (sortBy le l) <-> In y l.
Proof.
  induction l as [| x l IH]; simpl; [reflexivity |].
  rewrite insertBy_In, IH. intuition.
Qed.

Lemma mapM_In {A B} (f : A -> Result B) xs : forall ys x,
  mapM f xs = Ok ys -> In x xs -> exists y, f x = Ok y /\ In y ys.
Proof.
  induction xs as [| x0 xs IH]; intros ys x Hmap Hin; [contradiction |].
  cbn [mapM] in Hmap. unfold bind in Hmap.
  destruct (f x0) as [y0 |] eqn:Hy0; [| discriminate].
  destruct (mapM f xs) as [ys0 |] eqn:Hys0; [| discriminate].
  injection Hmap as <-.
  destruct Hin as [<- | Hin].
  - exists y0. split; [exact Hy0 | left; reflexivity].
  - destruct (IH ys0 x eq_refl Hin) as (y & Hy & Hyin).
    exists y. split; [exact Hy | right; exact Hyin].
Qed.

Lemma mapM_In_inv {A B} (f : A -> Result B) xs : forall ys y,
  mapM f xs = Ok ys -> In y ys -> exists x, In x xs /\ f x = Ok y.
Proof.
  induction xs as [| x0 xs IH]; intros ys y Hmap Hin;
    cbn [mapM] in Hmap; unfold bind in Hmap.
  - injection Hmap as <-. contradiction.
  - destruct (f x0) as [y0 |] eqn:Hy0; [| discriminate].
    destruct (mapM f xs) as [ys0 |] eqn:Hys0; [| discriminate].
    injection Hmap as <-.
    destruct Hin as [<- | Hin].
    + exists x0. split; [left; reflexivity | exact Hy0].
    + destruct (IH ys0 y eq_refl Hin) as (x & Hx & Hfx).
      exists x. split; [right; exact Hx | exact Hfx].
Qed.

(** The busy intervals of a date are those of the events that start on
    it, sorted by their start. *)
Lemma dayEvents_spec now events date busy :
  CalendarService.dayEvents now events date = Ok busy ->
  StronglySorted (leR CalendarService.busy_start_le) busy
  /\ (forall event,
        In event events ->
        CalendarService.onTargetDate (Dayjs.formatDay date) event = true ->
        exists b, CalendarService.toBusyInterval now event = Ok b /\ In b busy)
  /\ (forall b, In b busy ->
        exists event,
          In event events
          /\ CalendarService.onTargetDate (Dayjs.formatDay date) event = true
          /\ CalendarService.toBusyInterval now event = Ok b).
Proof.
  unfold CalendarService.dayEvents, bind.
  destruct (mapM _ _) as [mapped |] eqn:Hmap; [| discriminate].
  intros H. injection H as <-. split; [| split].
  - apply sortBy_StronglySorted;
      [exact busy_start_le_total | exact busy_start_le_trans].
  - intros event Hin Hon.
    destruct (mapM_In _ _ _ event Hmap) as (b & Hb & Hbin).
    { apply filter_In. split; assumption. }
    exists b. split; [exact Hb | apply sortBy_In; exact Hbin].
  - intros b Hb. apply sortBy_In in Hb.
    destruct (mapM_In_inv _ _ _ b Hmap Hb) as (event & Hin & Hev).
    apply filter_In in Hin. destruct Hin as [Hin Hon].
    exists event. repeat split; assumption.
Qed.

(** Every slot of a date, before the merge, is a gap of one of its
    windows among its busy intervals. *)
Lemma calculateDayAvailableSlots_gaps now events date slotsForDate daySlots :
  CalendarService.calculateDayAvailableSlots now events date slotsForDate
  = Ok daySlots ->
  exists busy,
    CalendarService.dayEvents now events date = Ok busy
    /\ Forall (fun slot =>
                 exists range,
                   In range (CalendarService.slotRanges date slotsForDate)
                   /\ gapOf busy range slot)
         daySlots.
Proof.
  unfold CalendarService.calculateDayAvailableSlots, bind.
  destruct (CalendarService.dayEvents now events date) as [busy | err]
    eqn:Hbusy; [| discriminate].
  intros H. injection H as <-. exists busy. split; [reflexivity |].
  apply fold_scanRange_gaps.
  - apply (dayEvents_spec now events date busy Hbusy).
  - apply incl_refl.
  - constructor.
Qed.

(** ** Slots as spans of minutes *)

Lemma dayjs2000_clock text m :
  Dayjs.clockMinutes text = Some m ->
  DateTimeUtils.dayjs2000 text = Some (clockOn Dayjs.day2000 m).
Proof.
  intros H. unfold DateTimeUtils.dayjs2000, clockOn.
  apply ofDayClock_clock. exact H.
Qed.

Lemma slotSpan_mkSlot c e :
  slotSpan (CalendarService.mkSlot (Some c) (Some e))
  = Some (Dayjs.minuteOfDay c, Dayjs.minuteOfDay e).
Proof.
  unfold slotSpan, CalendarService.mkSlot. cbn [startTime endTime].
  rewrite !clockMinutes_formatHHmm. reflexivity.
Qed.

Lemma slotSpan_Some slot sm em :
  slotSpan slot = Some (sm, em) ->
  Dayjs.clockMinutes (startTime slot) = Some sm
  /\ Dayjs.clockMinutes (endTime slot) = Some em.
Proof.
  unfold slotSpan.
  destruct (Dayjs.clockMinutes (startTime slot)) as [a |]; [| discriminate].
  destruct (Dayjs.clockMinutes (endTime slot)) as [b |]; [| discriminate].
  intros H. injection H as <- <-. split; reflexivity.
Qed.

Lemma slotSpan_range slot sm em :
  slotSpan slot = Some (sm, em) -> 0 <= sm < 1440 /\ 0 <= em < 1440.
Proof.
  intros H. apply slotSpan_Some in H. destruct H as [Hs He].
  apply clockMinutes_range in Hs, He. split; assumption.
Qed.

Lemma touches_span current next cs ce ns ne :
  slotSpan current = Some (cs, ce) -> slotSpan next = Some (ns, ne) ->
  touches current next = (ns <=? ce).
Proof.
  intros Hc Hn. apply slotSpan_Some in Hc, Hn.
  destruct Hc as [_ Hce]. destruct Hn as [Hns _].
  unfold touches. rewrite (dayjs2000_clock _ _ Hce), (dayjs2000_clock _ _ Hns).
  cbn [Dayjs.isSameOrAfter]. unfold clockOn, Dayjs.msPerMinute.
  destruct (Z.leb_spec ns ce); [apply Z.leb_le | apply Z.leb_gt]; lia.
Qed.

Lemma slotSpan_mergedSlot current next cs ce ns ne :
  slotSpan current = Some (cs, ce) -> slotSpan next = Some (ns, ne) ->
  slotSpan (mergedSlot current next) = Some (cs, Z.max ce ne).
Proof.
  intros Hc Hn. apply slotSpan_Some in Hc, Hn.
  destruct Hc as [Hcs Hce]. destruct Hn as [Hns Hne].
  unfold slotSpan, mergedSlot. cbn [startTime endTime].
  rewrite Hcs, (dayjs2000_clock _ _ Hce), (dayjs2000_clock _ _ Hne).
  cbn [Dayjs.isAfter]. unfold clockOn, Dayjs.msPerMinute.
  match goal with |- context [?a <? ?b] => destruct (Z.ltb_spec a b) end.
  - rewrite Hce. f_equal. f_equal. lia.
  - rewrite Hne. f_equal. f_equal. lia.
Qed.

Lemma slotMinutes_span slot sm em :
  slotSpan slot = Some (sm, em) -> slotMinutes slot = Some (em - sm).
Proof.
  intros H. apply slotSpan_Some in H. destruct H as [Hs He].
  unfold slotMinutes.
  rewrite (dayjs2000_clock _ _ Hs), (dayjs2000_clock _ _ He).
  cbn [Dayjs.diffMinute]. f_equal. unfold clockOn.
  match goal with
  | |- Z.quot ?x _ = ?y =>
      replace x with (y * Dayjs.msPerMinute) by ring
  end.
  apply Z.quot_mul. discriminate.
Qed.

Lemma longEnough_span slot :
  clockSlot slot ->
  longEnough slot ->
  exists sm em,
    slotSpan slot = Some (sm, em)
    /\ TIME_CONSTANTS.MIN_SLOT_DURATION <= em - sm.
Proof.
  intros (sm & em & Hspan) (m & Hm & Hlen).
  exists sm, em. split; [exact Hspan |].
  rewrite (slotMinutes_span slot sm em Hspan) in Hm. congruence.
Qed.

(** What holds for every slot, and for the slot made of two slots that
    touch, holds for every slot of the merged array. *)
Section MergeKeeps.

Variable P : Slot -> Prop.
Hypothesis P_merged :
  forall current next,
    P current -> P next -> touches current next = true ->
    P (mergedSlot current next).

Lemma merge_loop_Forall rest : forall current merged,
  Forall P rest -> P current -> Forall P merged ->
  Forall P (DateTimeUtils.mergeContinuousSlots_loop rest current merged).
Proof.
  induction rest as [| next rest IH]; intros current merged Hrest Hcur Hm;
    cbn [DateTimeUtils.mergeContinuousSlots_loop].
  - apply Forall_app. split; [exact Hm | constructor; [exact Hcur | constructor]].
  - inversion Hrest as [| ? ? Hnext Hrest']; subst.
    destruct (Dayjs.isSameOrAfter _ _) eqn:Ht.
    + apply IH; [exact Hrest' | | exact Hm].
      apply (P_merged current next Hcur Hnext Ht).
    + apply IH; [exact Hrest' | exact Hnext |].
      apply Forall_app. split; [exact Hm | constructor; [exact Hcur | constructor]].
Qed.

Lemma mergeContinuousSlots_Forall slots :
  Forall P slots -> Forall P (DateTimeUtils.mergeContinuousSlots slots).
Proof.
  intros Hall. unfold DateTimeUtils.mergeContinuousSlots.
  pose proof (sortBy_Forall DateTimeUtils.startTime_le P slots Hall)
    as Hsorted.
  destruct (sortBy DateTimeUtils.startTime_le slots) as [| first rest];
    [constructor |].
  inversion Hsorted; subst.
  apply merge_loop_Forall; [assumption | assumption | constructor].
Qed.

End MergeKeeps.

Lemma slotAvoids_merged day b current next :
  busy_start b < busy_end b ->
  slotAvoids day b current -> slotAvoids day b next ->
  touches current next = true ->
  slotAvoids day b (mergedSlot current next).
Proof.
  intros Hb (cs & ce & Hc & Hcfree) (ns & ne & Hn & Hnfree) Ht.
  rewrite (touches_span _ _ _ _ _ _ Hc Hn) in Ht. apply Z.leb_le in Ht.
  exists cs, (Z.max ce ne).
  split; [apply (slotSpan_mergedSlot _ _ cs ce ns ne); assumption |].
  unfold clockOn, Dayjs.msPerMinute in *. lia.
Qed.

(** ** From gaps to clock texts *)

Lemma clockOn_minuteOfDay t :
  clockOn (Dayjs.formatDay t) (Dayjs.minuteOfDay t)
  = t - t mod Dayjs.msPerMinute.
Proof.
  unfold clockOn, Dayjs.ofDay, Dayjs.formatDay, Dayjs.minuteOfDay,
    Dayjs.msPerDay, Dayjs.msPerMinute.
  Z.div_mod_to_equations. lia.
Qed.

Lemma formatDay_between s c e :
  s <= c -> c <= e -> Dayjs.formatDay s = Dayjs.formatDay e ->
  Dayjs.formatDay c = Dayjs.formatDay s.
Proof.
  unfold Dayjs.formatDay, Dayjs.msPerDay. intros Hs He Hday.
  apply Z.le_antisymm.
  - rewrite Hday. apply Z.div_le_mono; lia.
  - apply Z.div_le_mono; lia.
Qed.

(** A gap of a window of a day, written as clock texts, avoids every busy
    interval that ends on a whole minute or with a day. *)
Lemma gapOf_avoids busy range slot day b :
  gapOf busy range slot ->
  (forall s, fst range = Some s -> Dayjs.formatDay s = day) ->
  (forall e, snd range = Some e -> Dayjs.formatDay e = day) ->
  In b busy -> wholeMinuteOrDayEnd (busy_end b) ->
  slotAvoids day b slot.
Proof.
  intros (s & e & c & e' & Hs & He & -> & Hsc & Hee & Hlong & Hfree)
    Hsday Heday Hb Hend.
  specialize (Hsday s Hs). specialize (Heday e He).
  rewrite Forall_forall in Hfree. specialize (Hfree b Hb).
  unfold TIME_CONSTANTS.MIN_SLOT_DURATION, Dayjs.msPerMinute in Hlong.
  assert (Hcday : Dayjs.formatDay c = day).
  { rewrite <- Hsday. apply (formatDay_between s c e); [lia | lia | congruence]. }
  assert (He'day : Dayjs.formatDay e' = day).
  { rewrite <- Hsday. apply (formatDay_between s e' e); [lia | lia | congruence]. }
  exists (Dayjs.minuteOfDay c), (Dayjs.minuteOfDay e').
  split; [apply slotSpan_mkSlot |].
  rewrite <- Hcday at 2. rewrite <- He'day at 1.
  rewrite !clockOn_minuteOfDay.
  destruct Hfree as [Hbefore | Hafter].
  - left. unfold Dayjs.msPerMinute. Z.div_mod_to_equations. lia.
  - right. destruct Hend as [Hminute | Hdayend].
    + unfold Dayjs.msPerMinute in *. Z.div_mod_to_equations. lia.
    + unfold Dayjs.formatDay, Dayjs.msPerDay, Dayjs.msPerMinute in *.
      Z.div_mod_to_equations. lia.
Qed.

(** ** The rows of the result *)

Lemma forEachDate_rows now events timeSlots dates :
  forall availableSlots days,
  CalendarService.forEachDate now events timeSlots dates availableSlots
  = Ok days ->
  forall day, In day days ->
    In day availableSlots
    \/ exists date daySlots,
         In date dates
         /\ CalendarService.calculateDayAvailableSlots now events date
              (windowsOf timeSlots date) = Ok daySlots
         /\ daySlots <> []
         /\ day = rowOf date daySlots.
Proof.
  induction dates as [| d rest IH]; intros availableSlots days;
    cbn [CalendarService.forEachDate].
  - intros H. injection H as <-. auto.
  - unfold bind. fold (windowsOf timeSlots d).
    destruct (CalendarService.calculateDayAvailableSlots now events d _)
      as [daySlots | err] eqn:Hday; [| discriminate].
    destruct (0 <? List.length daySlots)%nat eqn:Hlen; intros Hrun day Hin;
      destruct (IH _ _ Hrun day Hin) as [Hacc | (date & ds & Hd & Hds & Hne & ->)].
    + apply in_app_iff in Hacc. destruct Hacc as [Hacc | [<- | []]];
        [left; exact Hacc |].
      right. exists d, daySlots. repeat split; [left; reflexivity | exact Hday |].
      intros ->. discriminate Hlen.
    + right. exists date, ds. repeat split; [right; exact Hd | exact Hds | exact Hne].
    + left. exact Hacc.
    + right. exists date, ds. repeat split; [right; exact Hd | exact Hds | exact Hne].
Qed.

Lemma calculateAvailableSlots_rows now events startDate endDate timeSlots days :
  CalendarService.calculateAvailableSlots now events startDate endDate
    timeSlots = Ok days ->
  forall day, In day days ->
  exists date daySlots,
    In date (CalendarService.targetDates startDate endDate timeSlots)
    /\ CalendarService.calculateDayAvailableSlots now events date
         (windowsOf timeSlots date) = Ok daySlots
    /\ daySlots <> []
    /\ day = rowOf date daySlots.
Proof.
  intros Hrun day Hin.
  destruct (forEachDate_rows now events timeSlots _ _ _ Hrun day Hin)
    as [[] | H]; exact H.
Qed.

Lemma slotRanges_on_day date slotsForDate range :
  forallb pickedWindow slotsForDate = true ->
  In range (CalendarService.slotRanges date slotsForDate) ->
  (forall s, fst range = Some s -> Dayjs.formatDay s = Dayjs.formatDay date)
  /\ (forall e, snd range = Some e -> Dayjs.formatDay e = Dayjs.formatDay date).
Proof.
  intros Hpicked. rewrite forallb_forall in Hpicked.
  unfold CalendarService.slotRanges.
  destruct (0 <? List.length slotsForDate)%nat.
  - intros Hin. apply in_map_iff in Hin. destruct Hin as (slot & <- & Hslot).
    cbn [fst snd].
    destruct (pickedWindow_range (Dayjs.formatDay date) slot
                (Hpicked slot Hslot)) as (a & b & Ha & Hb & Hsa & Heb).
    apply clockMinutes_range in Ha, Hb.
    split; intros t Ht.
    + assert (Heq : clockOn (Dayjs.formatDay date) a = t) by congruence.
      rewrite <- Heq. apply formatDay_ofDay_clock. exact Ha.
    + assert (Heq : clockOn (Dayjs.formatDay date) b = t) by congruence.
      rewrite <- Heq. apply formatDay_ofDay_clock. exact Hb.
  - intros [<- | []]. cbn [fst snd]. split; intros t Ht.
    + assert (Heq : Dayjs.atHour date TIME_CONSTANTS.CORE_TIME_START_HOUR = t)
        by congruence.
      rewrite <- Heq. apply formatDay_atHour.
      unfold TIME_CONSTANTS.CORE_TIME_START_HOUR. lia.
    + assert (Heq : Dayjs.atHour date TIME_CONSTANTS.CORE_TIME_END_HOUR = t)
        by congruence.
      rewrite <- Heq. apply formatDay_atHour.
      unfold TIME_CONSTANTS.CORE_TIME_END_HOUR. lia.
Qed.

(** The slots of a row avoid the busy interval of every event of its
    date that ends after it starts, on a whole minute or with a day. *)
Lemma rows_avoid now events startDate endDate timeSlots days day slot event b :
  forallb pickedWindow timeSlots = true ->
  CalendarService.calculateAvailableSlots now events startDate endDate
    timeSlots = Ok days ->
  In day days -> In slot (slots day) ->
  In event events ->
  CalendarService.onTargetDate (day_date day) event = true ->
  CalendarService.toBusyInterval now event = Ok b ->
  busy_start b < busy_end b ->
  wholeMinuteOrDayEnd (busy_end b) ->
  slotAvoids (day_date day) b slot.
Proof.
  intros Hpicked Hrun Hday Hslot Hevent Hon Hb Hlt Hend.
  destruct (calculateAvailableSlots_rows _ _ _ _ _ _ Hrun day Hday)
    as (date & daySlots & _ & Hcalc & _ & ->).
  cbn [rowOf day_date slots] in *. unfold DateTimeUtils.formatDate in *.
  destruct (calculateDayAvailableSlots_gaps _ _ _ _ _ Hcalc)
    as (busy & Hbusy & Hgaps).
  destruct (dayEvents_spec _ _ _ _ Hbusy) as (_ & Hin & _).
  destruct (Hin event Hevent Hon) as (b' & Hb' & Hbin).
  assert (b' = b) by congruence. subst b'.
  assert (Hall : Forall (slotAvoids (Dayjs.formatDay date) b) daySlots).
  { eapply Forall_impl; [| exact Hgaps].
    intros sl (range & Hrange & Hgap).
    destruct (slotRanges_on_day _ _ _
                (forallb_filter _ _ _ Hpicked) Hrange) as [Hs He].
    apply (gapOf_avoids busy range sl); assumption. }
  apply (mergeContinuousSlots_Forall (slotAvoids (Dayjs.formatDay date) b))
    in Hall.
  - rewrite Forall_forall in Hall. exact (Hall slot Hslot).
  - intros current next. apply slotAvoids_merged. exact Hlt.
Qed.

(** X18.  Free slots keep the buffer.  In a search without preferred
    windows, where the core time from 10:00 to 22:00 of each date is
    scanned, a timed event that starts on the date of a row, ends no
    earlier than it starts and ends on a whole minute is at least
    [BUFFER_TIME_MINUTES] (20) minutes away from every slot of that row,
    after the merge: the slot, read as the two clock texts it shows, ends
    20 minutes or more before the event starts, or starts 20 minutes or
    more after the event ends. *)
Theorem free_slots_keep_buffer
    (now : Z) (events : list CalendarEvent) (startDate endDate : Z)
    (days : list DayResult)
    (day : DayResult) (slot : Slot) (event : CalendarEvent)
    (s e : DateTime) :
  CalendarService.calculateAvailableSlots now events startDate endDate
    [] = Ok days ->
  In day days -> In slot (slots day) ->
  In event events ->
  start event = Some {| date := None; dateTime := Some s |} ->
  end_ event = Some {| date := None; dateTime := Some e |} ->
  datePart s = day_date day ->
  instant s <= instant e ->
  instant e mod Dayjs.msPerMinute = 0 ->
  exists sm em,
    slotSpan slot = Some (sm, em)
    /\ (clockOn (day_date day) em
        + TIME_CONSTANTS.BUFFER_TIME_MINUTES * Dayjs.msPerMinute
        <= instant s
        \/ instant e + TIME_CONSTANTS.BUFFER_TIME_MINUTES * Dayjs.msPerMinute
           <= clockOn (day_date day) sm).
Proof.
  intros Hrun Hday Hslot Hevent Hstart Hend Hdate Hle Hminute.
  destruct (rows_avoid now events startDate endDate [] days day slot
              event
              {| busy_start :=
                   Dayjs.subtract (instant s)
                     TIME_CONSTANTS.BUFFER_TIME_MINUTES Dayjs.msPerMinute;
                 busy_end :=
                   Dayjs.add (instant e)
                     TIME_CONSTANTS.BUFFER_TIME_MINUTES Dayjs.msPerMinute |})
    as (sm & em & Hspan & Hfree); try assumption.
  - reflexivity.
  - unfold CalendarService.onTargetDate. rewrite Hstart.
    cbn [CalendarService.optDate CalendarService.optDateTime date dateTime].
    apply Z.eqb_eq. exact Hdate.
  - unfold CalendarService.toBusyInterval. rewrite Hstart, Hend.
    reflexivity.
  - cbn [busy_start busy_end]. unfold Dayjs.subtract, Dayjs.add,
      TIME_CONSTANTS.BUFFER_TIME_MINUTES, Dayjs.msPerMinute. lia.
  - left. cbn [busy_end]. unfold Dayjs.add,
      TIME_CONSTANTS.BUFFER_TIME_MINUTES, Dayjs.msPerMinute in *.
    Z.div_mod_to_equations. lia.
  - exists sm, em. split; [exact Hspan |].
    cbn [busy_start busy_end] in Hfree.
    unfold Dayjs.subtract, Dayjs.add in Hfree. lia.
Qed.

Lemma free_slots_keep_buffer_witness :
  exists sm em,
    slotSpan (freeSlot "10:20" "13:40") = Some (sm, em)
    /\ (clockOn scenarioDay em
        + TIME_CONSTANTS.BUFFER_TIME_MINUTES * Dayjs.msPerMinute
        <= instant (atClock scenarioDay 14 0)
        \/ instant (atClock scenarioDay 15 0)
           + TIME_CONSTANTS.BUFFER_TIME_MINUTES * Dayjs.msPerMinute
           <= clockOn scenarioDay sm).
Proof.
  apply (free_slots_keep_buffer 0 (scenarioEvents scenarioDay)
           (Dayjs.ofDay scenarioDay) (Dayjs.ofDay scenarioDay) _
           _ (freeSlot "10:20" "13:40") (timedEvent scenarioDay 14 0 15 0)
           (atClock scenarioDay 14 0) (atClock scenarioDay 15 0)
           (scenario_result 0) (or_introl eq_refl) (or_introl eq_refl)).
  - right. left. reflexivity.
  - reflexivity.
  - reflexivity.
  - reflexivity.
  - vm_compute. discriminate.
  - vm_compute. reflexivity.
Defined.

Lemma insertBy_not_nil {A} (le : A -> A -> bool) x l : insertBy le x l <> [].
Proof. destruct l as [| y l]; simpl; [| destruct (le x y)]; discriminate. Qed.

Lemma merge_loop_not_nil rest : forall current merged,
  DateTimeUtils.mergeContinuousSlots_loop rest current merged <> [].
Proof.
  induction rest as [| next rest IH]; intros current merged;
    cbn [DateTimeUtils.mergeContinuousSlots_loop].
  - destruct merged; discriminate.
  - destruct (Dayjs.isSameOrAfter _ _); apply IH.
Qed.

Lemma mergeContinuousSlots_not_nil slots :
  slots <> [] -> DateTimeUtils.mergeContinuousSlots slots <> [].
Proof.
  intros Hne. unfold DateTimeUtils.mergeContinuousSlots.
  destruct slots as [| x l]; [contradiction |]. cbn [sortBy].
  pose proof (insertBy_not_nil DateTimeUtils.startTime_le x
                (sortBy DateTimeUtils.startTime_le l)) as Hins.
  destruct (insertBy _ _ _) as [| first rest]; [contradiction |].
  apply merge_loop_not_nil.
Qed.

Lemma rows_longEnough now events startDate endDate timeSlots days :
  forallb pickedWindow timeSlots = true ->
  CalendarService.calculateAvailableSlots now events startDate endDate
    timeSlots = Ok days ->
  forall day, In day days -> Forall longEnough (slots day).
Proof.
  intros Hpicked Hrun day Hday.
  unfold CalendarService.calculateAvailableSlots in Hrun.
  apply forEachDate_longEnough in Hrun; [| exact Hpicked | constructor].
  rewrite Forall_forall in Hrun. exact (Hrun day Hday).
Qed.

(** X19.  An all-day event blocks its date.  When an event has a start
    date and a later end date (the end date of an all-day event is
    exclusive), the result has no row for the start date, whatever the
    other events are, in a search without preferred windows and in one
    whose windows all have clock texts ['HH:mm'] of the day for their
    ends, as the time pickers write them. *)
Theorem all_day_event_blocks_date
    (now : Z) (events : list CalendarEvent) (startDate endDate : Z)
    (timeSlots : list TimeSlot) (days : list DayResult)
    (event : CalendarEvent) (sd ed : Day) (sdt edt : option DateTime) :
  forallb pickedWindow timeSlots = true ->
  CalendarService.calculateAvailableSlots now events startDate endDate
    timeSlots = Ok days ->
  In event events ->
  start event = Some {| date := Some sd; dateTime := sdt |} ->
  end_ event = Some {| date := Some ed; dateTime := edt |} ->
  sd < ed ->
  ~ In sd (map day_date days).
Proof.
  intros Hpicked Hrun Hevent Hstart Hend Hlt Hin.
  apply in_map_iff in Hin. destruct Hin as (day & Hsd & Hday).
  assert (Hslots : slots day <> []).
  { destruct (calculateAvailableSlots_rows _ _ _ _ _ _ Hrun day Hday)
      as (date & daySlots & _ & _ & Hne & ->).
    cbn [rowOf slots]. apply mergeContinuousSlots_not_nil. exact Hne. }
  destruct (slots day) as [| slot rest] eqn:Hrow; [contradiction |].
  assert (Hslot : In slot (slots day)) by (rewrite Hrow; left; reflexivity).
  pose proof (rows_longEnough _ _ _ _ _ _ Hpicked Hrun day Hday) as Hlong.
  rewrite Forall_forall in Hlong. specialize (Hlong slot Hslot).
  assert (Hspans : exists sm em,
            slotSpan slot = Some (sm, em)
            /\ TIME_CONSTANTS.MIN_SLOT_DURATION <= em - sm
            /\ slotAvoids (day_date day)
                 {| busy_start := Dayjs.startOfDay (Dayjs.ofDay sd);
                    busy_end :=
                      Dayjs.endOfDay
                        (Dayjs.subtract (Dayjs.ofDay ed) 1 Dayjs.msPerDay) |}
                 slot);
    [| destruct Hspans as (sm & em & Hspan & Hlen & sm' & em' & Hspan' & Hfree)].
  { assert (Havoid :
      slotAvoids (day_date day)
        {| busy_start := Dayjs.startOfDay (Dayjs.ofDay sd);
           busy_end :=
             Dayjs.endOfDay
               (Dayjs.subtract (Dayjs.ofDay ed) 1 Dayjs.msPerDay) |}
        slot);
      [| pose proof Havoid as (sm & em & Hspan & _);
         destruct (longEnough_span slot
                     (ex_intro _ sm (ex_intro _ em Hspan)) Hlong)
           as (sm2 & em2 & Hspan2 & Hlen2);
         exists sm2, em2; repeat split; assumption].
    apply (rows_avoid now events startDate endDate timeSlots days day slot
             event); try assumption.
    - unfold CalendarService.onTargetDate. rewrite Hstart.
      cbn [CalendarService.optDate date]. apply Z.eqb_eq. congruence.
    - unfold CalendarService.toBusyInterval. rewrite Hstart, Hend.
      reflexivity.
    - cbn [busy_start busy_end].
      unfold Dayjs.startOfDay, Dayjs.endOfDay, Dayjs.subtract,
        Dayjs.formatDay, Dayjs.ofDay, Dayjs.msPerDay.
      replace (ed * 86400000 - 1 * 86400000) with ((ed - 1) * 86400000)
        by ring.
      rewrite !Z.div_mul by discriminate. lia.
    - right. cbn [busy_end].
      unfold Dayjs.endOfDay, Dayjs.subtract, Dayjs.formatDay, Dayjs.ofDay,
        Dayjs.msPerDay.
      replace (ed * 86400000 - 1 * 86400000) with ((ed - 1) * 86400000)
        by ring.
      rewrite Z.div_mul by discriminate.
      replace ((ed - 1) * 86400000 + (86400000 - 1) + 1)
        with (ed * 86400000) by ring.
      apply Z.mod_mul. discriminate. }
  assert (Heq : (sm', em') = (sm, em)) by congruence.
  injection Heq as -> ->.
  apply slotSpan_range in Hspan. destruct Hspan as [Hsm Hem].
  cbn [busy_start busy_end] in Hfree. rewrite Hsd in Hfree.
  unfold clockOn, Dayjs.startOfDay, Dayjs.endOfDay, Dayjs.subtract,
    Dayjs.formatDay, Dayjs.ofDay, Dayjs.msPerDay, Dayjs.msPerMinute,
    TIME_CONSTANTS.MIN_SLOT_DURATION in *.
  replace (ed * 86400000 - 1 * 86400000) with ((ed - 1) * 86400000)
    in Hfree by ring.
  rewrite !Z.div_mul in Hfree by discriminate. lia.
Qed.

Lemma all_day_event_blocks_date_witness :
  ~ In scenarioDay (map day_date []).
Proof.
  apply (all_day_event_blocks_date 0 [allDayEvent scenarioDay]
           (Dayjs.ofDay scenarioDay) (Dayjs.ofDay scenarioDay)
           [{| ts_date := scenarioDay; ts_start := "09:00";
               ts_end := "12:00" |}] []
           (allDayEvent scenarioDay) scenarioDay (scenarioDay + 1) None None).
  - reflexivity.
  - vm_compute. reflexivity.
  - left. reflexivity.
  - reflexivity.
  - reflexivity.
  - lia.
Defined.

Lemma clockSlot_merged current next :
  clockSlot current -> clockSlot next -> clockSlot (mergedSlot current next).
Proof.
  intros (cs & ce & Hc) (ns & ne & Hn).
  exists cs, (Z.max ce ne). apply (slotSpan_mergedSlot _ _ cs ce ns ne Hc Hn).
Qed.

(** The times of every slot of a row are clock texts: each slot is written
    with [format('HH:mm')], and the merge keeps texts that it finds. *)
Lemma rows_clockSlot now events startDate endDate timeSlots days :
  CalendarService.calculateAvailableSlots now events startDate endDate
    timeSlots = Ok days ->
  forall day, In day days -> Forall clockSlot (slots day).
Proof.
  intros Hrun day Hday.
  destruct (calculateAvailableSlots_rows _ _ _ _ _ _ Hrun day Hday)
    as (date & daySlots & _ & Hcalc & _ & ->).
  cbn [rowOf slots].
  destruct (calculateDayAvailableSlots_gaps _ _ _ _ _ Hcalc)
    as (busy & _ & Hgaps).
  apply (mergeContinuousSlots_Forall clockSlot).
  - intros current next Hc Hn _. apply clockSlot_merged; assumption.
  - eapply Forall_impl; [| exact Hgaps].
    intros sl (range & _ & (s & e & c & e' & _ & _ & -> & _)).
    eexists _, _. apply slotSpan_mkSlot.
Qed.

Lemma sumMinutes_fold (l : list Slot) : forall acc,
  Forall clockSlot l ->
  Forall longEnough l ->
  fold_left
    (fun sum slot =>
       CalendarService.numPlus sum
         (Dayjs.diffMinute (DateTimeUtils.dayjs2000 (endTime slot))
            (DateTimeUtils.dayjs2000 (startTime slot))))
    l (Some acc)
  = Some (acc + fold_right Z.add 0 (map spanMinutes l))
  /\ TIME_CONSTANTS.MIN_SLOT_DURATION * Z.of_nat (List.length l)
     <= fold_right Z.add 0 (map spanMinutes l).
Proof.
  induction l as [| slot l IH]; intros acc Hclock Hall.
  - cbn [fold_left map fold_right List.length]. split; [f_equal; lia |].
    unfold TIME_CONSTANTS.MIN_SLOT_DURATION. lia.
  - inversion Hall as [| ? ? Hslot Hrest]; subst.
    inversion Hclock as [| ? ? Hcslot Hcrest]; subst.
    apply longEnough_span in Hslot; [| exact Hcslot].
    destruct Hslot as (sm & em & Hspan & Hlen).
    pose proof (slotMinutes_span slot sm em Hspan) as Hm.
    unfold slotMinutes in Hm.
    cbn [fold_left map fold_right]. rewrite Hm.
    cbn [CalendarService.numPlus].
    destruct (IH (acc + (em - sm)) Hcrest Hrest) as [Hsum Hbound].
    assert (Hsp : spanMinutes slot = em - sm)
      by (unfold spanMinutes; rewrite Hspan; reflexivity).
    rewrite Hsum, Hsp.
    split; [f_equal; lia |].
    rewrite length_cons, Nat2Z.inj_succ.
    unfold TIME_CONSTANTS.MIN_SLOT_DURATION in *. lia.
Qed.

(** X20.  The totals of a row.  In a search without preferred windows,
    where the core time from 10:00 to 22:00 of each date is scanned, every
    row of the result has at least one slot; [totalSlots] is the number of
    its slots; [totalMinutes] is a number, never [NaN]: the sum of the
    lengths of its slots in minutes, which is at least 30 for each slot. *)
Theorem rows_totals
    (now : Z) (events : list CalendarEvent) (startDate endDate : Z)
    (days : list DayResult) (day : DayResult) :
  CalendarService.calculateAvailableSlots now events startDate endDate
    [] = Ok days ->
  In day days ->
  slots day <> []
  /\ totalSlots day = List.length (slots day)
  /\ totalMinutes day
     = Some (fold_right Z.add 0 (map spanMinutes (slots day)))
  /\ TIME_CONSTANTS.MIN_SLOT_DURATION * Z.of_nat (totalSlots day)
     <= fold_right Z.add 0 (map spanMinutes (slots day)).
Proof.
  intros Hrun Hday.
  pose proof (rows_longEnough now events startDate endDate [] days eq_refl
                Hrun day Hday) as Hlong.
  pose proof (rows_clockSlot _ _ _ _ _ _ Hrun day Hday) as Hclock.
  destruct (calculateAvailableSlots_rows _ _ _ _ _ _ Hrun day Hday)
    as (date & daySlots & _ & _ & Hne & ->).
  cbn [rowOf slots totalSlots totalMinutes] in *.
  destruct (sumMinutes_fold _ 0 Hclock Hlong) as [Hsum Hbound].
  split; [apply mergeContinuousSlots_not_nil; exact Hne |].
  split; [reflexivity |].
  split; [| exact Hbound].
  unfold CalendarService.sumMinutes. rewrite Hsum. f_equal.
Qed.

Lemma rows_totals_witness :
  [freeSlot "10:20" "13:40"; freeSlot "15:20" "22:00"] <> []
  /\ 2%nat = List.length [freeSlot "10:20" "13:40"; freeSlot "15:20" "22:00"]
  /\ Some 600
     = Some (fold_right Z.add 0
               (map spanMinutes
                  [freeSlot "10:20" "13:40"; freeSlot "15:20" "22:00"]))
  /\ TIME_CONSTANTS.MIN_SLOT_DURATION * Z.of_nat 2
     <= fold_right Z.add 0
          (map spanMinutes
             [freeSlot "10:20" "13:40"; freeSlot "15:20" "22:00"]).
Proof.
  apply (rows_totals 0 (scenarioEvents scenarioDay)
           (Dayjs.ofDay scenarioDay) (Dayjs.ofDay scenarioDay) _
           {| day_date := scenarioDay;
              slots := [freeSlot "10:20" "13:40"; freeSlot "15:20" "22:00"];
              totalSlots := 2;
              totalMinutes := Some 600 |}
           (scenario_result 0) (or_introl eq_refl)).
Defined.

(** ** One row for each date *)

Lemma StronglySorted_remove {A} (R : A -> A -> Prop) l1 x l2 :
  StronglySorted R (l1 ++ x :: l2) -> StronglySorted R (l1 ++ l2).
Proof.
  induction l1 as [| y l1 IH]; cbn [app]; intros Hs;
    inversion Hs as [| ? ? Hrest Hall]; subst.
  - exact Hrest.
  - constructor; [apply IH; exact Hrest |].
    apply Forall_app in Hall. destruct Hall as [H1 H2].
    inversion H2; subst. apply Forall_app. split; assumption.
Qed.

Lemma forEachDate_StronglySorted (R : Day -> Day -> Prop)
    now events timeSlots dates :
  forall availableSlots days,
  StronglySorted R (map day_date availableSlots ++ map Dayjs.formatDay dates) ->
  CalendarService.forEachDate now events timeSlots dates availableSlots
  = Ok days ->
  StronglySorted R (map day_date days).
Proof.
  induction dates as [| d rest IH]; intros availableSlots days Hs;
    cbn [CalendarService.forEachDate].
  - intros H. injection H as <-. cbn [map] in Hs. rewrite app_nil_r in Hs.
    exact Hs.
  - unfold bind.
    destruct (CalendarService.calculateDayAvailableSlots now events d _)
      as [daySlots | err]; [| discriminate].
    cbn [map] in Hs.
    destruct (0 <? List.length daySlots)%nat; apply IH.
    + rewrite map_app, <- app_assoc. exact Hs.
    + apply StronglySorted_remove in Hs. exact Hs.
Qed.

Lemma NoDup_StronglySorted {A} (l : list A) :
  NoDup l <-> StronglySorted (fun a b => a <> b) l.
Proof.
  induction l as [| x l IH]; split; intros H; try constructor;
    inversion H; subst.
  - apply IH. assumption.
  - apply Forall_forall. intros y Hy ->. contradiction.
  - match goal with
    | Hall : Forall _ l |- _ =>
        rewrite Forall_forall in Hall; intros Hin; exact (Hall x Hin eq_refl)
    end.
  - apply IH. assumption.
Qed.

Lemma seq_days_sorted a (n start : nat) :
  StronglySorted Z.lt (map (fun i => a + Z.of_nat i) (seq start n)).
Proof.
  revert start. induction n as [| n IH]; intros start; cbn [seq map].
  - constructor.
  - constructor; [apply IH |].
    apply Forall_forall. intros y Hy. apply in_map_iff in Hy.
    destruct Hy as (i & <- & Hi). apply in_seq in Hi. lia.
Qed.

(** X21.  One row for each date.  In a search without preferred
    windows the rows of the result are in ascending order of their dates,
    so no two rows have the same date. *)
Theorem rows_one_per_date
    (now : Z) (events : list CalendarEvent) (startDate endDate : Z)
    (days : list DayResult) :
  CalendarService.calculateAvailableSlots now events startDate endDate
    [] = Ok days ->
  StronglySorted Z.lt (map day_date days)
  /\ NoDup (map day_date days).
Proof.
  intros Hrun. unfold CalendarService.calculateAvailableSlots in Hrun.
  assert (Hsorted : StronglySorted Z.lt (map day_date days)).
  { eapply forEachDate_StronglySorted; [| exact Hrun].
    cbn [map app].
    unfold CalendarService.targetDates. cbn [List.length Nat.ltb Nat.leb].
    rewrite generateDateRange_days. apply seq_days_sorted. }
  split; [exact Hsorted |].
  apply NoDup_StronglySorted.
  clear Hrun. induction Hsorted as [| d l Hrest IH Hall]; constructor.
  - exact IH.
  - eapply Forall_impl; [| exact Hall]. intros y Hlt. lia.
Qed.

Lemma rows_one_per_date_witness :
  StronglySorted Z.lt
    (map day_date
       [{| day_date := scenarioDay;
           slots := [freeSlot "10:20" "13:40"; freeSlot "15:20" "22:00"];
           totalSlots := 2;
           totalMinutes := Some 600 |}])
  /\ NoDup (map day_date
              [{| day_date := scenarioDay;
                  slots := [freeSlot "10:20" "13:40"; freeSlot "15:20" "22:00"];
                  totalSlots := 2;
                  totalMinutes := Some 600 |}]).
Proof.
  apply (rows_one_per_date 0 (scenarioEvents scenarioDay)
           (Dayjs.ofDay scenarioDay) (Dayjs.ofDay scenarioDay) _
           (scenario_result 0)).
Defined.

(** ** Slots inside the windows *)

Lemma minuteOfDay_mono s c :
  Dayjs.formatDay s = Dayjs.formatDay c -> s <= c ->
  Dayjs.minuteOfDay s <= Dayjs.minuteOfDay c.
Proof.
  unfold Dayjs.formatDay, Dayjs.minuteOfDay, Dayjs.msPerDay,
    Dayjs.msPerMinute.
  intros Hday Hle. rewrite (Z.mod_eq s), (Z.mod_eq c), Hday by lia.
  apply Z.div_le_mono; lia.
Qed.

Lemma minuteOfDay_clock day m :
  0 <= m < 1440 ->
  Dayjs.minuteOfDay (Dayjs.ofDay day + m * Dayjs.msPerMinute) = m.
Proof.
  intros Hm. unfold Dayjs.minuteOfDay, Dayjs.ofDay, Dayjs.msPerDay,
    Dayjs.msPerMinute.
  rewrite Z.add_comm, Z_mod_plus_full.
  rewrite Z.mod_small by lia. apply Z.div_mul. discriminate.
Qed.

Lemma minuteOfDay_atHour d h :
  0 <= h < 24 -> Dayjs.minuteOfDay (Dayjs.atHour d h) = 60 * h.
Proof.
  intros Hh. unfold Dayjs.minuteOfDay, Dayjs.atHour, Dayjs.startOfDay,
    Dayjs.formatDay, Dayjs.msPerDay, Dayjs.msPerHour, Dayjs.msPerMinute,
    Dayjs.msPerSecond.
  generalize (d / 86400000). intros k.
  assert (Hr : 0 <= d mod 1000 < 1000) by (apply Z.mod_pos_bound; lia).
  generalize dependent (d mod 1000). intros r Hr.
  replace (k * 86400000 + h * 3600000 + r)
    with (h * 3600000 + r + k * 86400000) by ring.
  rewrite Z_mod_plus_full. rewrite Z.mod_small by lia.
  replace (h * 3600000 + r) with (r + (60 * h) * 60000) by ring.
  rewrite Z.div_add by discriminate. rewrite Z.div_small by lia. lia.
Qed.

Lemma gapOf_inside busy ranges range slot :
  In range ranges ->
  (forall s e, fst range = Some s -> snd range = Some e ->
     Dayjs.formatDay s = Dayjs.formatDay e) ->
  gapOf busy range slot ->
  insideRanges ranges slot.
Proof.
  intros Hin Hday (s & e & c & e' & Hs & He & -> & Hsc & Hee & Hlong & _).
  specialize (Hday s e Hs He).
  unfold TIME_CONSTANTS.MIN_SLOT_DURATION, Dayjs.msPerMinute in Hlong.
  exists (Dayjs.minuteOfDay c), (Dayjs.minuteOfDay e').
  split; [apply slotSpan_mkSlot |]. split.
  - exists range, s. repeat split; [exact Hin | exact Hs |].
    apply minuteOfDay_mono; [| exact Hsc].
    symmetry. apply (formatDay_between s c e); [lia | lia | exact Hday].
  - exists range, e. repeat split; [exact Hin | exact He |].
    apply minuteOfDay_mono; [| exact Hee].
    rewrite <- Hday. apply (formatDay_between s e' e); [lia | lia | exact Hday].
Qed.

Lemma insideRanges_merged ranges current next :
  insideRanges ranges current -> insideRanges ranges next ->
  touches current next = true ->
  insideRanges ranges (mergedSlot current next).
Proof.
  intros (cs & ce & Hc & Hcs & Hce) (ns & ne & Hn & Hns & Hne) _.
  exists cs, (Z.max ce ne).
  split; [apply (slotSpan_mergedSlot _ _ cs ce ns ne); assumption |].
  split; [exact Hcs |].
  destruct (Z.max_spec ce ne) as [[_ ->] | [_ ->]]; assumption.
Qed.

(** The slots of the row of a date lie inside the windows scanned for
    that date. *)
Lemma rows_inside now events startDate endDate timeSlots days day :
  forallb pickedWindow timeSlots = true ->
  CalendarService.calculateAvailableSlots now events startDate endDate
    timeSlots = Ok days ->
  In day days ->
  exists date,
    In date (CalendarService.targetDates startDate endDate timeSlots)
    /\ day_date day = Dayjs.formatDay date
    /\ Forall
         (insideRanges
            (CalendarService.slotRanges date (windowsOf timeSlots date)))
         (slots day).
Proof.
  intros Hpicked Hrun Hday.
  destruct (calculateAvailableSlots_rows _ _ _ _ _ _ Hrun day Hday)
    as (date & daySlots & Hdate & Hcalc & _ & ->).
  exists date. split; [exact Hdate |]. split; [reflexivity |].
  cbn [rowOf slots].
  destruct (calculateDayAvailableSlots_gaps _ _ _ _ _ Hcalc)
    as (busy & _ & Hgaps).
  apply mergeContinuousSlots_Forall; [apply insideRanges_merged |].
  eapply Forall_impl; [| exact Hgaps].
  intros sl (range & Hrange & Hgap).
  apply (gapOf_inside busy _ range); [exact Hrange | | exact Hgap].
  intros s e Hs He.
  destruct (slotRanges_on_day _ _ _ (forallb_filter _ _ _ Hpicked) Hrange)
    as [Hsd Hed].
  rewrite (Hsd s Hs), (Hed e He). reflexivity.
Qed.

(** X22.  Slots lie inside the core time.  In a search without preferred
    windows every slot of the result starts at 10:00 or later and ends at
    22:00 or earlier. *)
Theorem slots_inside_windows
    (now : Z) (events : list CalendarEvent) (startDate endDate : Z)
    (days : list DayResult) (day : DayResult) (slot : Slot) :
  CalendarService.calculateAvailableSlots now events startDate endDate
    [] = Ok days ->
  In day days -> In slot (slots day) ->
  exists sm em,
    slotSpan slot = Some (sm, em)
    /\ 60 * TIME_CONSTANTS.CORE_TIME_START_HOUR <= sm
    /\ em <= 60 * TIME_CONSTANTS.CORE_TIME_END_HOUR.
Proof.
  intros Hrun Hday Hslot.
  destruct (rows_inside now events startDate endDate [] days day eq_refl
              Hrun Hday)
    as (date & Hdate & Hdd & Hall).
  rewrite Forall_forall in Hall.
  destruct (Hall slot Hslot)
    as (sm & em & Hspan & (r1 & s & Hr1 & Hs & Hsm) & (r2 & e & Hr2 & He & Hem)).
  exists sm, em. split; [exact Hspan |].
  cbn [windowsOf filter CalendarService.slotRanges List.length Nat.ltb
         Nat.leb In] in Hr1, Hr2.
  destruct Hr1 as [<- | []]. destruct Hr2 as [<- | []].
  cbn [fst snd] in Hs, He.
  assert (Hs' : Dayjs.atHour date TIME_CONSTANTS.CORE_TIME_START_HOUR = s)
    by congruence.
  assert (He' : Dayjs.atHour date TIME_CONSTANTS.CORE_TIME_END_HOUR = e)
    by congruence.
  rewrite <- Hs' in Hsm. rewrite <- He' in Hem.
  rewrite minuteOfDay_atHour in Hsm, Hem
    by (unfold TIME_CONSTANTS.CORE_TIME_START_HOUR,
          TIME_CONSTANTS.CORE_TIME_END_HOUR; lia).
  split; assumption.
Qed.

Lemma slots_inside_windows_witness :
  exists sm em,
    slotSpan (freeSlot "15:20" "22:00") = Some (sm, em)
    /\ 60 * TIME_CONSTANTS.CORE_TIME_START_HOUR <= sm
    /\ em <= 60 * TIME_CONSTANTS.CORE_TIME_END_HOUR.
Proof.
  apply (slots_inside_windows 0 (scenarioEvents scenarioDay)
           (Dayjs.ofDay scenarioDay) (Dayjs.ofDay scenarioDay) _
           _ (freeSlot "15:20" "22:00")
           (scenario_result 0) (or_introl eq_refl)
           (or_intror (or_introl eq_refl))).
Defined.

(** ** A date without events *)

Lemma forEachDate_complete now events timeSlots dates :
  forall availableSlots days,
  CalendarService.forEachDate now events timeSlots dates availableSlots
  = Ok days ->
  (forall day, In day availableSlots -> In day days)
  /\ forall date daySlots,
       In date dates ->
       CalendarService.calculateDayAvailableSlots now events date
         (windowsOf timeSlots date) = Ok daySlots ->
       daySlots <> [] ->
       In (rowOf date daySlots) days.
Proof.
  induction dates as [| d rest IH]; intros availableSlots days;
    cbn [CalendarService.forEachDate].
  - intros H. injection H as <-. split; [auto | intros ? ? []].
  - unfold bind. fold (windowsOf timeSlots d).
    destruct (CalendarService.calculateDayAvailableSlots now events d _)
      as [daySlots | err] eqn:Hday; [| discriminate].
    destruct (0 <? List.length daySlots)%nat eqn:Hlen; intros Hrun;
      destruct (IH _ _ Hrun) as [Hacc Hrest]; split.
    + intros day Hin. apply Hacc. apply in_app_iff. left. exact Hin.
    + intros date ds [<- | Hin] Hds Hne.
      * assert (ds = daySlots) by congruence. subst ds.
        apply Hacc. apply in_app_iff. right. left. reflexivity.
      * apply Hrest; assumption.
    + exact Hacc.
    + intros date ds [<- | Hin] Hds Hne.
      * assert (ds = daySlots) by congruence. subst ds.
        destruct daySlots; [contradiction | discriminate Hlen].
      * apply Hrest; assumption.
Qed.

Lemma formatHHmm_atHour d h :
  0 <= h < 24 ->
  Dayjs.formatHHmm (Some (Dayjs.atHour d h))
  = (Dayjs.pad2 h ++ ":" ++ Dayjs.pad2 0)%string.
Proof.
  intros Hh. unfold Dayjs.formatHHmm.
  pose proof (minuteOfDay_split (Dayjs.atHour d h)) as (Hsplit & Hhour & Hmin).
  rewrite (minuteOfDay_atHour d h Hh) in Hsplit.
  assert (Hhour' : Dayjs.hourOf (Dayjs.atHour d h) = h) by lia.
  assert (Hmin' : Dayjs.minuteOf (Dayjs.atHour d h) = 0) by lia.
  rewrite Hhour', Hmin'. reflexivity.
Qed.

Lemma atHour_diff d h1 h2 :
  Dayjs.atHour d h2 - Dayjs.atHour d h1 = (h2 - h1) * Dayjs.msPerHour.
Proof. unfold Dayjs.atHour. ring. Qed.

(** A date on which no event starts is free for the whole core time. *)
Lemma calculateDayAvailableSlots_free_day now events date :
  (forall event, In event events ->
     CalendarService.onTargetDate (Dayjs.formatDay date) event = false) ->
  CalendarService.calculateDayAvailableSlots now events date []
  = Ok [freeSlot "10:00" "22:00"].
Proof.
  intros Hnone.
  assert (Hfilter :
    filter (CalendarService.onTargetDate (Dayjs.formatDay date)) events = []).
  { clear -Hnone. induction events as [| event events IH]; [reflexivity |].
    cbn [filter]. rewrite (Hnone event (or_introl eq_refl)).
    apply IH. intros ev Hev. apply Hnone. right. exact Hev. }
  unfold CalendarService.calculateDayAvailableSlots,
    CalendarService.dayEvents, bind.
  rewrite Hfilter. cbn [mapM sortBy].
  unfold CalendarService.slotRanges. cbn [List.length Nat.ltb Nat.leb].
  cbn [fold_left CalendarService.scanRange CalendarService.sweepEvents].
  cbn [Dayjs.isBefore Dayjs.diffMinute Dayjs.geNum].
  rewrite atHour_diff.
  assert (Hlt : (Dayjs.atHour date TIME_CONSTANTS.CORE_TIME_START_HOUR
                 <? Dayjs.atHour date TIME_CONSTANTS.CORE_TIME_END_HOUR)
                = true).
  { apply Z.ltb_lt.
    pose proof (atHour_diff date TIME_CONSTANTS.CORE_TIME_START_HOUR
                  TIME_CONSTANTS.CORE_TIME_END_HOUR) as Hdiff.
    unfold TIME_CONSTANTS.CORE_TIME_START_HOUR,
      TIME_CONSTANTS.CORE_TIME_END_HOUR, Dayjs.msPerHour in *. lia. }
  rewrite Hlt.
  replace (TIME_CONSTANTS.MIN_SLOT_DURATION
           <=? Z.quot ((TIME_CONSTANTS.CORE_TIME_END_HOUR
                        - TIME_CONSTANTS.CORE_TIME_START_HOUR)
                       * Dayjs.msPerHour) Dayjs.msPerMinute)
    with true by (vm_compute; reflexivity).
  cbn [app]. unfold CalendarService.mkSlot.
  rewrite !formatHHmm_atHour
    by (unfold TIME_CONSTANTS.CORE_TIME_START_HOUR,
          TIME_CONSTANTS.CORE_TIME_END_HOUR; lia).
  reflexivity.
Qed.

Lemma free_day_result :
  CalendarService.calculateAvailableSlots 0 [] (Dayjs.ofDay scenarioDay)
    (Dayjs.ofDay (scenarioDay + 1)) []
  = Ok [coreTimeRow scenarioDay; coreTimeRow (scenarioDay + 1)].
Proof. vm_compute. reflexivity. Defined.

(** X23.  A date without events is free for the whole core time.
    Without preferred windows, every date from the day of [startDate] to
    the day of [endDate] on which no event starts has a row in the
    result, and that row is the one slot 10:00-22:00 of 720 minutes. *)
Theorem free_day_gets_core_time
    (now : Z) (events : list CalendarEvent) (startDate endDate : Z)
    (days : list DayResult) (day : Day) :
  CalendarService.calculateAvailableSlots now events startDate endDate []
  = Ok days ->
  Dayjs.formatDay startDate <= day <= Dayjs.formatDay endDate ->
  (forall event, In event events ->
     CalendarService.onTargetDate day event = false) ->
  In (coreTimeRow day) days.
Proof.
  intros Hrun Hrange Hnone.
  unfold CalendarService.calculateAvailableSlots in Hrun.
  destruct (forEachDate_complete _ _ _ _ _ _ Hrun) as [_ Hrows].
  assert (Hdate :
    exists date,
      In date (CalendarService.targetDates startDate endDate [])
      /\ Dayjs.formatDay date = day).
  { assert (Hin : In day (map Dayjs.formatDay
                            (CalendarService.targetDates startDate endDate []))).
    { unfold CalendarService.targetDates. cbn [List.length Nat.ltb Nat.leb].
      rewrite generateDateRange_days. apply in_map_iff.
      exists (Z.to_nat (day - Dayjs.formatDay startDate)).
      split; [lia | apply in_seq; lia]. }
    apply in_map_iff in Hin. destruct Hin as (date & Heq & Hin).
    exists date. split; assumption. }
  destruct Hdate as (date & Hdate & <-).
  specialize (Hrows date [freeSlot "10:00" "22:00"] Hdate).
  cbn [windowsOf filter] in Hrows.
  specialize (Hrows (calculateDayAvailableSlots_free_day now events date Hnone)
                ltac:(discriminate)).
  exact Hrows.
Qed.

Lemma free_day_gets_core_time_witness :
  In (coreTimeRow (scenarioDay + 1))
    [coreTimeRow scenarioDay; coreTimeRow (scenarioDay + 1)].
Proof.
  apply (free_day_gets_core_time 0 [] (Dayjs.ofDay scenarioDay)
           (Dayjs.ofDay (scenarioDay + 1)) _ (scenarioDay + 1)
           free_day_result).
  - vm_compute. split; discriminate.
  - intros event [].
Defined.

(** ** The order of clock texts *)

Lemma digit_compare c1 c2 v1 v2 :
  Dayjs.digitVal c1 = Some v1 -> Dayjs.digitVal c2 = Some v2 ->
  Ascii.compare c1 c2 = (v1 ?= v2).
Proof.
  unfold Dayjs.digitVal. intros H1 H2.
  destruct (_ && _) in H1; [| discriminate].
  destruct (_ && _) in H2; [| discriminate].
  assert (Hv1 : Z.of_nat (nat_of_ascii c1) - 48 = v1) by congruence.
  assert (Hv2 : Z.of_nat (nat_of_ascii c2) - 48 = v2) by congruence.
  unfold nat_of_ascii in Hv1, Hv2. rewrite N_nat_Z in Hv1, Hv2.
  unfold Ascii.compare. rewrite <- N2Z.inj_compare.
  destruct (Z.compare_spec (Z.of_N (N_of_ascii c1)) (Z.of_N (N_of_ascii c2)));
    destruct (Z.compare_spec v1 v2); try reflexivity; exfalso; lia.
Qed.

(** On clock texts the order of the texts is the order of the times. *)
Lemma leb_clock s t x y :
  Dayjs.clockMinutes s = Some x -> Dayjs.clockMinutes t = Some y ->
  String.leb s t = true -> x <= y.
Proof.
  unfold Dayjs.clockMinutes. intros Hs Ht.
  destruct s as [| h1 [| h2 [| sep [| m1 [| m2 [| ? ?]]]]]]; try discriminate.
  destruct t as [| h1' [| h2' [| sep' [| m1' [| m2' [| ? ?]]]]]];
    try discriminate.
  destruct (Dayjs.digitVal h1) as [a |] eqn:Ha; [| discriminate].
  destruct (Dayjs.digitVal h2) as [b |] eqn:Hb; [| discriminate].
  destruct (Dayjs.digitVal m1) as [c |] eqn:Hc; [| discriminate].
  destruct (Dayjs.digitVal m2) as [d |] eqn:Hd; [| discriminate].
  destruct (Dayjs.digitVal h1') as [a' |] eqn:Ha'; [| discriminate].
  destruct (Dayjs.digitVal h2') as [b' |] eqn:Hb'; [| discriminate].
  destruct (Dayjs.digitVal m1') as [c' |] eqn:Hc'; [| discriminate].
  destruct (Dayjs.digitVal m2') as [d' |] eqn:Hd'; [| discriminate].
  cbv zeta in Hs, Ht.
  destruct (_ && _) eqn:Hok in Hs; [| discriminate].
  destruct (_ && _) eqn:Hok' in Ht; [| discriminate].
  apply andb_true_iff in Hok, Hok'.
  destruct Hok as [Hok Hmin]. destruct Hok' as [Hok' Hmin'].
  apply andb_true_iff in Hok, Hok'.
  destruct Hok as [Hsep _]. destruct Hok' as [Hsep' _].
  apply Ascii.eqb_eq in Hsep, Hsep'. subst sep sep'.
  apply Z.ltb_lt in Hmin, Hmin'.
  assert (Hx : 60 * (10 * a + b) + (10 * c + d) = x) by congruence.
  assert (Hy : 60 * (10 * a' + b') + (10 * c' + d') = y) by congruence.
  clear Hs Ht.
  unfold String.leb. cbn [String.compare].
  rewrite (digit_compare _ _ _ _ Ha Ha'), (digit_compare _ _ _ _ Hb Hb'),
    (digit_compare _ _ _ _ Hc Hc'), (digit_compare _ _ _ _ Hd Hd').
  change (Ascii.compare ":" ":") with Eq.
  apply digitVal_range in Ha, Hb, Hc, Hd, Ha', Hb', Hc', Hd'.
  destruct (Z.compare_spec a a'); [| intros _; lia | discriminate].
  destruct (Z.compare_spec b b'); [| intros _; lia | discriminate].
  destruct (Z.compare_spec c c'); [| intros _; lia | discriminate].
  destruct (Z.compare_spec d d'); [| intros _; lia | discriminate].
  intros _. lia.
Qed.

(** ** The slots of a row, in order *)

Lemma apart_before l :
  Forall clockSlot l -> Sorted apart l -> StronglySorted before l.
Proof.
  intros Hclock Hs.
  assert (Hle : StronglySorted (leR DateTimeUtils.startTime_le) l).
  { apply Sorted_StronglySorted.
    - intros x y z. unfold leR. apply startTime_le_trans.
    - clear Hclock. induction Hs as [| a l Hsl IH Hhd]; constructor;
        [exact IH |].
      destruct Hhd as [| b l' [Hab _]]; constructor. exact Hab. }
  revert Hclock Hle.
  induction Hs as [| a l Hsl IH Hhd]; intros Hclock Hle; constructor;
    inversion Hclock as [| ? ? Ha Hl]; subst;
    inversion Hle as [| ? ? Hlel Hlea]; subst.
  - apply IH; assumption.
  - destruct Hhd as [| b l' [_ Hab]]; [constructor |].
    inversion Hl as [| ? ? Hb Hl']; subst.
    inversion Hlel as [| ? ? _ Hleb]; subst.
    destruct Ha as (sa & ea & Hsa). destruct Hb as (sb & eb & Hsb).
    rewrite (touches_span _ _ _ _ _ _ Hsa Hsb) in Hab. apply Z.leb_gt in Hab.
    constructor.
    + exists sa, ea, sb, eb. repeat split; [exact Hsa | exact Hsb | lia].
    + rewrite Forall_forall in *. intros c Hc.
      destruct (Hl' c Hc) as (sc & ec & Hsc).
      exists sa, ea, sc, ec. repeat split; [exact Hsa | exact Hsc |].
      pose proof (Hleb c Hc) as Hbc. unfold leR in Hbc.
      pose proof (proj1 (slotSpan_Some _ _ _ Hsb)) as Hsb'.
      pose proof (proj1 (slotSpan_Some _ _ _ Hsc)) as Hsc'.
      pose proof (leb_clock _ _ _ _ Hsb' Hsc' Hbc). lia.
Qed.

(** X24.  The slots of a row do not overlap.  In every row of the result
    the slots are in order of time, and every slot ends before each later
    slot of the row starts: no two slots of a row overlap or touch. *)
Theorem rows_slots_in_order
    (now : Z) (events : list CalendarEvent) (startDate endDate : Z)
    (timeSlots : list TimeSlot) (days : list DayResult) (day : DayResult) :
  CalendarService.calculateAvailableSlots now events startDate endDate
    timeSlots = Ok days ->
  In day days ->
  StronglySorted before (slots day).
Proof.
  intros Hrun Hday.
  pose proof (rows_clockSlot _ _ _ _ _ _ Hrun day Hday) as Hclock.
  destruct (calculateAvailableSlots_rows _ _ _ _ _ _ Hrun day Hday)
    as (date & daySlots & _ & _ & _ & ->).
  cbn [rowOf slots] in *.
  apply apart_before; [exact Hclock | apply merge_apart].
Qed.

Lemma rows_slots_in_order_witness :
  StronglySorted before
    [freeSlot "10:20" "13:40"; freeSlot "15:20" "22:00"].
Proof.
  apply (rows_slots_in_order 0 (scenarioEvents scenarioDay)
           (Dayjs.ofDay scenarioDay) (Dayjs.ofDay scenarioDay) [] _
           {| day_date := scenarioDay;
              slots := [freeSlot "10:20" "13:40"; freeSlot "15:20" "22:00"];
              totalSlots := 2;
              totalMinutes := Some 600 |}
           (scenario_result 0) (or_introl eq_refl)).
Defined.

(** ** What a merge covers *)

Lemma covered_app l1 l2 t :
  covered (l1 ++ l2) t <-> covered l1 t \/ covered l2 t.
Proof.
  unfold covered. split.
  - intros (slot & Hin & Ht). apply in_app_iff in Hin.
    destruct Hin as [Hin | Hin]; [left | right]; exists slot; auto.
  - intros [(slot & Hin & Ht) | (slot & Hin & Ht)]; exists slot;
      (split; [apply in_app_iff; auto | exact Ht]).
Qed.

Lemma covered_cons slot l t :
  covered (slot :: l) t <-> inSlot t slot \/ covered l t.
Proof.
  unfold covered. split.
  - intros (s & [<- | Hin] & Ht); [left; exact Ht | right; exists s; auto].
  - intros [Ht | (s & Hin & Ht)];
      [exists slot; split; [left; reflexivity | exact Ht]
      | exists s; split; [right; exact Hin | exact Ht]].
Qed.

Lemma inSlot_mergedSlot current next t :
  startsFirst current next -> touches current next = true ->
  (inSlot t (mergedSlot current next)
   <-> inSlot t current \/ inSlot t next).
Proof.
  intros (cs & ce & ns & ne & Hc & Hn & Hle) Ht.
  rewrite (touches_span _ _ _ _ _ _ Hc Hn) in Ht. apply Z.leb_le in Ht.
  pose proof (slotSpan_mergedSlot _ _ _ _ _ _ Hc Hn) as Hm.
  unfold inSlot. split.
  - intros (sm & em & Hspan & Hin).
    assert (Heq : (sm, em) = (cs, Z.max ce ne)) by congruence.
    injection Heq as -> ->.
    destruct (Z.le_gt_cases t ce) as [Hce | Hce].
    + left. exists cs, ce. split; [exact Hc | lia].
    + right. exists ns, ne. split; [exact Hn | lia].
  - intros [(sm & em & Hspan & Hin) | (sm & em & Hspan & Hin)];
      exists cs, (Z.max ce ne); (split; [exact Hm |]).
    + assert (Heq : (sm, em) = (cs, ce)) by congruence.
      injection Heq as -> ->. lia.
    + assert (Heq : (sm, em) = (ns, ne)) by congruence.
      injection Heq as -> ->. lia.
Qed.

Lemma startsFirst_mergedSlot current next slot :
  clockSlot next ->
  startsFirst current slot -> startsFirst (mergedSlot current next) slot.
Proof.
  intros (ns & ne & Hn) (cs & ce & ss & se & Hc & Hs & Hle).
  exists cs, (Z.max ce ne), ss, se.
  repeat split; [| exact Hs | exact Hle].
  apply (slotSpan_mergedSlot _ _ cs ce ns ne); assumption.
Qed.

Lemma merge_loop_covered t rest : forall current merged,
  StronglySorted startsFirst (current :: rest) ->
  Forall clockSlot rest ->
  (covered (DateTimeUtils.mergeContinuousSlots_loop rest current merged) t
   <-> covered (merged ++ current :: rest) t).
Proof.
  induction rest as [| next rest IH]; intros current merged Hs Hclock;
    cbn [DateTimeUtils.mergeContinuousSlots_loop].
  - rewrite !covered_app. reflexivity.
  - inversion Hs as [| ? ? Hrest Hall]; subst.
    inversion Hall as [| ? ? Hnext Hall']; subst.
    inversion Hrest as [| ? ? Hrest' Hnexts]; subst.
    inversion Hclock as [| ? ? Hcn Hclock']; subst.
    destruct (Dayjs.isSameOrAfter _ _) eqn:Ht.
    + fold (mergedSlot current next). rewrite IH.
      * rewrite !covered_app, !covered_cons.
        rewrite (inSlot_mergedSlot current next t Hnext Ht). tauto.
      * constructor; [exact Hrest' |].
        eapply Forall_impl; [| exact Hall'].
        intros slot. apply startsFirst_mergedSlot. exact Hcn.
      * exact Hclock'.
    + rewrite IH; [| exact Hrest | exact Hclock'].
      rewrite <- app_assoc. reflexivity.
Qed.

Lemma sorted_startsFirst l :
  Forall clockSlot l ->
  StronglySorted (leR DateTimeUtils.startTime_le) l ->
  StronglySorted startsFirst l.
Proof.
  induction l as [| a l IH]; intros Hclock Hs; [constructor |].
  inversion Hclock as [| ? ? Ha Hl]; subst.
  inversion Hs as [| ? ? Hsl Hall]; subst.
  constructor; [apply IH; assumption |].
  rewrite Forall_forall in *. intros b Hb.
  destruct Ha as (sa & ea & Hsa). destruct (Hl b Hb) as (sb & eb & Hsb).
  exists sa, ea, sb, eb. repeat split; [exact Hsa | exact Hsb |].
  apply slotSpan_Some in Hsa, Hsb.
  apply (leb_clock (startTime a) (startTime b));
    [apply Hsa | apply Hsb | exact (Hall b Hb)].
Qed.

(** X25.  A merge keeps what the slots cover.  When the times of all
    slots are clock texts, a minute of the day lies in a slot of the
    array that [mergeContinuousSlots] returns exactly when it lies in one
    of the slots given: merging neither loses nor adds free time. *)
Theorem mergeContinuousSlots_covers (slots : list Slot) (t : Z) :
  Forall clockSlot slots ->
  (covered (DateTimeUtils.mergeContinuousSlots slots) t <-> covered slots t).
Proof.
  intros Hclock. unfold DateTimeUtils.mergeContinuousSlots.
  pose proof (sortBy_Forall DateTimeUtils.startTime_le clockSlot slots Hclock)
    as Hsorted_clock.
  pose proof (sortBy_StronglySorted DateTimeUtils.startTime_le
                startTime_le_total startTime_le_trans slots) as Hsorted.
  assert (Hsame : covered (sortBy DateTimeUtils.startTime_le slots) t
                  <-> covered slots t).
  { unfold covered. split; intros (slot & Hin & Ht); exists slot;
      (split; [apply sortBy_In in Hin || apply sortBy_In; exact Hin | exact Ht]). }
  rewrite <- Hsame.
  destruct (sortBy DateTimeUtils.startTime_le slots) as [| first rest].
  - reflexivity.
  - rewrite merge_loop_covered.
    + reflexivity.
    + apply sorted_startsFirst; assumption.
    + inversion Hsorted_clock; assumption.
Qed.

Lemma mergeContinuousSlots_covers_witness :
  covered
    (DateTimeUtils.mergeContinuousSlots
       [freeSlot "13:00" "15:00"; freeSlot "10:00" "13:30"])
    800
  <-> covered [freeSlot "13:00" "15:00"; freeSlot "10:00" "13:30"] 800.
Proof.
  apply (mergeContinuousSlots_covers
           [freeSlot "13:00" "15:00"; freeSlot "10:00" "13:30"] 800).
  repeat constructor.
  - exists 780, 900. reflexivity.
  - exists 600, 810. reflexivity.
Defined.

(** ** No free time is missed *)

Lemma sweepEvents_incl rangeEnd events : forall currentTime slots slot,
  In slot slots ->
  In slot (snd (CalendarService.sweepEvents rangeEnd events currentTime slots)).
Proof.
  induction events as [| event rest IH]; intros currentTime slots slot Hin;
    cbn [CalendarService.sweepEvents].
  - exact Hin.
  - destruct (Dayjs.isBefore (Some (busy_end event)) currentTime);
      [apply IH; exact Hin |].
    destruct (Dayjs.isAfter (Some (busy_start event)) rangeEnd);
      [exact Hin |].
    match goal with
    | |- context [if Dayjs.isAfter ?c' rangeEnd then (_, ?s') else _] =>
        assert (Hin' : In slot s');
        [| destruct (Dayjs.isAfter c' rangeEnd);
           [exact Hin' | apply IH; exact Hin']]
    end.
    destruct (Dayjs.isBefore currentTime _); [| exact Hin].
    destruct (Dayjs.geNum _ _); [| exact Hin].
    apply in_app_iff. left. exact Hin.
Qed.

Lemma scanRange_incl busy slots range slot :
  In slot slots -> In slot (CalendarService.scanRange busy slots range).
Proof.
  intros Hin. destruct range as [rangeStart rangeEnd].
  unfold CalendarService.scanRange.
  pose proof (sweepEvents_incl rangeEnd busy rangeStart slots slot Hin) as Hs.
  destruct (CalendarService.sweepEvents rangeEnd busy rangeStart slots)
    as [currentTime slots'].
  cbn [snd] in Hs.
  destruct (Dayjs.isBefore currentTime rangeEnd); [| exact Hs].
  destruct (Dayjs.geNum _ _); [| exact Hs].
  apply in_app_iff. left. exact Hs.
Qed.

Lemma fold_scanRange_incl busy ranges : forall slots slot,
  In slot slots ->
  In slot (fold_left (CalendarService.scanRange busy) ranges slots).
Proof.
  induction ranges as [| range ranges IH]; intros slots slot Hin;
    cbn [fold_left]; [exact Hin |].
  apply IH. apply scanRange_incl. exact Hin.
Qed.

Lemma geNum_long c e' :
  TIME_CONSTANTS.MIN_SLOT_DURATION * Dayjs.msPerMinute <= e' - c ->
  Dayjs.geNum (Dayjs.diffMinute (Some e') (Some c))
    TIME_CONSTANTS.MIN_SLOT_DURATION = true.
Proof.
  intros Hlong. cbn [Dayjs.geNum Dayjs.diffMinute]. apply Z.leb_le.
  unfold TIME_CONSTANTS.MIN_SLOT_DURATION, Dayjs.msPerMinute in *.
  rewrite Z.quot_div_nonneg by lia.
  apply Z.div_le_lower_bound; lia.
Qed.

Section Complete.

(** A window from [s] to [e] and, inside it, free time from [A] to [B]
    of at least [MIN_SLOT_DURATION] minutes. *)
Variables s e A B : Z.
Hypothesis window_start : s <= A.
Hypothesis window_end : B <= e.
Hypothesis long :
  TIME_CONSTANTS.MIN_SLOT_DURATION * Dayjs.msPerMinute <= B - A.

(** The sweep pushes a slot around the free time, or leaves its cursor
    at or before the start of the free time and has not left the window. *)
Lemma sweepEvents_complete events : forall cur slots,
  s <= cur <= A ->
  Forall (fun b =>
            busy_start b <= busy_end b
            /\ (B <= busy_start b \/ busy_end b <= A)) events ->
  (exists c e',
     In (CalendarService.mkSlot (Some c) (Some e'))
        (snd (CalendarService.sweepEvents (Some e) events (Some cur) slots))
     /\ s <= c <= A /\ B <= e' <= e)
  \/ (exists c,
        fst (CalendarService.sweepEvents (Some e) events (Some cur) slots)
        = Some c
        /\ s <= c <= A).
Proof.
  unfold TIME_CONSTANTS.MIN_SLOT_DURATION, Dayjs.msPerMinute in long.
  induction events as [| event rest IH]; intros cur slots Hcur Hfree;
    cbn [CalendarService.sweepEvents].
  - right. exists cur. split; [reflexivity | exact Hcur].
  - inversion Hfree as [| ? ? [Hle Hev] Hrest]; subst.
    destruct (Dayjs.isBefore (Some (busy_end event)) (Some cur)) eqn:Hpast.
    { apply IH; assumption. }
    cbn [Dayjs.isBefore] in Hpast. apply Z.ltb_ge in Hpast.
    destruct (Dayjs.isAfter (Some (busy_start event)) (Some e)) eqn:Hbeyond.
    { right. exists cur. split; [reflexivity | exact Hcur]. }
    cbn [Dayjs.isAfter] in Hbeyond. apply Z.ltb_ge in Hbeyond.
    destruct Hev as [Hafter | Hbefore].
    + (* the event starts after the free time: the gap is pushed *)
      left.
      assert (Hgap : Dayjs.isBefore (Some cur) (Some (busy_start event)) = true)
        by (cbn [Dayjs.isBefore]; apply Z.ltb_lt; lia).
      rewrite Hgap. cbn [Dayjs.isBefore].
      destruct (busy_start event <? e) eqn:Hlt;
        [apply Z.ltb_lt in Hlt | apply Z.ltb_ge in Hlt].
      * rewrite geNum_long
          by (unfold TIME_CONSTANTS.MIN_SLOT_DURATION, Dayjs.msPerMinute; lia).
        exists cur, (busy_start event). split; [| lia].
        match goal with
        | |- In ?x (snd (if ?t then (?c', ?s') else _)) =>
            assert (Hin : In x s') by (apply in_app_iff; right; left; reflexivity);
            destruct t; [exact Hin | apply sweepEvents_incl; exact Hin]
        end.
      * rewrite geNum_long
          by (unfold TIME_CONSTANTS.MIN_SLOT_DURATION, Dayjs.msPerMinute; lia).
        exists cur, e. split; [| lia].
        match goal with
        | |- In ?x (snd (if ?t then (?c', ?s') else _)) =>
            assert (Hin : In x s') by (apply in_app_iff; right; left; reflexivity);
            destruct t; [exact Hin | apply sweepEvents_incl; exact Hin]
        end.
    + (* the event ends before the free time: the cursor stays before it *)
      match goal with
      | |- context [if Dayjs.isAfter ?c' (Some e) then (_, ?s') else _] =>
          assert (Hc' : exists c, c' = Some c /\ s <= c <= A)
      end.
      { cbn [Dayjs.isAfter].
        destruct (cur <? busy_end event) eqn:Hlt;
          [apply Z.ltb_lt in Hlt; exists (busy_end event)
          | exists cur]; split; try reflexivity; lia. }
      destruct Hc' as (c & Hc & Hrange). rewrite Hc.
      cbn [Dayjs.isAfter].
      destruct (e <? c) eqn:Hover; [apply Z.ltb_lt in Hover; lia |].
      apply IH; assumption.
Qed.

Lemma scanRange_complete busy slots :
  Forall (fun b =>
            busy_start b <= busy_end b
            /\ (B <= busy_start b \/ busy_end b <= A)) busy ->
  exists c e',
    In (CalendarService.mkSlot (Some c) (Some e'))
       (CalendarService.scanRange busy slots (Some s, Some e))
    /\ s <= c <= A /\ B <= e' <= e.
Proof.
  intros Hfree. unfold CalendarService.scanRange.
  destruct (sweepEvents_complete busy s slots ltac:(lia) Hfree)
    as [(c & e' & Hin & Hc & He) | (c & Hfst & Hc)];
    destruct (CalendarService.sweepEvents (Some e) busy (Some s) slots)
      as [currentTime slots']; cbn [fst snd] in *.
  - exists c, e'. split; [| split; assumption].
    destruct (Dayjs.isBefore currentTime (Some e)); [| exact Hin].
    destruct (Dayjs.geNum _ _); [| exact Hin].
    apply in_app_iff. left. exact Hin.
  - subst currentTime.
    unfold TIME_CONSTANTS.MIN_SLOT_DURATION, Dayjs.msPerMinute in long.
    assert (Hlt : Dayjs.isBefore (Some c) (Some e) = true)
      by (cbn [Dayjs.isBefore]; apply Z.ltb_lt; lia).
    rewrite Hlt.
    rewrite geNum_long
      by (unfold TIME_CONSTANTS.MIN_SLOT_DURATION, Dayjs.msPerMinute; lia).
    exists c, e. split; [| lia].
    apply in_app_iff. right. left. reflexivity.
Qed.

End Complete.

Lemma fold_scanRange_complete busy s e A B ranges :
  s <= A -> B <= e ->
  TIME_CONSTANTS.MIN_SLOT_DURATION * Dayjs.msPerMinute <= B - A ->
  Forall (fun b =>
            busy_start b <= busy_end b
            /\ (B <= busy_start b \/ busy_end b <= A)) busy ->
  In (Some s, Some e) ranges ->
  forall slots,
  exists c e',
    In (CalendarService.mkSlot (Some c) (Some e'))
       (fold_left (CalendarService.scanRange busy) ranges slots)
    /\ s <= c <= A /\ B <= e' <= e.
Proof.
  intros Hs He Hlong Hfree.
  induction ranges as [| range ranges IH]; intros Hin slots; [contradiction |].
  cbn [fold_left]. destruct Hin as [-> | Hin].
  - destruct (scanRange_complete s e A B Hs He Hlong busy slots Hfree)
      as (c & e' & Hslot & Hc & He').
    exists c, e'. split; [| split; assumption].
    apply fold_scanRange_incl. exact Hslot.
  - apply IH. exact Hin.
Qed.

Lemma within_app l1 l2 a b :
  within (l1 ++ l2) a b <-> within l1 a b \/ within l2 a b.
Proof.
  unfold within. split.
  - intros (slot & sm & em & Hin & H). apply in_app_iff in Hin.
    destruct Hin as [Hin | Hin]; [left | right]; exists slot, sm, em; auto.
  - intros [(slot & sm & em & Hin & H) | (slot & sm & em & Hin & H)];
      exists slot, sm, em; (split; [apply in_app_iff; auto | exact H]).
Qed.

Lemma merge_loop_within a b rest : forall current merged,
  StronglySorted startsFirst (current :: rest) ->
  Forall clockSlot rest ->
  within (merged ++ current :: rest) a b ->
  within (DateTimeUtils.mergeContinuousSlots_loop rest current merged) a b.
Proof.
  induction rest as [| next rest IH]; intros current merged Hs Hclock Hin;
    cbn [DateTimeUtils.mergeContinuousSlots_loop].
  - exact Hin.
  - inversion Hs as [| ? ? Hrest Hall]; subst.
    inversion Hall as [| ? ? Hnext Hall']; subst.
    inversion Hrest as [| ? ? Hrest' Hnexts]; subst.
    inversion Hclock as [| ? ? Hcn Hclock']; subst.
    destruct (Dayjs.isSameOrAfter _ _) eqn:Ht.
    + fold (mergedSlot current next). apply IH.
      * constructor; [exact Hrest' |].
        eapply Forall_impl; [| exact Hall'].
        intros slot. apply startsFirst_mergedSlot. exact Hcn.
      * exact Hclock'.
      * destruct Hnext as (cs & ce & ns & ne & Hc & Hn & Hle).
        pose proof (slotSpan_mergedSlot _ _ _ _ _ _ Hc Hn) as Hm.
        apply within_app in Hin. apply within_app.
        destruct Hin as [Hin | (slot & sm & em & Hslot & Hspan & Ha & Hb)];
          [left; exact Hin | right].
        destruct Hslot as [<- | [<- | Hslot]].
        -- exists (mergedSlot current next), cs, (Z.max ce ne).
           assert (Heq : (sm, em) = (cs, ce)) by congruence.
           injection Heq as -> ->.
           repeat split; [left; reflexivity | exact Hm | lia | lia].
        -- exists (mergedSlot current next), cs, (Z.max ce ne).
           assert (Heq : (sm, em) = (ns, ne)) by congruence.
           injection Heq as -> ->.
           repeat split; [left; reflexivity | exact Hm | lia | lia].
        -- exists slot, sm, em.
           repeat split; [right; exact Hslot | exact Hspan | exact Ha | exact Hb].
    + apply IH; [exact Hrest | exact Hclock' |].
      rewrite <- app_assoc. exact Hin.
Qed.

(** The time that lies in a slot lies in a slot of the merged array. *)
Lemma mergeContinuousSlots_within slots a b :
  Forall clockSlot slots ->
  within slots a b -> within (DateTimeUtils.mergeContinuousSlots slots) a b.
Proof.
  intros Hclock Hin. unfold DateTimeUtils.mergeContinuousSlots.
  pose proof (sortBy_Forall DateTimeUtils.startTime_le clockSlot slots Hclock)
    as Hsorted_clock.
  pose proof (sortBy_StronglySorted DateTimeUtils.startTime_le
                startTime_le_total startTime_le_trans slots) as Hsorted.
  assert (Hin' : within (sortBy DateTimeUtils.startTime_le slots) a b).
  { destruct Hin as (slot & sm & em & Hslot & H).
    exists slot, sm, em. split; [apply sortBy_In; exact Hslot | exact H]. }
  destruct (sortBy DateTimeUtils.startTime_le slots) as [| first rest].
  - exact Hin'.
  - apply merge_loop_within.
    + apply sorted_startsFirst; assumption.
    + inversion Hsorted_clock; assumption.
    + exact Hin'.
Qed.

Lemma daySlots_clockSlot now events date slotsForDate daySlots :
  CalendarService.calculateDayAvailableSlots now events date slotsForDate
  = Ok daySlots ->
  Forall clockSlot daySlots.
Proof.
  intros Hcalc.
  destruct (calculateDayAvailableSlots_gaps _ _ _ _ _ Hcalc)
    as (busy & _ & Hgaps).
  eapply Forall_impl; [| exact Hgaps].
  intros sl (range & _ & (s & e & c & e' & _ & _ & -> & _)).
  eexists _, _. apply slotSpan_mkSlot.
Qed.

Lemma minuteOfDay_clockOn day m :
  0 <= m < 1440 -> Dayjs.minuteOfDay (clockOn day m) = m.
Proof. apply minuteOfDay_clock. Qed.

Lemma formatDay_clockOn_range day t m :
  Dayjs.formatDay t = day ->
  (t <= clockOn day m -> 0 <= m) /\ (clockOn day m <= t -> m < 1440).
Proof.
  unfold Dayjs.formatDay, clockOn, Dayjs.ofDay, Dayjs.msPerDay,
    Dayjs.msPerMinute.
  intros <-. split; intros H; Z.div_mod_to_equations; lia.
Qed.

(** X26.  No free time is missed.  Take a search without preferred
    windows and a date of its range, whose core time from 10:00 to 22:00
    is scanned.  When the minutes from [a] to [b] of the day, 30 or more,
    lie inside the core time, and the busy interval of every event that
    starts on the date (the event with its buffer; it does not end before
    it starts) lies before [a] or after [b], the result has a row for the
    date, and one slot of that row contains the minutes from [a] to [b]. *)
Theorem free_time_is_reported
    (now : Z) (events : list CalendarEvent) (startDate endDate : Z)
    (days : list DayResult) (date a b : Z) :
  CalendarService.calculateAvailableSlots now events startDate endDate
    [] = Ok days ->
  In date (DateTimeUtils.generateDateRange startDate endDate) ->
  Dayjs.atHour date TIME_CONSTANTS.CORE_TIME_START_HOUR
  <= clockOn (Dayjs.formatDay date) a ->
  b <= 60 * TIME_CONSTANTS.CORE_TIME_END_HOUR ->
  TIME_CONSTANTS.MIN_SLOT_DURATION <= b - a ->
  (forall event busy,
     In event events ->
     CalendarService.onTargetDate (Dayjs.formatDay date) event = true ->
     CalendarService.toBusyInterval now event = Ok busy ->
     busy_start busy <= busy_end busy
     /\ (clockOn (Dayjs.formatDay date) b <= busy_start busy
         \/ busy_end busy <= clockOn (Dayjs.formatDay date) a)) ->
  exists day,
    In day days /\ day_date day = Dayjs.formatDay date
    /\ within (slots day) a b.
Proof.
  intros Hrun Hdate Hs Hb Hlong Hevents.
  set (s := Dayjs.atHour date TIME_CONSTANTS.CORE_TIME_START_HOUR) in *.
  set (e := Dayjs.atHour date TIME_CONSTANTS.CORE_TIME_END_HOUR).
  assert (He : clockOn (Dayjs.formatDay date) b <= e).
  { unfold e, clockOn, Dayjs.atHour, Dayjs.startOfDay, Dayjs.ofDay,
      TIME_CONSTANTS.CORE_TIME_END_HOUR, Dayjs.msPerHour, Dayjs.msPerMinute,
      Dayjs.msPerSecond in *.
    assert (0 <= date mod 1000) by (apply Z.mod_pos_bound; lia).
    lia. }
  assert (Hrange :
    In (Some s, Some e)
       (CalendarService.slotRanges date (windowsOf [] date)))
    by (left; reflexivity).
  change (CalendarService.targetDates startDate endDate [])
    with (DateTimeUtils.generateDateRange startDate endDate) in Hrun.
  unfold CalendarService.calculateAvailableSlots in Hrun.
  change (CalendarService.targetDates startDate endDate [])
    with (DateTimeUtils.generateDateRange startDate endDate) in Hrun.
  destruct (forEachDate_complete _ _ _ _ _ _ Hrun) as [_ Hrows].
  destruct (CalendarService.calculateDayAvailableSlots now events date
              (windowsOf [] date)) as [daySlots | err] eqn:Hcalc.
  2:{ exfalso. clear -Hrun Hdate Hcalc.
      revert Hrun. generalize (@nil DayResult).
      induction (DateTimeUtils.generateDateRange startDate endDate)
        as [| d rest IH]; intros acc; [contradiction |].
      cbn [CalendarService.forEachDate]. unfold bind.
      fold (windowsOf [] d).
      destruct Hdate as [-> | Hin].
      - rewrite Hcalc. discriminate.
      - destruct (CalendarService.calculateDayAvailableSlots now events d _);
          [| discriminate].
        destruct (0 <? List.length _)%nat; apply IH; exact Hin. }
  pose proof (daySlots_clockSlot _ _ _ _ _ Hcalc) as Hall.
  destruct (slotRanges_on_day date (windowsOf [] date) _ eq_refl Hrange)
    as [Hsday Heday].
  specialize (Hsday s eq_refl). specialize (Heday e eq_refl).
  assert (Hslot :
    exists c e',
      In (CalendarService.mkSlot (Some c) (Some e')) daySlots
      /\ s <= c <= clockOn (Dayjs.formatDay date) a
      /\ clockOn (Dayjs.formatDay date) b <= e' <= e).
  { unfold CalendarService.calculateDayAvailableSlots, bind in Hcalc.
    destruct (CalendarService.dayEvents now events date) as [busy |] eqn:Hbusy;
      [| discriminate].
    assert (Heq : fold_left (CalendarService.scanRange busy)
                    (CalendarService.slotRanges date (windowsOf [] date))
                    [] = daySlots) by congruence.
    rewrite <- Heq.
    apply (fold_scanRange_complete busy s e); try assumption.
    - unfold clockOn, TIME_CONSTANTS.MIN_SLOT_DURATION, Dayjs.msPerMinute in *.
      lia.
    - destruct (dayEvents_spec _ _ _ _ Hbusy) as (_ & _ & Hfrom).
      apply Forall_forall. intros bi Hbi.
      destruct (Hfrom bi Hbi) as (event & Hin & Hon & Hev).
      exact (Hevents event bi Hin Hon Hev). }
  destruct Hslot as (c & e' & Hin & Hc & He').
  destruct (formatDay_clockOn_range (Dayjs.formatDay date) s a Hsday)
    as [Ha0 _].
  destruct (formatDay_clockOn_range (Dayjs.formatDay date) e b Heday)
    as [_ Hb1].
  specialize (Ha0 Hs). specialize (Hb1 He).
  unfold TIME_CONSTANTS.MIN_SLOT_DURATION in Hlong.
  assert (Hcday : Dayjs.formatDay c = Dayjs.formatDay date).
  { rewrite <- Hsday. apply (formatDay_between s c e); [lia | | congruence].
    unfold clockOn, Dayjs.msPerMinute in *. lia. }
  assert (He'day : Dayjs.formatDay e' = Dayjs.formatDay date).
  { rewrite <- Hsday. apply (formatDay_between s e' e); [| lia | congruence].
    unfold clockOn, Dayjs.msPerMinute in *. lia. }
  exists (rowOf date daySlots).
  split; [apply Hrows; [exact Hdate | exact Hcalc |] |].
  { intros ->. contradiction. }
  split; [reflexivity |].
  cbn [rowOf slots]. apply mergeContinuousSlots_within.
  - exact Hall.
  - exists (CalendarService.mkSlot (Some c) (Some e')),
      (Dayjs.minuteOfDay c), (Dayjs.minuteOfDay e').
    split; [exact Hin |]. split; [apply slotSpan_mkSlot |]. split.
    + rewrite <- (minuteOfDay_clockOn (Dayjs.formatDay date) a) by lia.
      apply minuteOfDay_mono; [| lia].
      rewrite Hcday. unfold clockOn. symmetry.
      apply formatDay_ofDay_clock. lia.
    + rewrite <- (minuteOfDay_clockOn (Dayjs.formatDay date) b) at 1 by lia.
      apply minuteOfDay_mono; [| lia].
      rewrite He'day. unfold clockOn. apply formatDay_ofDay_clock. lia.
Qed.

Lemma free_time_is_reported_witness :
  exists day,
    In day [{| day_date := scenarioDay;
               slots := [freeSlot "10:20" "13:40"; freeSlot "15:20" "22:00"];
               totalSlots := 2;
               totalMinutes := Some 600 |}]
    /\ day_date day = Dayjs.formatDay (Dayjs.ofDay scenarioDay)
    /\ within (slots day) 660 720.
Proof.
  apply (free_time_is_reported 0 (scenarioEvents scenarioDay)
           (Dayjs.ofDay scenarioDay) (Dayjs.ofDay scenarioDay) _
           (Dayjs.ofDay scenarioDay)
           660 720 (scenario_result 0)).
  - vm_compute. left. reflexivity.
  - vm_compute. discriminate.
  - vm_compute. discriminate.
  - vm_compute. discriminate.
  - intros event busy [<- | [<- | []]] _ Hbusy;
      assert (Hb : Ok busy
                   = CalendarService.toBusyInterval 0 _) by (symmetry; exact Hbusy);
      vm_compute in Hb;
      match type of Hb with
      | Ok busy = Ok ?v => assert (Heq : busy = v) by congruence
      end;
      rewrite Heq; vm_compute; split; try discriminate;
      [right | left]; discriminate.
Defined.

(** ** groupedTimeSlots *)

Section ObjectFacts.

Context {V : Type}.

Lemma Object_get_set_same (obj : list (Day * V)) key v :
  Object_get (Object_set obj key v) key = Some v.
Proof.
  induction obj as [| [k v'] obj IH]; cbn [Object_set Object_get].
  - rewrite Z.eqb_refl. reflexivity.
  - destruct (k =? key) eqn:Hk; cbn [Object_get].
    + rewrite Z.eqb_refl. reflexivity.
    + rewrite Hk. exact IH.
Qed.

Lemma Object_get_set_other (obj : list (Day * V)) key v key0 :
  key0 <> key ->
  Object_get (Object_set obj key v) key0 = Object_get obj key0.
Proof.
  intros Hne.
  induction obj as [| [k v'] obj IH]; cbn [Object_set Object_get].
  - destruct (Z.eqb_spec key key0); [congruence | reflexivity].
  - destruct (Z.eqb_spec k key) as [-> | Hk]; cbn [Object_get].
    + destruct (Z.eqb_spec key key0); [congruence | reflexivity].
    + destruct (k =? key0); [reflexivity | exact IH].
Qed.

Lemma Object_get_keys (obj : list (Day * V)) key :
  existsb (Z.eqb key) (map fst obj)
  = match Object_get obj key with Some _ => true | None => false end.
Proof.
  induction obj as [| [k v] obj IH]; cbn [map fst existsb Object_get].
  - reflexivity.
  - rewrite (Z.eqb_sym key k). destruct (k =? key); [reflexivity | exact IH].
Qed.

Lemma Object_set_keys (obj : list (Day * V)) key v :
  map fst (Object_set obj key v)
  = match Object_get obj key with
    | Some _ => map fst obj
    | None => map fst obj ++ [key]
    end.
Proof.
  induction obj as [| [k v'] obj IH]; cbn [Object_set Object_get map fst app].
  - reflexivity.
  - destruct (Z.eqb_spec k key) as [-> | Hk]; cbn [map fst].
    + reflexivity.
    + rewrite IH. destruct (Object_get obj key); reflexivity.
Qed.

End ObjectFacts.

Lemma groupedTimeSlots_body_spec grouped slot :
  List.map fst (groupedTimeSlots_body grouped slot)
  = Set_add (List.map fst grouped) (ts_date slot)
  /\ forall day,
       Object_get (groupedTimeSlots_body grouped slot) day
       = if ts_date slot =? day
         then Some (match Object_get grouped day with
                    | Some times => times
                    | None => []
                    end ++ [slotLabel slot])
         else Object_get grouped day.
Proof.
  unfold groupedTimeSlots_body. cbv zeta. split.
  - unfold Set_add. rewrite Object_get_keys.
    destruct (Object_get grouped (ts_date slot)) as [times |] eqn:Hslot.
    + rewrite Hslot, Object_set_keys, Hslot. reflexivity.
    + rewrite Object_get_set_same, !Object_set_keys, Hslot.
      rewrite Object_get_set_same. reflexivity.
  - intros day.
    destruct (Z.eqb_spec (ts_date slot) day) as [<- | Hne].
    + destruct (Object_get grouped (ts_date slot)) as [times |] eqn:Hslot.
      * rewrite Hslot, Object_get_set_same. reflexivity.
      * rewrite !Object_get_set_same. reflexivity.
    + assert (Hsame :
        forall times (m : list (Day * list string)),
          Object_get (Object_set m (ts_date slot) times) day
          = Object_get m day)
        by (intros; apply Object_get_set_other; congruence).
      destruct (Object_get grouped (ts_date slot)) as [times |] eqn:Hslot.
      * rewrite Hslot, Hsame. reflexivity.
      * rewrite Object_get_set_same, !Hsame. reflexivity.
Qed.

Lemma groupedTimeSlots_fold timeSlots : forall grouped,
  List.map fst (fold_left groupedTimeSlots_body timeSlots grouped)
  = fold_left Set_add (List.map ts_date timeSlots) (List.map fst grouped)
  /\ forall day,
       Object_get (fold_left groupedTimeSlots_body timeSlots grouped) day
       = match Object_get grouped day,
               List.map slotLabel
                 (filter (fun slot => ts_date slot =? day) timeSlots) with
         | Some times, labels => Some (times ++ labels)
         | None, [] => None
         | None, labels => Some labels
         end.
Proof.
  induction timeSlots as [| slot timeSlots IH]; intros grouped;
    cbn [fold_left List.map filter].
  - split; [reflexivity |].
    intros day. destruct (Object_get grouped day); [rewrite app_nil_r |];
      reflexivity.
  - destruct (IH (groupedTimeSlots_body grouped slot)) as [Hkeys Hget].
    destruct (groupedTimeSlots_body_spec grouped slot) as [Hk Hg].
    split; [rewrite Hkeys, Hk; reflexivity |].
    intros day. rewrite Hget, Hg.
    destruct (ts_date slot =? day); cbn [List.map].
    + destruct (Object_get grouped day); [rewrite <- app_assoc |];
        reflexivity.
    + reflexivity.
Qed.

(** X27.  The grouping of the preferred windows.  The dates of
    [groupedTimeSlots] are the distinct dates of the windows in the order
    in which the windows first name them: with at least one window they
    are the very dates that [calculateAvailableSlots] walks, in the same
    order.  The member of a date holds the labels [start〜end] of all
    windows of that date, in the order of the windows, and a date without
    a window has no member. *)
Theorem groupedTimeSlots_groups (timeSlots : list TimeSlot) :
  map fst (groupedTimeSlots timeSlots) = Set_of (map ts_date timeSlots)
  /\ (forall startDate endDate,
        CalendarService.targetDates startDate endDate timeSlots
        = match timeSlots with
          | [] => DateTimeUtils.generateDateRange startDate endDate
          | _ :: _ => map Dayjs.ofDay (map fst (groupedTimeSlots timeSlots))
          end)
  /\ forall day,
       Object_get (groupedTimeSlots timeSlots) day
       = match map slotLabel (windowsOf timeSlots (Dayjs.ofDay day)) with
         | [] => None
         | labels => Some labels
         end.
Proof.
  destruct (groupedTimeSlots_fold timeSlots []) as [Hkeys Hget].
  split; [exact Hkeys |]. split.
  - intros startDate endDate. unfold CalendarService.targetDates.
    destruct timeSlots as [| slot rest]; cbn [List.length Nat.ltb Nat.leb].
    + reflexivity.
    + unfold groupedTimeSlots. rewrite Hkeys. reflexivity.
  - intros day. unfold groupedTimeSlots. rewrite Hget.
    unfold windowsOf. rewrite formatDay_ofDay. reflexivity.
Qed.

(** ** The metrics of the PerformanceTracker *)

Lemma lastn_short {A} (n : nat) (l : list A) :
  (List.length l <= n)%nat -> lastn n l = l.
Proof.
  intros Hle. unfold lastn.
  replace (List.length l - n)%nat with 0%nat by lia. reflexivity.
Qed.

Lemma lastn_length {A} (n : nat) (l : list A) :
  List.length (lastn n l) = Nat.min (List.length l) n.
Proof. unfold lastn. rewrite length_skipn. lia. Qed.

Lemma lastn_app_lastn {A} (n : nat) (l l' : list A) :
  lastn n (lastn n l ++ l') = lastn n (l ++ l').
Proof.
  destruct (Nat.le_gt_cases (List.length l) n) as [Hle | Hgt].
  - rewrite (lastn_short n l Hle). reflexivity.
  - unfold lastn at 1 3. rewrite !length_app, lastn_length.
    rewrite !skipn_app, lastn_length. unfold lastn.
    rewrite skipn_skipn. f_equal; f_equal; lia.
Qed.

Lemma splice_lastn {A} (values : list A) :
  (if (100 <? List.length values)%nat
   then skipn (List.length values - 100) values
   else values)
  = lastn 100 values.
Proof.
  destruct (Nat.ltb_spec 100 (List.length values)) as [Hlt | Hge].
  - reflexivity.
  - symmetry. apply lastn_short. exact Hge.
Qed.

Lemma recordMetric_metricOf t dateNow name value name' :
  metricOf (Tracker.recordMetric t dateNow name value) name'
  = if (name =? name')%string
    then lastn 100
           (metricOf t name
            ++ [{| metric_value := value; metric_timestamp := dateNow |}])
    else metricOf t name'.
Proof.
  unfold metricOf, Tracker.recordMetric. cbv zeta.
  destruct (String.eqb_spec name name') as [<- | Hne].
  - destruct (JsMap_get (metrics t) name) as [values |] eqn:Hget.
    + rewrite Hget. cbn [metrics]. rewrite JsMap_get_set_same.
      apply splice_lastn.
    + rewrite JsMap_get_set_same. cbn [metrics].
      rewrite JsMap_get_set_same. apply splice_lastn.
  - destruct (JsMap_get (metrics t) name) as [values |] eqn:Hget.
    + rewrite Hget. cbn [metrics].
      rewrite JsMap_get_set_other by congruence. reflexivity.
    + rewrite JsMap_get_set_same. cbn [metrics].
      rewrite !JsMap_get_set_other by congruence. reflexivity.
Qed.

Lemma recordAll_metricOf calls name : forall t,
  (List.length (metricOf t name) <= 100)%nat ->
  metricOf (recordAll calls t) name
  = lastn 100 (metricOf t name ++ entriesOf name calls).
Proof.
  unfold recordAll, entriesOf.
  induction calls as [| call calls IH]; intros t Hlen;
    cbn [fold_left filter map].
  - rewrite app_nil_r. symmetry. apply lastn_short. exact Hlen.
  - rewrite IH; rewrite recordMetric_metricOf;
      destruct (String.eqb_spec (record_name call) name) as [<- | Hne];
      cbn [map].
    + rewrite !lastn_app_lastn, <- app_assoc. reflexivity.
    + reflexivity.
    + rewrite lastn_length. lia.
    + exact Hlen.
Qed.

(** X28.  A metric keeps its latest 100 values.  After any calls of
    [recordMetric] on a new tracker, for names in any order, the array of
    a name holds the entries recorded for that name, in the order of the
    calls, when they are at most 100, and the last 100 of them
    otherwise. *)
Theorem recordMetric_keeps_latest (calls : list MetricCall) (name : string) :
  metricOf (recordAll calls Tracker.create) name
  = lastn 100 (entriesOf name calls)
  /\ (List.length (metricOf (recordAll calls Tracker.create) name) <= 100)%nat.
Proof.
  assert (Heq : metricOf (recordAll calls Tracker.create) name
                = lastn 100 (entriesOf name calls)).
  { rewrite recordAll_metricOf; [reflexivity | cbn; lia]. }
  split; [exact Heq |].
  rewrite Heq, lastn_length. lia.
Qed.

Lemma fold_Qmin_le l : forall x,
  (fold_left Qmin l x <= x)%Q
  /\ Forall (fun v => (fold_left Qmin l x <= v)%Q) l
  /\ In (fold_left Qmin l x) (x :: l).
Proof.
  induction l as [| y l IH]; intros x; cbn [fold_left].
  - split; [apply Qle_refl |]. split; [constructor | left; reflexivity].
  - destruct (IH (Qmin x y)) as (Hle & Hall & Hin).
    split; [eapply Qle_trans; [exact Hle | apply Q.le_min_l] |].
    split.
    + constructor; [eapply Qle_trans; [exact Hle | apply Q.le_min_r] | exact Hall].
    + destruct Hin as [Heq | Hin]; [| right; right; exact Hin].
      rewrite <- Heq. unfold Qmin, GenericMinMax.gmin.
      destruct (x ?= y)%Q; [left | left | right; left]; reflexivity.
Qed.

Lemma fold_Qmax_ge l : forall x,
  (x <= fold_left Qmax l x)%Q
  /\ Forall (fun v => (v <= fold_left Qmax l x)%Q) l
  /\ In (fold_left Qmax l x) (x :: l).
Proof.
  induction l as [| y l IH]; intros x; cbn [fold_left].
  - split; [apply Qle_refl |]. split; [constructor | left; reflexivity].
  - destruct (IH (Qmax x y)) as (Hle & Hall & Hin).
    split; [eapply Qle_trans; [apply Q.le_max_l | exact Hle] |].
    split.
    + constructor; [eapply Qle_trans; [apply Q.le_max_r | exact Hle] | exact Hall].
    + destruct Hin as [Heq | Hin]; [| right; right; exact Hin].
      rewrite <- Heq. unfold Qmax, GenericMinMax.gmax.
      destruct (x ?= y)%Q; [left | right; left | left]; reflexivity.
Qed.

Lemma lastn_nil {A} (l : list A) : lastn 100 l = [] -> l = [].
Proof.
  intros H. apply (f_equal (@List.length A)) in H.
  rewrite lastn_length in H. cbn [List.length] in H.
  destruct l; [reflexivity | cbn [List.length] in H; lia].
Qed.

Lemma lastn_latest {A} (l : list A) :
  nth_error (lastn 100 l) (List.length (lastn 100 l) - 1)
  = nth_error l (List.length l - 1).
Proof.
  unfold lastn at 1. rewrite nth_error_skipn, lastn_length.
  destruct l as [| x l]; [reflexivity |].
  f_equal. cbn [List.length]. lia.
Qed.

(** X29.  The statistics of a metric.  After any calls of [recordMetric]
    on a new tracker, [getMetricStats] of a name is [null] exactly when no
    value was recorded for the name.  Otherwise [count] is the number of
    values kept (the number recorded, at most 100), [latest] is the value
    recorded last, [min] and [max] are two of the values kept, and every
    value kept lies between them. *)
Theorem getMetricStats_describes (calls : list MetricCall) (name : string) :
  match Tracker.getMetricStats (recordAll calls Tracker.create) name with
  | None => entriesOf name calls = []
  | Some stats =>
      entriesOf name calls <> []
      /\ stats_count stats
         = Nat.min (List.length (entriesOf name calls)) 100
      /\ stats_latest stats
         = nth_error (map metric_value (entriesOf name calls))
             (List.length (entriesOf name calls) - 1)
      /\ In (stats_min stats) (keptValues name calls)
      /\ In (stats_max stats) (keptValues name calls)
      /\ Forall (fun v => (stats_min stats <= v)%Q /\ (v <= stats_max stats)%Q)
           (keptValues name calls)
  end.
Proof.
  pose proof (recordAll_metricOf calls name Tracker.create
                ltac:(cbn; lia)) as Hkept.
  change (metricOf Tracker.create name) with (@nil MetricEntry) in Hkept.
  cbn [app] in Hkept.
  unfold metricOf in Hkept. unfold Tracker.getMetricStats, keptValues.
  destruct (JsMap_get (metrics (recordAll calls Tracker.create)) name)
    as [[| first rest] |].
  - apply lastn_nil. symmetry. exact Hkept.
  - rewrite <- Hkept. cbv zeta.
    cbn [stats_count stats_latest stats_min stats_max].
    split.
    { intros Hnil. rewrite Hnil in Hkept. discriminate Hkept. }
    split.
    { rewrite length_map, Hkept, lastn_length. reflexivity. }
    split.
    { rewrite length_map, !nth_error_map, Hkept, lastn_latest. reflexivity. }
    destruct (fold_Qmin_le (map metric_value rest) (metric_value first))
      as (Hmin1 & Hmin2 & Hmin3).
    destruct (fold_Qmax_ge (map metric_value rest) (metric_value first))
      as (Hmax1 & Hmax2 & Hmax3).
    split; [exact Hmin3 |]. split; [exact Hmax3 |].
    cbn [map]. constructor; [split; assumption |].
    rewrite Forall_forall in *. intros v Hv. split; auto.
  - apply lastn_nil. symmetry. exact Hkept.
Qed.

(** ** When the calculation throws *)

Lemma mapM_Ok_iff {A B} (f : A -> Result B) xs :
  (exists ys, mapM f xs = Ok ys) <-> forall x, In x xs -> exists y, f x = Ok y.
Proof.
  split.
  - intros [ys Hmap] x Hin.
    destruct (mapM_In f xs ys x Hmap Hin) as (y & Hy & _).
    exists y. exact Hy.
  - induction xs as [| x xs IH]; intros Hall; cbn [mapM].
    + exists []. reflexivity.
    + destruct (Hall x (or_introl eq_refl)) as [y Hy].
      destruct IH as [ys Hys].
      { intros x' Hin. apply Hall. right. exact Hin. }
      exists (y :: ys). unfold bind. rewrite Hy, Hys. reflexivity.
Qed.

Lemma mapM_Throw_inv {A B} (f : A -> Result B) xs error :
  mapM f xs = Throw error -> exists x, In x xs /\ f x = Throw error.
Proof.
  induction xs as [| x xs IH]; cbn [mapM]; [discriminate |].
  unfold bind. destruct (f x) as [y | e] eqn:Hx.
  - destruct (mapM f xs) as [ys | e]; [discriminate |].
    intros H. destruct (IH H) as (x' & Hin & Hx').
    exists x'. split; [right; exact Hin | exact Hx'].
  - intros H. exists x. split; [left; reflexivity | congruence].
Qed.

(** For an event that starts on the date, the busy interval is there
    exactly when the event has an [end]. *)
Lemma toBusyInterval_Ok_iff now targetDate event :
  CalendarService.onTargetDate targetDate event = true ->
  ((exists b, CalendarService.toBusyInterval now event = Ok b)
   <-> end_ event <> None)
  /\ forall error,
       CalendarService.toBusyInterval now event = Throw error ->
       error = TypeError_dateTime.
Proof.
  unfold CalendarService.onTargetDate, CalendarService.toBusyInterval.
  destruct (start event) as [st |]; [| discriminate].
  intros _. cbn [CalendarService.optDate].
  destruct (end_ event) as [en |]; cbn [CalendarService.optDate].
  - split.
    + split; [discriminate |]. intros _.
      destruct (date st), (date en); eexists; reflexivity.
    + intros error. destruct (date st), (date en); discriminate.
  - split.
    + split; [| congruence].
      intros [b Hb]. destruct (date st); discriminate Hb.
    + intros error. destruct (date st); congruence.
Qed.

Lemma calculateDayAvailableSlots_Ok_iff now events date slotsForDate :
  ((exists daySlots,
      CalendarService.calculateDayAvailableSlots now events date slotsForDate
      = Ok daySlots)
   <-> forall event,
         In event events ->
         CalendarService.onTargetDate (Dayjs.formatDay date) event = true ->
         end_ event <> None)
  /\ forall error,
       CalendarService.calculateDayAvailableSlots now events date slotsForDate
       = Throw error ->
       error = TypeError_dateTime.
Proof.
  unfold CalendarService.calculateDayAvailableSlots,
    CalendarService.dayEvents, bind.
  destruct (mapM (CalendarService.toBusyInterval now)
              (filter (CalendarService.onTargetDate (Dayjs.formatDay date))
                 events)) as [busy | err] eqn:Hmap.
  - split; [| discriminate].
    split; [| intros _; eexists; reflexivity].
    intros _ event Hin Hon.
    apply (toBusyInterval_Ok_iff now _ event Hon).
    destruct (mapM_In _ _ _ event Hmap) as (b & Hb & _).
    { apply filter_In. split; assumption. }
    exists b. exact Hb.
  - apply mapM_Throw_inv in Hmap. destruct Hmap as (event & Hin & Hev).
    apply filter_In in Hin. destruct Hin as [Hin Hon].
    destruct (toBusyInterval_Ok_iff now _ event Hon) as [Hiff Herr].
    split.
    + split; [intros [? H]; discriminate H |].
      intros Hall. exfalso.
      apply Hiff in Hall; [| exact Hin | exact Hon].
      destruct Hall as [b Hb]. congruence.
    + intros error H. rewrite <- (Herr err Hev). congruence.
Qed.

Lemma forEachDate_Ok_iff now events timeSlots dates : forall availableSlots,
  ((exists days,
      CalendarService.forEachDate now events timeSlots dates availableSlots
      = Ok days)
   <-> forall date, In date dates ->
         exists daySlots,
           CalendarService.calculateDayAvailableSlots now events date
             (windowsOf timeSlots date) = Ok daySlots)
  /\ forall error,
       CalendarService.forEachDate now events timeSlots dates availableSlots
       = Throw error ->
       exists date,
         In date dates
         /\ CalendarService.calculateDayAvailableSlots now events date
              (windowsOf timeSlots date) = Throw error.
Proof.
  induction dates as [| d rest IH]; intros availableSlots;
    cbn [CalendarService.forEachDate].
  - split; [| discriminate].
    split; [intros _ ? [] | intros _; eexists; reflexivity].
  - unfold bind. fold (windowsOf timeSlots d).
    destruct (CalendarService.calculateDayAvailableSlots now events d
                (windowsOf timeSlots d)) as [daySlots | err] eqn:Hday.
    + match goal with
      | |- context [if ?c then CalendarService.forEachDate _ _ _ _ ?a1
                    else CalendarService.forEachDate _ _ _ _ ?a2] =>
          assert (Hnext :
            (if c then CalendarService.forEachDate now events timeSlots rest a1
             else CalendarService.forEachDate now events timeSlots rest a2)
            = CalendarService.forEachDate now events timeSlots rest
                (if c then a1 else a2)) by (destruct c; reflexivity);
          rewrite Hnext;
          destruct (IH (if c then a1 else a2)) as [Hiff Herr]
      end.
      split.
      * rewrite Hiff. split.
        -- intros Hall date [<- | Hin]; [eexists; exact Hday | apply Hall; exact Hin].
        -- intros Hall date Hin. apply Hall. right. exact Hin.
      * intros error H. destruct (Herr error H) as (date & Hin & Hd).
        exists date. split; [right; exact Hin | exact Hd].
    + split.
      * split; [intros [? H]; discriminate H |].
        intros Hall. destruct (Hall d (or_introl eq_refl)) as [s Hs].
        congruence.
      * intros error H. exists d. split; [left; reflexivity | congruence].
Qed.

(** X30.  When the calculation throws.  [calculateAvailableSlots] returns
    a result exactly when every event that starts on one of the dates it
    walks has an [end]; events of other dates, and events without a
    [start], never make it fail.  When it throws, the exception is the
    [TypeError] of reading [dateTime] of the missing [end]. *)
Theorem calculateAvailableSlots_returns_iff
    (now : Z) (events : list CalendarEvent) (startDate endDate : Z)
    (timeSlots : list TimeSlot) :
  ((exists days,
      CalendarService.calculateAvailableSlots now events startDate endDate
        timeSlots = Ok days)
   <-> forall date event,
         In date (CalendarService.targetDates startDate endDate timeSlots) ->
         In event events ->
         CalendarService.onTargetDate (Dayjs.formatDay date) event = true ->
         end_ event <> None)
  /\ forall error,
       CalendarService.calculateAvailableSlots now events startDate endDate
         timeSlots = Throw error ->
       error = TypeError_dateTime.
Proof.
  unfold CalendarService.calculateAvailableSlots.
  destruct (forEachDate_Ok_iff now events timeSlots
              (CalendarService.targetDates startDate endDate timeSlots) [])
    as [Hiff Herr].
  split.
  - rewrite Hiff. split.
    + intros Hall date event Hdate.
      apply (calculateDayAvailableSlots_Ok_iff now events date
               (windowsOf timeSlots date)).
      apply Hall. exact Hdate.
    + intros Hall date Hdate.
      apply (calculateDayAvailableSlots_Ok_iff now events date
               (windowsOf timeSlots date)).
      intros event. apply Hall. exact Hdate.
  - intros error H. destruct (Herr error H) as (date & _ & Hd).
    apply (calculateDayAvailableSlots_Ok_iff now events date
             (windowsOf timeSlots date)). exact Hd.
Qed.
